(** * Codebot Air editor: the Simple View / movement.py synchronisation engine

    A shallow embedding of the text-synchronisation code of
    [src/codebotair.py] (classes [SimpleViewEditor] and [RobotControlApp]):
    the code generator, the regex-based parameter extractor, the in-place
    parameter substitution, the marker-based splice into [movement.py], the
    load of [movement.py] into the Simple View and the two view switches.

    Python [str] values are sequences of Unicode code points; they are
    modelled as lists of code points ([N]).  The regular expressions of the
    source are written as values of a small regex syntax and run by a greedy
    backtracking matcher, as Python's [re] does. *)

From stdpp Require Import gmap strings list.
From Stdlib Require Import NArith Ascii Lia.

Local Open Scope N_scope.

(** ** Text *)

Abbreviation text := (list N).

(** An ASCII literal of the source as a list of code points. *)
Definition txt (s : string) : text :=
  List.map N_of_ascii (String.list_ascii_of_string s).

Definition nl : N := 10.        (* newline *)
Definition quote : N := 34.     (* double quote *)
Definition arrow : N := 8592.   (* leftwards arrow, U+2190 *)
Definition dot : N := 46.       (* full stop *)
Definition equals : N := 61.    (* equals sign *)

(** [Py_UNICODE_ISSPACE]: the characters [\s] matches in a [str] pattern and
    [str.strip()] removes. *)
Definition is_space (c : N) : bool :=
  ((9 <=? c) && (c <=? 13)) || ((28 <=? c) && (c <=? 32))
  || (c =? 133) || (c =? 160) || (c =? 5760)
  || ((8192 <=? c) && (c <=? 8202))
  || (c =? 8232) || (c =? 8233) || (c =? 8239) || (c =? 8287) || (c =? 12288).

(** ** The text of an editor widget

    A [QPlainTextEdit] keeps a document, not a string.  [setPlainText] starts
    a new block at a line feed, at a carriage return (taken together with a
    line feed that follows it), at U+2029, U+FDD0 and U+FDD1; [toPlainText]
    returns the blocks joined by line feeds, with U+2028 as a line feed and
    U+00A0 as a space.  [toPlainText t] is the text the widget returns once
    [setPlainText t] has run. *)
Fixpoint toPlainText (t : text) : text :=
  match t with
  | [] => []
  | c :: r =>
      if c =? 13 then
        nl :: match r with
              | d :: r' => if d =? nl then toPlainText r' else toPlainText r
              | [] => []
              end
      else if (c =? 8232) || (c =? 8233) || (c =? 64976) || (c =? 64977)
      then nl :: toPlainText r
      else if c =? 160 then 32 :: toPlainText r
      else c :: toPlainText r
  end.

(** Code points of the digit zero of every Unicode decimal-digit block
    (general category Nd, Unicode 14.0 as shipped with CPython 3.11); the
    digits one to nine follow each zero.  [\d] matches exactly these
    characters in a [str] pattern, and [float()] accepts them. *)
Definition decimal_zeros : list N :=
  [48; 1632; 1776; 1984; 2406; 2534; 2662; 2790; 2918; 3046; 3174; 3302;
   3430; 3558; 3664; 3792; 3872; 4160; 4240; 6112; 6160; 6470; 6608; 6784;
   6800; 6992; 7088; 7232; 7248; 42528; 43216; 43264; 43472; 43504; 43600;
   44016; 65296; 66720; 68912; 69734; 69872; 69942; 70096; 70384; 70736;
   70864; 71248; 71360; 71472; 71904; 72016; 72784; 73040; 73120; 92768;
   92864; 93008; 120782; 120792; 120802; 120812; 120822; 123200; 123632;
   125264; 130032].

Fixpoint decimal_in (zs : list N) (c : N) : option N :=
  match zs with
  | [] => None
  | z :: zs' => if (z <=? c) && (c <? z + 10) then Some (c - z)
                else decimal_in zs' c
  end.

(** The decimal value of a digit character, [None] for any other. *)
Definition digit_value (c : N) : option N := decimal_in decimal_zeros c.

Definition is_digit (c : N) : bool :=
  match digit_value c with Some _ => true | None => false end.

(** ** Regular expressions

    The fragment of Python's [re] syntax the source uses: literal characters,
    the classes [\s], [[\d.]], "anything but a double quote" and (under
    [re.DOTALL]) [.], the greedy
    quantifiers [*] and [+], the lazy [*?], and one capture group. *)

Inductive cclass := CSpace | CDigitDot | CNotQuote | CAny.

Definition in_class (k : cclass) (c : N) : bool :=
  match k with
  | CSpace => is_space c
  | CDigitDot => is_digit c || (c =? dot)
  | CNotQuote => negb (c =? quote)
  | CAny => true
  end.

Inductive item :=
| Chr (c : N)
| Star (k : cclass)
| Plus (k : cclass)
| LazyStar (k : cclass).

(** A pattern [pre(grp)post]: the items before the capture group, inside it
    and after it. *)
Record regex := Regex {
  re_pre : list item;
  re_grp : list item;
  re_post : list item
}.

Definition lit (t : text) : list item := List.map Chr t.

Section Matcher.
Context {R : Type}.

(** Greedy repetition: take one more character when possible, and fall back
    to the continuation when the longer attempt fails. *)
Fixpoint m_star (k : cclass) (cont : text -> nat -> option R)
         (s : text) (n : nat) : option R :=
  match s with
  | c :: s' =>
      if in_class k c then
        match m_star k cont s' (S n) with
        | Some r => Some r
        | None => cont s n
        end
      else cont s n
  | [] => cont s n
  end.

(** Lazy repetition: try the continuation first. *)
Fixpoint m_lazy (k : cclass) (cont : text -> nat -> option R)
         (s : text) (n : nat) : option R :=
  match cont s n with
  | Some r => Some r
  | None =>
      match s with
      | c :: s' => if in_class k c then m_lazy k cont s' (S n) else None
      | [] => None
      end
  end.

(** [m_items its cont s n]: match the items against [s], [n] characters of
    the attempt already consumed, then run [cont] on the rest. *)
Fixpoint m_items (its : list item) (cont : text -> nat -> option R)
         (s : text) (n : nat) : option R :=
  match its with
  | [] => cont s n
  | Chr c :: r =>
      match s with
      | c' :: s' => if c =? c' then m_items r cont s' (S n) else None
      | [] => None
      end
  | Star k :: r => m_star k (m_items r cont) s n
  | Plus k :: r =>
      match s with
      | c :: s' => if in_class k c then m_star k (m_items r cont) s' (S n)
                   else None
      | [] => None
      end
  | LazyStar k :: r => m_lazy k (m_items r cont) s n
  end.
End Matcher.

(** A match object: [m_start, m_end) is [m.span()], [g_start, g_end) is
    [m.span(1)]. *)
Record mtch := Mtch {
  m_start : nat;
  g_start : nat;
  g_end : nat;
  m_end : nat
}.

(** The pattern anchored at the head of [s]: offsets of the group start, the
    group end and the match end. *)
Definition match_at (p : regex) (s : text) : option (nat * nat * nat) :=
  m_items (re_pre p)
    (fun s1 n1 =>
       m_items (re_grp p)
         (fun s2 n2 =>
            m_items (re_post p) (fun _ n3 => Some (n1, n2, n3)) s2 n2)
         s1 n1)
    s 0%nat.

Fixpoint search_from (p : regex) (s : text) (a : nat) : option mtch :=
  match match_at p s with
  | Some (n1, n2, n3) =>
      Some (Mtch a (a + n1) (a + n2) (a + n3))
  | None =>
      match s with
      | [] => None
      | _ :: s' => search_from p s' (S a)
      end
  end.

(** [re.search(p, t)]: the leftmost match. *)
Definition re_search (p : regex) (t : text) : option mtch :=
  search_from p t 0%nat.

(** [t[i:j]] *)
Definition slice (i j : nat) (t : text) : text := take (j - i) (drop i t).

(** [m.group(1)] *)
Definition group1 (m : mtch) (t : text) : text :=
  slice (g_start m) (g_end m) t.

(** A replacement template: [\g<1>] and literal text. *)
Inductive tpl_part := Group1 | Literal (t : text).

Fixpoint expand (tpl : list tpl_part) (m : mtch) (t : text) : text :=
  match tpl with
  | [] => []
  | Group1 :: r => group1 m t ++ expand r m t
  | Literal l :: r => l ++ expand r m t
  end.

(** [re.sub(p, tpl, t, count=1)] *)
Definition re_sub1 (p : regex) (tpl : list tpl_part) (t : text) : text :=
  match re_search p t with
  | None => t
  | Some m => take (m_start m) t ++ expand tpl m t ++ drop (m_end m) t
  end.

(** ** String operations of [str] *)

Fixpoint is_prefix (p s : text) : bool :=
  match p, s with
  | [], _ => true
  | c :: p', c' :: s' => (c =? c') && is_prefix p' s'
  | _ :: _, [] => false
  end.

Fixpoint find_from (sub s : text) (a : nat) : option nat :=
  if is_prefix sub s then Some a
  else match s with
       | [] => None
       | _ :: s' => find_from sub s' (S a)
       end.

(** [s.find(sub)], with [None] for Python's -1. *)
Definition find (sub s : text) : option nat := find_from sub s 0%nat.

(** [sub in s] *)
Definition contains (sub s : text) : bool :=
  match find sub s with Some _ => true | None => false end.

(** [s.split('\n')] *)
Fixpoint split_nl (s : text) : list text :=
  match s with
  | [] => [[]]
  | c :: s' =>
      if c =? nl then [] :: split_nl s'
      else match split_nl s' with
           | l :: ls => (c :: l) :: ls
           | [] => [[c]]
           end
  end.

(** ['\n'.join(ls)] *)
Fixpoint join_nl (ls : list text) : text :=
  match ls with
  | [] => []
  | [l] => l
  | l :: ls' => l ++ nl :: join_nl ls'
  end.

Fixpoint lstrip (s : text) : text :=
  match s with
  | c :: s' => if is_space c then lstrip s' else s
  | [] => []
  end.

(** [s.strip()] *)
Definition strip (s : text) : text := rev (lstrip (rev (lstrip s))).

(** [not s.strip()] *)
Definition blank (s : text) : bool :=
  match strip s with [] => true | _ :: _ => false end.

Fixpoint lstrip_nl (s : text) : text :=
  match s with
  | c :: s' => if c =? nl then lstrip_nl s' else s
  | [] => []
  end.

(** [s.rstrip('\n')] *)
Definition rstrip_nl (s : text) : text := rev (lstrip_nl (rev s)).

(** [for i, line in enumerate(lines): if sub in line: return i] *)
Fixpoint first_line_with (sub : text) (lines : list text) (i : nat)
  : option nat :=
  match lines with
  | [] => None
  | l :: ls => if contains sub l then Some i
               else first_line_with sub ls (S i)
  end.

(** ** Numbers

    A spin box with [d] decimals holds a multiple of [10^-d]; its value is
    modelled as the count of such units (0.30 with two decimals is 30). *)

Fixpoint digits_fuel (fuel : nat) (n : N) : text :=
  match fuel with
  | O => []
  | S f => if n <? 10 then [48 + n]
           else digits_fuel f (n / 10) ++ [48 + n mod 10]
  end.

(** The decimal digits of [n], without leading zeros. *)
Definition decimal (n : N) : text := digits_fuel (S (N.size_nat n)) n.

(** The last [d] decimal digits of [m], zero padded. *)
Fixpoint pad (d : nat) (m : N) : text :=
  match d with
  | O => []
  | S d' => pad d' (m / 10) ++ [48 + m mod 10]
  end.

(** [f'{x:.df}'] for the spin-box value [x = n / 10^d]. *)
Definition fixed (d : nat) (n : N) : text :=
  decimal (n / 10 ^ N.of_nat d) ++ dot :: pad d (n mod 10 ^ N.of_nat d).

Fixpoint digits_val (s : text) (acc : N) : option N :=
  match s with
  | [] => Some acc
  | c :: s' =>
      match digit_value c with
      | Some v => digits_val s' (10 * acc + v)
      | None => None
      end
  end.

Fixpoint until_dot (s : text) : text * text :=
  match s with
  | [] => ([], [])
  | c :: s' => if c =? dot then ([], s)
               else let '(a, b) := until_dot s' in (c :: a, b)
  end.

(** [float(s)] on a text of digits and full stops (all that [[\d.]+] can
    capture): the number [m / 10^k] as [Some (m, k)], and [None] where Python
    raises [ValueError] (no digit at all, or a second full stop). *)
Definition py_float (s : text) : option (N * nat) :=
  match until_dot s with
  | (ip, []) =>
      match ip with
      | [] => None
      | _ :: _ => m ← digits_val ip 0; Some (m, 0%nat)
      end
  | (ip, _ :: fp) =>
      match ip ++ fp with
      | [] => None
      | _ :: _ => m ← digits_val (ip ++ fp) 0; Some (m, length fp)
      end
  end.

(** ** The parameter widgets *)

Inductive colour := Red | Blue | Yellow | Green.

Definition colour_text (c : colour) : text :=
  match c with
  | Red => txt "Red"
  | Blue => txt "Blue"
  | Yellow => txt "Yellow"
  | Green => txt "Green"
  end.

(** [colour in ["Red", "Blue", "Yellow", "Green"]] *)
Definition colour_of_text (t : text) : option colour :=
  if bool_decide (t = txt "Red") then Some Red
  else if bool_decide (t = txt "Blue") then Some Blue
  else if bool_decide (t = txt "Yellow") then Some Yellow
  else if bool_decide (t = txt "Green") then Some Green
  else None.

(** [setRange] and [setDecimals] of a [QDoubleSpinBox], the bounds in units
    of [10^-decimals]. *)
Record spin_cfg := SpinCfg {
  decimals : nat;
  minimum : N;
  maximum : N
}.

Definition forward_speed_cfg := SpinCfg 2 1 200.
Definition backward_speed_cfg := SpinCfg 2 1 200.
Definition turn_speed_cfg := SpinCfg 2 10 300.
Definition obstacle_distance_cfg := SpinCfg 2 10 200.
Definition turn_cw_cfg := SpinCfg 1 0 3600.
Definition turn_acw_cfg := SpinCfg 1 0 3600.

(** The values of the six spin boxes and of the combo box. *)
Record params := MkParams {
  forward_speed : N;
  backward_speed : N;
  turn_speed : N;
  obstacle_distance : N;
  turn_cw : N;
  turn_acw : N;
  colour_detection : colour
}.

Definition within (c : spin_cfg) (v : N) : Prop :=
  minimum c <= v <= maximum c.

(** Every spin box holds a value of its range. *)
Definition in_range (p : params) : Prop :=
  within forward_speed_cfg (forward_speed p)
  /\ within backward_speed_cfg (backward_speed p)
  /\ within turn_speed_cfg (turn_speed p)
  /\ within obstacle_distance_cfg (obstacle_distance p)
  /\ within turn_cw_cfg (turn_cw p)
  /\ within turn_acw_cfg (turn_acw p).

(** An instance of [setValue] in exact decimal arithmetic, to run the
    examples with: it rounds [m / 10^k] to the decimals of the box (half up)
    and clamps it to the range.  It is [QDoubleSpinBox.setValue] only where
    [m / 10^k] is a multiple of [10^-decimals]: on other numbers Qt rounds
    the binary double [float()] returned (0.305 with two decimals is held as
    0.30, where this instance gives 0.31).  The theorems take the widget as
    a parameter and ask of it [stores_exact] alone. *)
Definition qt_setValue (c : spin_cfg) (x : N * nat) : N :=
  let '(m, k) := x in
  let r := (2 * m * 10 ^ N.of_nat (decimals c) + 10 ^ N.of_nat k)
             / (2 * 10 ^ N.of_nat k) in
  N.max (minimum c) (N.min (maximum c) r).

(** ** The code generator *)

(** [_generate_simple_code] *)
Definition generate_simple_code (p : params) : text :=
  txt "from codebotair import Robot" ++ [nl]
  ++ [nl]
  ++ txt "class Movement(Robot):" ++ [nl]
  ++ txt "    def __init__(self):" ++ [nl]
  ++ txt "        super().__init__()" ++ [nl]
  ++ txt "        # === Editable Parameters ===" ++ [nl]
  ++ txt "        self.forward_speed = " ++ fixed 2 (forward_speed p) ++ txt "       # m/s  " ++ [arrow] ++ txt " edit" ++ [nl]
  ++ txt "        self.backward_speed = " ++ fixed 2 (backward_speed p) ++ txt "      # m/s  " ++ [arrow] ++ txt " edit" ++ [nl]
  ++ txt "        self.turn_speed = " ++ fixed 2 (turn_speed p) ++ txt "          # rad/s  " ++ [arrow] ++ txt " edit" ++ [nl]
  ++ txt "        self.obstacle_distance = " ++ fixed 2 (obstacle_distance p) ++ txt "   # metres  " ++ [arrow] ++ txt " edit" ++ [nl]
  ++ txt "        self.turn_cw_deg = " ++ fixed 1 (turn_cw p) ++ txt "         # degrees CW  " ++ [arrow] ++ txt " edit" ++ [nl]
  ++ txt "        self.turn_acw_deg = " ++ fixed 1 (turn_acw p) ++ txt "        # degrees ACW  " ++ [arrow] ++ txt " edit" ++ [nl]
  ++ txt "        self.colour_detection = " ++ [quote] ++ colour_text (colour_detection p) ++ [quote] ++ txt "   # Red|Blue|Yellow|Green  " ++ [arrow] ++ txt " edit" ++ [nl]
  ++ [nl]
  ++ txt "    # vvv Drag and drop functions below vvv" ++ [nl]
  ++ [nl]
  ++ txt "    def control_loop(self):" ++ [nl]
  ++ txt "        # === Movement Logic ===" ++ [nl]
  ++ txt "        if self.obstacle_in_front():" ++ [nl]
  ++ txt "            self.stop()                       # stop movement" ++ [nl]
  ++ txt "            self.turn_cw(self.turn_cw_deg)    # turn clockwise  " ++ [arrow] ++ txt " edit" ++ [nl]
  ++ txt "        else:" ++ [nl]
  ++ txt "            self.move(self.forward_speed)     # drive forward  " ++ [arrow] ++ txt " edit" ++ [nl].

(** ** The patterns of the source *)

(** The regexes are quoted with blanks between their parts.
    [self\.<name> \s* = \s*] *)
Definition assign (name : string) : list item :=
  lit (txt "self." ++ txt name) ++ [Star CSpace; Chr equals; Star CSpace].

(** [self\.<name> \s* = \s* ( [\d.]+ )] *)
Definition extract_num (name : string) : regex :=
  Regex (assign name) [Plus CDigitDot] [].

(** [self\.colour_detection \s* = \s* Q ( [^Q]+ ) Q], [Q] the double quote *)
Definition extract_colour : regex :=
  Regex (assign "colour_detection" ++ [Chr quote]) [Plus CNotQuote]
        [Chr quote].

(** [( self\.<name> \s* = \s* ) [\d.]+] *)
Definition replace_num (name : string) : regex :=
  Regex [] (assign name) [Plus CDigitDot].

(** [( self\.colour_detection \s* = \s* Q ) [^Q]* Q] *)
Definition replace_colour : regex :=
  Regex [] (assign "colour_detection" ++ [Chr quote])
        [Star CNotQuote; Chr quote].

(** The list [replacements] built in [_sync_simple_view_from_spinboxes],
    [_sync_full_view_from_spinboxes] and [_write_params_to_movement_py]. *)
Definition replacements (p : params) : list (regex * list tpl_part) :=
  [ (replace_num "forward_speed", [Group1; Literal (fixed 2 (forward_speed p))]);
    (replace_num "backward_speed", [Group1; Literal (fixed 2 (backward_speed p))]);
    (replace_num "turn_speed", [Group1; Literal (fixed 2 (turn_speed p))]);
    (replace_num "obstacle_distance", [Group1; Literal (fixed 2 (obstacle_distance p))]);
    (replace_num "turn_cw_deg", [Group1; Literal (fixed 1 (turn_cw p))]);
    (replace_num "turn_acw_deg", [Group1; Literal (fixed 1 (turn_acw p))]);
    (replace_colour, [Group1; Literal (colour_text (colour_detection p) ++ [quote])]) ].

(** [for pattern, repl in replacements: code = re.sub(pattern, repl, code, count=1)] *)
Definition substitute (rs : list (regex * list tpl_part)) (code : text) : text :=
  fold_left (fun c r => re_sub1 (fst r) (snd r) c) rs code.

(** The literals of the sync engine. *)
Definition marker_start : text :=
  txt "        # user control_loop logic below" ++ [nl].
Definition marker_end : text := txt "        # end user control_loop logic".
Definition separator : text := txt "# === Movement Logic ===".
Definition sentinel : text := txt "def control_loop".

(** The start marker, a lazy [( .*? )] and the end marker, compiled with
    [re.DOTALL]. *)
Definition markers_re : regex :=
  Regex (lit marker_start) [LazyStar CAny] (lit marker_end).

(** ** The application state

    The attributes of [RobotControlApp] the sync engine reads and writes, the
    two editors' texts and the files under [_PKG_DIR] (keyed by their path
    relative to it; a missing key is a missing file).  An editor is modelled
    by the text its [toPlainText()] returns, so [setPlainText(t)] stores
    [toPlainText t]; cursor positions are not modelled. *)
Record App := MkApp {
  syncing : bool;                           (* _syncing *)
  spins : params;                           (* the parameter widgets *)
  simple_editor : text;                     (* simple_editor.toPlainText() *)
  full_editor : text;                       (* full_editor.toPlainText() *)
  editor_stack : nat;                       (* currentIndex(): 0 Simple, 1 Full *)
  full_view_current_file : option string;   (* _full_view_current_file *)
  disk : gmap string text
}.

Definition MOVEMENT_PY : string := "movement_pkg/movement.py".

Definition set_syncing (b : bool) (s : App) : App :=
  MkApp b (spins s) (simple_editor s) (full_editor s) (editor_stack s)
        (full_view_current_file s) (disk s).
Definition set_spins (p : params) (s : App) : App :=
  MkApp (syncing s) p (simple_editor s) (full_editor s) (editor_stack s)
        (full_view_current_file s) (disk s).
Definition set_simple_editor (t : text) (s : App) : App :=
  MkApp (syncing s) (spins s) t (full_editor s) (editor_stack s)
        (full_view_current_file s) (disk s).
Definition set_full_editor (t : text) (s : App) : App :=
  MkApp (syncing s) (spins s) (simple_editor s) t (editor_stack s)
        (full_view_current_file s) (disk s).
Definition set_editor_stack (i : nat) (s : App) : App :=
  MkApp (syncing s) (spins s) (simple_editor s) (full_editor s) i
        (full_view_current_file s) (disk s).
Definition set_disk (d : gmap string text) (s : App) : App :=
  MkApp (syncing s) (spins s) (simple_editor s) (full_editor s)
        (editor_stack s) (full_view_current_file s) d.

Definition set_forward_speed (v : N) (p : params) : params :=
  MkParams v (backward_speed p) (turn_speed p) (obstacle_distance p)
         (turn_cw p) (turn_acw p) (colour_detection p).
Definition set_backward_speed (v : N) (p : params) : params :=
  MkParams (forward_speed p) v (turn_speed p) (obstacle_distance p)
         (turn_cw p) (turn_acw p) (colour_detection p).
Definition set_turn_speed (v : N) (p : params) : params :=
  MkParams (forward_speed p) (backward_speed p) v (obstacle_distance p)
         (turn_cw p) (turn_acw p) (colour_detection p).
Definition set_obstacle_distance (v : N) (p : params) : params :=
  MkParams (forward_speed p) (backward_speed p) (turn_speed p) v
         (turn_cw p) (turn_acw p) (colour_detection p).
Definition set_turn_cw (v : N) (p : params) : params :=
  MkParams (forward_speed p) (backward_speed p) (turn_speed p)
         (obstacle_distance p) v (turn_acw p) (colour_detection p).
Definition set_turn_acw (v : N) (p : params) : params :=
  MkParams (forward_speed p) (backward_speed p) (turn_speed p)
         (obstacle_distance p) (turn_cw p) v (colour_detection p).
Definition set_colour_detection (c : colour) (p : params) : params :=
  MkParams (forward_speed p) (backward_speed p) (turn_speed p)
         (obstacle_distance p) (turn_cw p) (turn_acw p) c.

(** ** Methods as state transformers that may raise *)

Inductive exn := ValueError | FileNotFoundError.

Inductive outcome (A : Type) :=
| Ret (a : A)
| Raise (e : exn).
Arguments Ret {A} a.
Arguments Raise {A} e.

Definition M (A : Type) : Type := App -> outcome A * App.

#[global] Instance M_ret : MRet M := fun A a s => (Ret a, s).
#[global] Instance M_bind : MBind M := fun A B f m s =>
  match m s with
  | (Ret a, s') => f a s'
  | (Raise e, s') => (Raise e, s')
  end.

Definition gets {A} (f : App -> A) : M A := fun s => (Ret (f s), s).
Definition modify (f : App -> App) : M unit := fun s => (Ret tt, f s).
Definition raise {A} (e : exn) : M A := fun s => (Raise e, s).

(** [try: body finally: fin] *)
Definition try_finally {A} (body : M A) (fin : M unit) : M A := fun s =>
  let '(o, s1) := body s in
  match fin s1 with
  | (Ret _, s2) => (o, s2)
  | (Raise e, s2) => (Raise e, s2)
  end.

(** [if m: k(m)] *)
Definition if_match (m : option mtch) (k : mtch -> M unit) : M unit :=
  match m with
  | Some x => k x
  | None => mret tt
  end.

(** ** The sync engine *)

Section Widgets.
(** [QDoubleSpinBox.setValue] of the box configured as [c], applied to the
    parsed number; it yields the value the box then holds.  The
    [valueChanged] and [currentTextChanged] signals it emits call
    [_sync_simple_view_from_spinboxes], which returns at its first
    statement because [_syncing] is set, so they are not modelled as
    calls. *)
Variable setValue : spin_cfg -> N * nat -> N.

(** [w.setValue(float(m.group(1)))] *)
Definition set_from_group (c : spin_cfg) (upd : N -> params -> params)
           (text : list N) (m : mtch) : M unit :=
  match py_float (group1 m text) with
  | Some x => modify (fun s => set_spins (upd (setValue c x) (spins s)) s)
  | None => raise ValueError
  end.

(** [_on_simple_code_changed] *)
Definition on_simple_code_changed : M unit :=
  busy ← gets syncing;
  if (busy : bool) then mret tt
  else
    modify (set_syncing true);;
    try_finally
      (text ← gets simple_editor;
       if_match (re_search (extract_num "forward_speed") text)
         (set_from_group forward_speed_cfg set_forward_speed text);;
       if_match (re_search (extract_num "backward_speed") text)
         (set_from_group backward_speed_cfg set_backward_speed text);;
       if_match (re_search (extract_num "turn_speed") text)
         (set_from_group turn_speed_cfg set_turn_speed text);;
       if_match (re_search (extract_num "obstacle_distance") text)
         (set_from_group obstacle_distance_cfg set_obstacle_distance text);;
       if_match (re_search (extract_num "turn_cw_deg") text)
         (set_from_group turn_cw_cfg set_turn_cw text);;
       if_match (re_search (extract_num "turn_acw_deg") text)
         (set_from_group turn_acw_cfg set_turn_acw text);;
       if_match (re_search extract_colour text)
         (fun m =>
            match colour_of_text (group1 m text) with
            | Some c =>
                modify (fun s => set_spins (set_colour_detection c (spins s)) s)
            | None => mret tt
            end))
      (modify (set_syncing false)).
End Widgets.

(** [_sync_simple_view_from_spinboxes].  The [textChanged] signal of
    [setPlainText] calls [_on_simple_code_changed], which returns at once
    while [_syncing] is set. *)
Definition sync_simple_view_from_spinboxes : M unit :=
  busy ← gets syncing;
  if (busy : bool) then mret tt
  else
    modify (set_syncing true);;
    try_finally
      (code ← gets simple_editor;
       if blank code then
         p ← gets spins;
         modify (set_simple_editor (toPlainText (generate_simple_code p)))
       else
         p ← gets spins;
         let new_code := substitute (replacements p) code in
         if bool_decide (new_code ≠ code)
         then modify (set_simple_editor (toPlainText new_code))
         else mret tt)
      (modify (set_syncing false)).

(** [_sync_full_view_from_spinboxes] *)
Definition sync_full_view_from_spinboxes : M unit :=
  code ← gets full_editor;
  if blank code then mret tt
  else
    p ← gets spins;
    let new_code := substitute (replacements p) code in
    if bool_decide (new_code ≠ code)
    then modify (set_full_editor (toPlainText new_code))
    else mret tt.

(** The loop of [while logic_lines and not logic_lines[-1].strip(): pop()],
    on the reversed list. *)
Fixpoint drop_blank (ls : list text) : list text :=
  match ls with
  | l :: ls' => if blank l then drop_blank ls' else ls
  | [] => []
  end.

(** [_extract_simple_view_logic], on the editor's text. *)
Definition extract_simple_view_logic (text : list N) : option (list N) :=
  let lines := split_nl text in
  match first_line_with separator lines 0 with
  | None => None
  | Some i =>
      let logic_start := S i in
      let logic_lines := rev (drop_blank (rev (drop logic_start lines))) in
      match logic_lines with
      | [] => None
      | _ :: _ => Some (join_nl logic_lines)
      end
  end.

(** [_write_simple_logic_to_movement_py] *)
Definition write_simple_logic_to_movement_py : M unit :=
  view ← gets simple_editor;
  match extract_simple_view_logic view with
  | None => mret tt
  | Some logic =>
      d ← gets disk;
      match d !! MOVEMENT_PY with
      | None => mret tt
      | Some code =>
          match find marker_start code, find marker_end code with
          | Some start_idx, Some end_idx =>
              let new_code :=
                take (start_idx + length marker_start) code
                ++ logic ++ [nl] ++ drop end_idx code in
              if bool_decide (new_code ≠ code)
              then modify (set_disk (<[MOVEMENT_PY := new_code]> d))
              else mret tt
          | _, _ => mret tt
          end
      end
  end.

(** [_load_simple_view_from_movement_py] *)
Definition load_simple_view_from_movement_py : M unit :=
  d ← gets disk;
  match d !! MOVEMENT_PY with
  | None =>
      view ← gets simple_editor;
      if blank view then
        modify (set_syncing true);;
        try_finally
          (p ← gets spins;
           modify (set_simple_editor (toPlainText (generate_simple_code p))))
          (modify (set_syncing false))
      else mret tt
  | Some code =>
      match re_search markers_re code with
      | None =>
          modify (set_syncing true);;
          try_finally
            (p ← gets spins;
             modify (set_simple_editor (toPlainText (generate_simple_code p))))
            (modify (set_syncing false))
      | Some m =>
          let saved_logic := rstrip_nl (group1 m code) in
          p ← gets spins;
          let base_code := generate_simple_code p in
          let lines := split_nl base_code in
          let base_code :=
            match first_line_with separator lines 0 with
            | Some i =>
                let logic_start := S i in
                join_nl (take logic_start lines ++ [saved_logic]) ++ [nl]
            | None => base_code
            end in
          modify (set_syncing true);;
          try_finally
            (modify (set_simple_editor (toPlainText base_code)))
            (modify (set_syncing false))
      end
  end.

(** [_write_params_to_movement_py] *)
Definition write_params_to_movement_py : M unit :=
  d ← gets disk;
  match d !! MOVEMENT_PY with
  | None => mret tt
  | Some code =>
      p ← gets spins;
      modify (set_disk (<[MOVEMENT_PY := substitute (replacements p) code]> d))
  end.

(** [_sync_simple_view_to_full_view].  The two writers return when the file
    is absent; [open] then raises. *)
Definition sync_simple_view_to_full_view : M unit :=
  write_params_to_movement_py;;
  write_simple_logic_to_movement_py;;
  f ← gets full_view_current_file;
  if bool_decide (f = Some MOVEMENT_PY) then
    d ← gets disk;
    match d !! MOVEMENT_PY with
    | Some code => modify (set_full_editor (toPlainText code))
    | None => raise FileNotFoundError
    end
  else mret tt.

(** [_save_full_view_file]: the file receives what [full_editor.toPlainText()]
    returns.  A failing write is swallowed by the source and is not
    modelled. *)
Definition save_full_view_file : M unit :=
  f ← gets full_view_current_file;
  match f with
  | None => mret tt
  | Some path =>
      if bool_decide (path = ""%string) then mret tt
      else
        code ← gets full_editor;
        d ← gets disk;
        modify (set_disk (<[path := code]> d))
  end.

(** [_show_simple_view] (the button and search-bar calls are omitted) *)
Definition show_simple_view : M unit :=
  i ← gets editor_stack;
  (if bool_decide ((i : nat) = 1%nat) then save_full_view_file else mret tt);;
  modify (set_editor_stack 0);;
  load_simple_view_from_movement_py.

(** [_show_full_view] *)
Definition show_full_view : M unit :=
  i ← gets editor_stack;
  (if bool_decide ((i : nat) = 0%nat) then sync_simple_view_to_full_view else mret tt);;
  modify (set_editor_stack 1);;
  f ← gets full_view_current_file;
  if bool_decide (f = Some MOVEMENT_PY) then sync_full_view_from_spinboxes
  else mret tt.

(** [_autosave] *)
Definition autosave : M unit :=
  i ← gets editor_stack;
  if bool_decide ((i : nat) = 0%nat) then
    write_params_to_movement_py;; write_simple_logic_to_movement_py
  else save_full_view_file.

(** Reconciliation: what [_autosave], [save], [_save_from_editor],
    [_deploy_from_editor] and [_sync_simple_view_to_full_view] run in the
    Simple View, the parameter rewrite followed by the logic splice. *)
Definition reconcile : M unit :=
  write_params_to_movement_py;; write_simple_logic_to_movement_py.

(** ** The drop guard of [SimpleViewEditor] *)

(** [_logic_start_line] *)
Definition logic_start_line (text : list N) : option nat :=
  first_line_with sentinel (split_nl text) 0.

(** [dropEvent]: [true] when the drop at block [drop_line] is handed to
    [super().dropEvent], [false] when it is ignored. *)
Definition dropEvent (text : list N) (drop_line : nat) : bool :=
  match logic_start_line text with
  | Some logic_line => if bool_decide (drop_line ≤ logic_line)%nat then false else true
  | None => true
  end.

(** ** Specification vocabulary *)

(** [sub] occurs in [s] at offset [i]. *)
Definition occurs_at (sub s : list N) (i : nat) : Prop :=
  exists a b, s = a ++ sub ++ b /\ length a = i.

Definition occurs (sub s : list N) : Prop := exists i, occurs_at sub s i.

(** Line [B] is the first of [lines] in which [sub] occurs. *)
Definition first_line_containing (sub : list N) (lines : list (list N))
           (B : nat) : Prop :=
  (exists l, lines !! B = Some l /\ occurs sub l)
  /\ forall i l, (i < B)%nat -> lines !! i = Some l -> ~ occurs sub l.

(** A line of white space only (or empty). *)
Definition blank_line (l : list N) : Prop := Forall (fun c => is_space c = true) l.

(** ** Example inputs *)

(** A Simple View text whose first parameter value does not parse. *)
Definition unparseable_view : list N :=
  txt "self.forward_speed = 1.2.3" ++ [nl] ++ txt "self.backward_speed = 0.50".

Definition example_params : params := MkParams 30 20 100 50 900 900 Red.

(** ** Vocabulary for the matcher's behaviour *)

(** The longest prefix of [s] in class [k], and what follows it. *)
Fixpoint run (k : cclass) (s : list N) : list N :=
  match s with
  | c :: s' => if in_class k c then c :: run k s' else []
  | [] => []
  end.

Fixpoint skip (k : cclass) (s : list N) : list N :=
  match s with
  | c :: s' => if in_class k c then skip k s' else s
  | [] => []
  end.

Definition all_in (k : cclass) (w : list N) : Prop :=
  Forall (fun c => in_class k c = true) w.

(** [r] is empty or starts with a character outside [k]. *)
Definition stops (k : cclass) (r : list N) : Prop :=
  match r with
  | [] => True
  | c :: _ => in_class k c = false
  end.

(** [self.<name>] *)
Definition self_ (name : string) : list N := txt "self." ++ txt name.

(** The names of the six numeric parameters as the patterns spell them. *)
Definition num_names : list string :=
  ["forward_speed"; "backward_speed"; "turn_speed"; "obstacle_distance";
   "turn_cw_deg"; "turn_acw_deg"].

Definition all_names : list string := num_names ++ ["colour_detection"].

(** [s] starts with [self.<name>], white space, [=], white space and a
    maximal non-empty run [D] of digits and full stops; [g] is the offset of
    [D] and [e] the offset of its end. *)
Definition num_shape (name : string) (s : list N) (g e : nat) : Prop :=
  exists w1 w2 D R,
    s = self_ name ++ w1 ++ equals :: w2 ++ D ++ R
    /\ all_in CSpace w1 /\ all_in CSpace w2
    /\ all_in CDigitDot D /\ D <> [] /\ stops CDigitDot R
    /\ g = length (self_ name ++ w1 ++ equals :: w2)
    /\ e = (g + length D)%nat.

(** [s] starts with [self.colour_detection], white space, [=], white space
    and a double-quoted text [C] without double quote; [g] is the offset of
    [C] and [e] the offset after the closing quote. *)
Definition colour_shape (s : list N) (g e : nat) : Prop :=
  exists w1 w2 C R,
    s = self_ "colour_detection" ++ w1 ++ equals :: w2 ++ quote :: C ++ quote :: R
    /\ all_in CSpace w1 /\ all_in CSpace w2
    /\ all_in CNotQuote C
    /\ g = length (self_ "colour_detection" ++ w1 ++ equals :: w2 ++ [quote])
    /\ e = S (g + length C).

(** [t = A ++ G ++ V ++ R] where [G ++ V] is the leftmost match of [p] in
    [t] and [G] its group 1 (for a pattern that opens with its group). *)
Definition first_match (p : regex) (t A G V R : list N) : Prop :=
  t = A ++ G ++ V ++ R
  /\ match_at p (G ++ V ++ R) = Some (0%nat, length G, length (G ++ V))
  /\ forall j, (j < length A)%nat -> match_at p (drop j t) = None.

(** [p] matches nowhere in [t]. *)
Definition no_match (p : regex) (t : list N) : Prop :=
  forall j, match_at p (drop j t) = None.

(** What the proofs need of a marker text [mk]: no digit, full stop or
    double quote in it, and no colour name contains it. *)
Definition marker_like (mk : list N) : Prop :=
  Forall (fun c => in_class CDigitDot c = false) mk
  /\ (quote ∉ mk)
  /\ forall c, find mk (colour_text c) = None.

(** The text [_write_simple_logic_to_movement_py] leaves in the file that
    held [code], for the logic extracted from the Simple View. *)
Definition splice (logic : option (list N)) (code : list N) : list N :=
  match logic, find marker_start code, find marker_end code with
  | Some lg, Some start_idx, Some end_idx =>
      take (start_idx + length marker_start) code ++ lg ++ [nl]
      ++ drop end_idx code
  | _, _, _ => code
  end.

(** The artifact after reconciliation, from the widgets' values, the Simple
    View's text and the prior artifact. *)
Definition reconciled (p : params) (view code : list N) : list N :=
  splice (extract_simple_view_logic view) (substitute (replacements p) code).

(** An artifact without markers and a Simple View showing the default
    document. *)
Definition bare_artifact : list N := txt "x = 1".
Definition bare_state : App :=
  MkApp false example_params (generate_simple_code example_params) [] 0 None
        {[ MOVEMENT_PY := bare_artifact ]}.

(** An artifact with both markers and a header of its own. *)
Definition plain_artifact : list N :=
  txt "# my header" ++ [nl] ++ marker_start ++ txt "        pass" ++ [nl]
  ++ marker_end ++ [nl].
Definition plain_state : App :=
  MkApp false example_params (generate_simple_code example_params) [] 0 None
        {[ MOVEMENT_PY := plain_artifact ]}.

(** [p] matches somewhere in [t]. *)
Definition has_match (p : regex) (t : list N) : Prop :=
  exists j r, match_at p (drop j t) = Some r.

(** The patterns of [replacements]. *)
Definition patterns : list regex :=
  map replace_num num_names ++ [replace_colour].

(** Every parameter whose assignment pattern matches somewhere in
    [h ++ rest] has a match inside [h]: a parameter assigned anywhere in the
    text is assigned in its header [h]. *)
Definition covered (h rest : list N) : Prop :=
  forall p, p ∈ patterns -> has_match p (h ++ rest) -> has_match p h.

(** [covered], decided by searching. *)
Definition covered_b (h rest : list N) : bool :=
  forallb (fun p => implb (bool_decide (is_Some (re_search p (h ++ rest))))
                          (bool_decide (is_Some (re_search p h))))
          patterns.

(** The characters an editor returns as they were set. *)
Definition kept (c : N) : bool :=
  negb ((c =? 13) || (c =? 160) || (c =? 8232) || (c =? 8233)
        || (c =? 64976) || (c =? 64977)).

(** A text an editor returns as it was set: it holds no carriage return, no
    U+00A0, U+2028, U+2029, U+FDD0 or U+FDD1. *)
Definition editor_text (t : list N) : Prop := Forall (fun c => kept c = true) t.

Definition editor_text_b (t : list N) : bool := forallb kept t.

(** The characters a parameter name is made of are no white space, no
    equals sign and no double quote. *)
Definition name_char (c : N) : bool :=
  negb (is_space c) && negb (c =? equals) && negb (c =? quote).

(** White space or the equals sign. *)
Definition sep_char (c : N) : bool := is_space c || (c =? equals).

(** The number of occurrences of the character [c] in [s]. *)
Fixpoint count_char (c : N) (s : list N) : nat :=
  match s with
  | [] => 0
  | c' :: s' => (if c =? c' then 1 else 0) + count_char c s'
  end.

(** The numeric rules of [replacements], as names and values. *)
Definition num_rule (kv : string * list N) : regex * list tpl_part :=
  (replace_num kv.1, [Group1; Literal kv.2]).

Definition num_values (p : params) : list (string * list N) :=
  [ ("forward_speed"%string, fixed 2 (forward_speed p));
    ("backward_speed"%string, fixed 2 (backward_speed p));
    ("turn_speed"%string, fixed 2 (turn_speed p));
    ("obstacle_distance"%string, fixed 2 (obstacle_distance p));
    ("turn_cw_deg"%string, fixed 1 (turn_cw p));
    ("turn_acw_deg"%string, fixed 1 (turn_acw p)) ].

Definition good_value (kv : string * list N) : Prop :=
  kv.1 ∈ num_names /\ all_in CDigitDot kv.2 /\ kv.2 <> [].


(** An artifact whose header carries no parameter assignment and whose logic
    region assigns [forward_speed]; the Simple View's logic region is
    empty. *)
Definition headless_artifact : list N :=
  txt "# parameters removed" ++ [nl] ++ marker_start
  ++ txt "        self.forward_speed = 0.10" ++ [nl] ++ marker_end ++ [nl].
Definition headless_state : App :=
  MkApp false example_params (separator ++ [nl]) [] 0 None
        {[ MOVEMENT_PY := headless_artifact ]}.

(** An artifact with an assignment of every parameter in its header and an
    assignment of [forward_speed] in its logic region. *)
Definition sample_header : list N :=
  txt "        self.forward_speed = 0.10" ++ [nl]
  ++ txt "        self.backward_speed = 0.20" ++ [nl]
  ++ txt "        self.turn_speed = 1.00" ++ [nl]
  ++ txt "        self.obstacle_distance = 0.50" ++ [nl]
  ++ txt "        self.turn_cw_deg = 90.0" ++ [nl]
  ++ txt "        self.turn_acw_deg = 90.0" ++ [nl]
  ++ txt "        self.colour_detection = " ++ [quote] ++ txt "Blue" ++ [quote]
  ++ [nl].
Definition sample_logic : list N :=
  txt "        self.forward_speed = 0.10" ++ [nl].
Definition sample_artifact : list N :=
  sample_header ++ marker_start ++ sample_logic ++ marker_end ++ [nl].
Definition sample_state : App :=
  MkApp false example_params (generate_simple_code example_params) [] 0 None
        {[ MOVEMENT_PY := sample_artifact ]}.

(** An artifact whose header assigns [forward_speed] only, with a second
    assignment of it in the logic region; the Simple View's logic region is
    empty. *)
Definition lean_header : list N :=
  txt "        self.forward_speed = 0.10" ++ [nl].
Definition lean_artifact : list N :=
  lean_header ++ marker_start ++ sample_logic ++ marker_end ++ [nl].
Definition lean_state : App :=
  MkApp false example_params (separator ++ [nl]) [] 0 None
        {[ MOVEMENT_PY := lean_artifact ]}.

(** A Simple View text whose colour assignment lacks its closing quote, with
    a second assignment of [forward_speed] and a quoted text below the
    separator. *)
Definition unclosed_view : list N :=
  txt "self.forward_speed = 0.10" ++ [nl]
  ++ txt "self.colour_detection = " ++ [quote] ++ txt "Red" ++ [nl]
  ++ separator ++ [nl]
  ++ txt "self.forward_speed = 0.10" ++ [nl]
  ++ txt "print(" ++ [quote] ++ txt "x" ++ [quote] ++ txt ")" ++ [nl].
Definition unclosed_state : App :=
  MkApp false (MkParams 40 20 100 50 900 900 Red) unclosed_view [] 0 None ∅.


(** [pat] and [l] differ at an offset both have. *)
Fixpoint clash_b (pat l : list N) : bool :=
  match pat, l with
  | a :: pat', b :: l' => if a =? b then clash_b pat' l' else true
  | _, _ => false
  end.

(** No suffix of the literal [L] can be continued to a text that starts
    with [pat]. *)
Definition never_starts (pat L : list N) : bool :=
  forallb (fun o => clash_b pat (drop o L)) (seq 0 (length L)).

(** No text that starts with [pat] starts inside [A], whatever follows
    [A]. *)
Definition no_start (pat A : list N) : Prop :=
  forall rest j, (j < length A)%nat -> is_prefix pat (drop j (A ++ rest)) = false.

(** The lines of [_generate_simple_code] before the parameters, a parameter
    line, and the lines after the parameters. *)
Definition preamble : list N :=
  txt "from codebotair import Robot" ++ [nl]
  ++ [nl]
  ++ txt "class Movement(Robot):" ++ [nl]
  ++ txt "    def __init__(self):" ++ [nl]
  ++ txt "        super().__init__()" ++ [nl]
  ++ txt "        # === Editable Parameters ===" ++ [nl].

Definition indent : list N := txt "        ".

Definition param_line (name : string) (value comment : list N) : list N :=
  indent ++ self_ name ++ txt " = " ++ value ++ comment ++ [arrow]
  ++ txt " edit" ++ [nl].

Definition logic_template : list N :=
  [nl]
  ++ txt "    # vvv Drag and drop functions below vvv" ++ [nl]
  ++ [nl]
  ++ txt "    def control_loop(self):" ++ [nl]
  ++ txt "        # === Movement Logic ===" ++ [nl]
  ++ txt "        if self.obstacle_in_front():" ++ [nl]
  ++ txt "            self.stop()                       # stop movement" ++ [nl]
  ++ txt "            self.turn_cw(self.turn_cw_deg)    # turn clockwise  " ++ [arrow] ++ txt " edit" ++ [nl]
  ++ txt "        else:" ++ [nl]
  ++ txt "            self.move(self.forward_speed)     # drive forward  " ++ [arrow] ++ txt " edit" ++ [nl].

(** The seven parameter lines. *)
Definition line_forward_speed (p : params) : list N :=
  param_line "forward_speed" (fixed 2 (forward_speed p)) (txt "       # m/s  ").
Definition line_backward_speed (p : params) : list N :=
  param_line "backward_speed" (fixed 2 (backward_speed p)) (txt "      # m/s  ").
Definition line_turn_speed (p : params) : list N :=
  param_line "turn_speed" (fixed 2 (turn_speed p)) (txt "          # rad/s  ").
Definition line_obstacle_distance (p : params) : list N :=
  param_line "obstacle_distance" (fixed 2 (obstacle_distance p))
             (txt "   # metres  ").
Definition line_turn_cw (p : params) : list N :=
  param_line "turn_cw_deg" (fixed 1 (turn_cw p)) (txt "         # degrees CW  ").
Definition line_turn_acw (p : params) : list N :=
  param_line "turn_acw_deg" (fixed 1 (turn_acw p)) (txt "        # degrees ACW  ").
Definition line_colour_detection (p : params) : list N :=
  param_line "colour_detection"
             ([quote] ++ colour_text (colour_detection p) ++ [quote])
             (txt "   # Red|Blue|Yellow|Green  ").

(** The end of a parameter line, after the value. *)
Definition line_end (comment : list N) : list N :=
  comment ++ [arrow] ++ txt " edit" ++ [nl].

(** What the theorems ask of [QDoubleSpinBox.setValue]: handed the number
    [n / 10^d], a value of the box's range with the box's [d] decimals, the
    box then holds it. *)
Definition stores_exact (setValue : spin_cfg -> N * nat -> N) : Prop :=
  forall c n, within c n -> setValue c (n, decimals c) = n.

(** The widgets hold other values than the text shows. *)
Definition stale_state : App :=
  MkApp false (MkParams 1 1 10 10 0 0 Blue)
        (generate_simple_code example_params) [] 0 None ∅.

(** A line holds no newline. *)
Definition nl_free (l : list N) : Prop := nl ∉ l.

(** A parameter line of [_generate_simple_code], without its newline. *)
Definition param_text (name : string) (value comment : list N) : list N :=
  indent ++ self_ name ++ txt " = " ++ value ++ comment ++ [arrow]
  ++ txt " edit".

(** The lines of [_generate_simple_code] up to the separator line, and the
    lines of the default logic (the text ends with a newline, so the last
    line is empty). *)
Definition header_lines (p : params) : list (list N) :=
  [ txt "from codebotair import Robot";
    [];
    txt "class Movement(Robot):";
    txt "    def __init__(self):";
    txt "        super().__init__()";
    txt "        # === Editable Parameters ===";
    param_text "forward_speed" (fixed 2 (forward_speed p)) (txt "       # m/s  ");
    param_text "backward_speed" (fixed 2 (backward_speed p)) (txt "      # m/s  ");
    param_text "turn_speed" (fixed 2 (turn_speed p)) (txt "          # rad/s  ");
    param_text "obstacle_distance" (fixed 2 (obstacle_distance p))
               (txt "   # metres  ");
    param_text "turn_cw_deg" (fixed 1 (turn_cw p)) (txt "         # degrees CW  ");
    param_text "turn_acw_deg" (fixed 1 (turn_acw p))
               (txt "        # degrees ACW  ");
    param_text "colour_detection"
               ([quote] ++ colour_text (colour_detection p) ++ [quote])
               (txt "   # Red|Blue|Yellow|Green  ");
    [];
    txt "    # vvv Drag and drop functions below vvv";
    [];
    txt "    def control_loop(self):";
    txt "        # === Movement Logic ===" ].

Definition template_lines : list (list N) :=
  [ txt "        if self.obstacle_in_front():";
    txt "            self.stop()                       # stop movement";
    txt "            self.turn_cw(self.turn_cw_deg)    # turn clockwise  "
      ++ [arrow] ++ txt " edit";
    txt "        else:";
    txt "            self.move(self.forward_speed)     # drive forward  "
      ++ [arrow] ++ txt " edit";
    [] ].

(** A logic text of the user's. *)
Definition custom_logic : list N :=
  txt "        self.forward_speed = 0.10" ++ [nl] ++ txt "        self.stop()".

(** The Simple View shows [custom_logic] below the generated header, the
    sample artifact is on disk and open in the Full View. *)
Definition round_trip_state : App :=
  MkApp false example_params
        (join_nl (header_lines example_params ++ [custom_logic]) ++ [nl])
        [] 0 (Some MOVEMENT_PY) {[ MOVEMENT_PY := sample_artifact ]}.

(** The same view over the artifact whose header assigns [forward_speed]
    only, open in the Full View. *)
Definition lean_round_trip_state : App :=
  MkApp false example_params
        (join_nl (header_lines example_params ++ [custom_logic]) ++ [nl])
        [] 0 (Some MOVEMENT_PY) {[ MOVEMENT_PY := lean_artifact ]}.

(** The same view over an artifact whose header holds a line that differs
    from the start marker by a U+00A0 in the place of a space. *)
Definition nbsp_header : list N :=
  txt "        #" ++ [160] ++ txt "user control_loop logic below" ++ [nl]
  ++ txt "        pass" ++ [nl] ++ lean_header.
Definition nbsp_artifact : list N :=
  nbsp_header ++ marker_start ++ sample_logic ++ marker_end ++ [nl].
Definition nbsp_state : App :=
  MkApp false example_params
        (join_nl (header_lines example_params ++ [custom_logic]) ++ [nl])
        [] 0 (Some MOVEMENT_PY) {[ MOVEMENT_PY := nbsp_artifact ]}.

(** The same view over the artifact without parameter assignments in its
    header. *)
Definition clobber_state : App :=
  MkApp false example_params
        (join_nl (header_lines example_params ++ [custom_logic]) ++ [nl])
        [] 0 (Some MOVEMENT_PY) {[ MOVEMENT_PY := headless_artifact ]}.

(** ** Further vocabulary: documents with a generated header *)

(** The text of [_generate_simple_code] up to and including the last
    parameter line. *)
Definition header_text (p : params) : list N :=
  preamble ++ line_forward_speed p ++ line_backward_speed p
  ++ line_turn_speed p ++ line_obstacle_distance p ++ line_turn_cw p
  ++ line_turn_acw p ++ line_colour_detection p.

(** The widgets hold stale values over a generated header followed by logic
    that assigns the parameters again. *)
Definition reassigning_tail : list N :=
  logic_template ++ txt "        self.forward_speed = 1.5" ++ [nl]
  ++ txt "        self.colour_detection = " ++ [quote] ++ txt "Green" ++ [quote]
  ++ [nl].
Definition reassigning_state : App :=
  MkApp false (MkParams 1 1 10 10 0 0 Blue)
        (header_text example_params ++ reassigning_tail) [] 0 None ∅.

(** The Simple View shows the header of other values than the widgets hold,
    over custom logic. *)
Definition outdated_view_state : App :=
  MkApp false (MkParams 40 25 150 60 450 1800 Green)
        (header_text example_params ++ reassigning_tail) [] 0 None ∅.

(** The text of [_generate_simple_code] between the last parameter line and
    the logic: an empty line, the drop guide, an empty line, the line of
    [def control_loop] and the separator line, without its newline. *)
Definition separator_lines : list N :=
  [nl]
  ++ txt "    # vvv Drag and drop functions below vvv" ++ [nl]
  ++ [nl]
  ++ txt "    def control_loop(self):" ++ [nl]
  ++ txt "        # === Movement Logic ===".

(** The Simple View [_load_simple_view_from_movement_py] builds around a
    saved logic: the lines of the render up to the separator line, the logic
    and a final newline. *)
Definition rebuilt_view (p : params) (saved : list N) : list N :=
  header_text p ++ separator_lines ++ nl :: saved ++ [nl].

(** No file on disk, the Simple View holding a text of the user's. *)
Definition unsaved_state : App :=
  MkApp false example_params (txt "my notes") [] 0 None ∅.

(** The Full View holds [movement.py] with a logic typed between the
    markers, followed by three newlines. *)
Definition full_view_state : App :=
  MkApp false example_params []
        (sample_header ++ marker_start ++ (custom_logic ++ replicate 3 nl)
         ++ marker_end ++ [nl])
        1 (Some MOVEMENT_PY) {[ MOVEMENT_PY := sample_artifact ]}.


(** [dragMoveEvent]: [true] when the hover over block [hover_line] is
    accepted ([event.acceptProposedAction()]), [false] when it is ignored
    and the forbidden cursor shows. *)
Definition dragMoveEvent (text : list N) (hover_line : nat) : bool :=
  match logic_start_line text with
  | Some logic_line =>
      if bool_decide (hover_line ≤ logic_line)%nat then false else true
  | None => true
  end.


(** ** Opening a file in the Full View *)


Section FileTree.
(** The text of [f"# Error loading file: {e}"] for the file at [rel_path];
    it holds the message of the operating system. *)
Variable error_text : string -> list N.

End FileTree.


(** No artifact on disk, [movement.py] still named as the open file. *)
Definition orphan_state : App :=
  MkApp false example_params (generate_simple_code example_params) [] 0
        (Some MOVEMENT_PY) ∅.


(** ** The editors' texts as an invariant *)



(** * Properties of the string operations *)

Lemma is_prefix_spec (p s : list N) :
  is_prefix p s = true <-> exists r, s = p ++ r.
Proof.
  revert s. induction p as [|c p IH]; intros s; simpl.
  - split; eauto.
  - destruct s as [|c' s].
    + split; [discriminate | intros [r Hr]; discriminate].
    + rewrite andb_true_iff, N.eqb_eq, IH. split.
      * intros [-> [r ->]]. eauto.
      * intros [r Hr]. injection Hr as -> ->. eauto.
Qed.

Lemma is_prefix_app (p r : list N) : is_prefix p (p ++ r) = true.
Proof. apply is_prefix_spec. eauto. Qed.

Lemma occurs_at_0 (sub s : list N) :
  occurs_at sub s 0 <-> is_prefix sub s = true.
Proof.
  rewrite is_prefix_spec. split.
  - intros (a & b & -> & Ha). destruct a; [|discriminate]. eauto.
  - intros [r ->]. exists [], r. auto.
Qed.

Lemma occurs_at_S (sub : list N) c s i :
  occurs_at sub (c :: s) (S i) <-> occurs_at sub s i.
Proof.
  split.
  - intros (a & b & E & Ha). destruct a as [|c' a]; [discriminate|].
    simpl in E. injection E as -> ->. exists a, b.
    split; [done | simpl in Ha; lia].
  - intros (a & b & -> & Ha). exists (c :: a), b. simpl. split; auto.
Qed.

Lemma occurs_at_nil_S (sub : list N) i : ~ occurs_at sub [] (S i).
Proof. intros (a & b & E & Ha). destruct a; discriminate. Qed.

Lemma find_from_Some (sub s : list N) a k :
  find_from sub s a = Some k ->
  exists i, k = (a + i)%nat /\ occurs_at sub s i
            /\ forall j, (j < i)%nat -> ~ occurs_at sub s j.
Proof.
  revert a. induction s as [|c s IH]; intros a; simpl.
  - destruct (is_prefix sub []) eqn:E; [|discriminate].
    intros [= <-]. exists 0%nat. rewrite occurs_at_0. split; [lia|].
    split; [done|]. intros j Hj; lia.
  - destruct (is_prefix sub (c :: s)) eqn:E.
    + intros [= <-]. exists 0%nat. rewrite occurs_at_0. split; [lia|].
      split; [done|]. intros j Hj; lia.
    + intros H. apply IH in H as (i & -> & Hi & Hmin).
      exists (S i). split; [lia|]. split; [by apply occurs_at_S|].
      intros [|j] Hj.
      * rewrite occurs_at_0. congruence.
      * rewrite occurs_at_S. apply Hmin. lia.
Qed.

Lemma find_from_None (sub s : list N) a :
  find_from sub s a = None -> forall i, ~ occurs_at sub s i.
Proof.
  revert a. induction s as [|c s IH]; intros a; simpl.
  - destruct (is_prefix sub []) eqn:E; [discriminate|]. intros _ [|i].
    + rewrite occurs_at_0. congruence.
    + apply occurs_at_nil_S.
  - destruct (is_prefix sub (c :: s)) eqn:E; [discriminate|]. intros H [|i].
    + rewrite occurs_at_0. congruence.
    + rewrite occurs_at_S. by eapply IH.
Qed.

Lemma find_Some (sub s : list N) i :
  find sub s = Some i <->
  occurs_at sub s i /\ forall j, (j < i)%nat -> ~ occurs_at sub s j.
Proof.
  unfold find. split.
  - intros H. apply find_from_Some in H as (k & -> & H1 & H2). auto.
  - intros [H1 H2]. destruct (find_from sub s 0) as [k|] eqn:E.
    + apply find_from_Some in E as (k' & -> & H3 & H4). simpl.
      f_equal. destruct (lt_eq_lt_dec k' i) as [[Hlt|Heq]|Hgt]; auto.
      * exfalso. by apply (H2 k').
      * exfalso. by apply (H4 i).
    + exfalso. by eapply find_from_None.
Qed.

Lemma find_None (sub s : list N) :
  find sub s = None <-> ~ occurs sub s.
Proof.
  unfold find. split.
  - intros H [i Hi]. by eapply find_from_None.
  - intros H. destruct (find_from sub s 0) as [k|] eqn:E; auto.
    apply find_from_Some in E as (i & _ & Hi & _). exfalso. apply H. by exists i.
Qed.

Lemma contains_true (sub s : list N) : contains sub s = true <-> occurs sub s.
Proof.
  unfold contains. destruct (find sub s) as [i|] eqn:E.
  - apply find_Some in E as [E _]. split; [by exists i | done].
  - apply find_None in E. split; [discriminate | done].
Qed.

Lemma contains_false (sub s : list N) : contains sub s = false <-> ~ occurs sub s.
Proof.
  rewrite <- contains_true. destruct (contains sub s); split; try done.
  all: try (intros H; exfalso; by apply H).
Qed.

Lemma first_line_with_Some sub lines a k :
  first_line_with sub lines a = Some k ->
  exists B, k = (a + B)%nat /\ first_line_containing sub lines B.
Proof.
  revert a. induction lines as [|l ls IH]; intros a; simpl; [discriminate|].
  destruct (contains sub l) eqn:E.
  - intros [= <-]. exists 0%nat. split; [lia|]. split.
    + exists l. split; [done|]. by apply contains_true.
    + intros i l' Hi; lia.
  - intros H. apply IH in H as (B & -> & (l' & Hl' & Ho) & Hmin).
    exists (S B). split; [lia|]. split.
    + exists l'. auto.
    + intros [|i] l0 Hi Hl0; simpl in Hl0.
      * injection Hl0 as <-. by apply contains_false.
      * eapply Hmin; [|done]. lia.
Qed.

Lemma first_line_with_None sub lines a :
  first_line_with sub lines a = None <->
  forall l, l ∈ lines -> ~ occurs sub l.
Proof.
  revert a. induction lines as [|l ls IH]; intros a; simpl.
  - split; [|done]. intros _ l Hl. by apply elem_of_nil in Hl.
  - destruct (contains sub l) eqn:E.
    + split; [discriminate|]. intros H. exfalso.
      apply (H l); [left | by apply contains_true].
    + rewrite IH. split.
      * intros H l' Hl'. apply elem_of_cons in Hl' as [->|Hl'].
        -- by apply contains_false.
        -- by apply H.
      * intros H l' Hl'. apply H. by right.
Qed.

Lemma first_line_containing_unique sub lines B B' :
  first_line_containing sub lines B -> first_line_containing sub lines B' ->
  B = B'.
Proof.
  intros [(l & Hl & Ho) Hmin] [(l' & Hl' & Ho') Hmin'].
  destruct (lt_eq_lt_dec B B') as [[Hlt|Heq]|Hgt]; auto; exfalso.
  - by eapply Hmin'.
  - by eapply Hmin.
Qed.

Lemma first_line_with_spec sub lines B :
  first_line_with sub lines 0 = Some B <-> first_line_containing sub lines B.
Proof.
  split.
  - intros H. apply first_line_with_Some in H as (B' & -> & H). done.
  - intros H. destruct (first_line_with sub lines 0) as [k|] eqn:E.
    + apply first_line_with_Some in E as (B' & -> & H'). simpl. f_equal.
      by eapply first_line_containing_unique.
    + exfalso. destruct H as [(l & Hl & Ho) _].
      eapply first_line_with_None; [done| |done].
      by eapply list_elem_of_lookup_2.
Qed.

(** * The drop guard *)

Lemma dropEvent_false (text : list N) (t : nat) :
  dropEvent text t = false <->
  exists B, first_line_containing sentinel (split_nl text) B /\ (t <= B)%nat.
Proof.
  unfold dropEvent, logic_start_line.
  destruct (first_line_with sentinel (split_nl text) 0) as [B|] eqn:E.
  - apply first_line_with_spec in E. case_bool_decide as Hle; split; try done.
    + intros _. eauto.
    + intros (B' & HB' & Hle'). exfalso. apply Hle.
      by rewrite (first_line_containing_unique _ _ _ _ E HB').
  - split; [done|]. intros (B & HB & _).
    apply first_line_with_spec in HB. congruence.
Qed.

(** C7, as stated, fails: a text with no sentinel line, where the claim has
    every insertion rejected, and [dropEvent] hands the drop at line 0 to the
    base editor. *)
Lemma dropEvent_without_sentinel_accepts :
  (forall l, l ∈ split_nl (txt "x = 1") -> ~ occurs sentinel l)
  /\ dropEvent (txt "x = 1") 0 = true.
Proof.
  split; [|reflexivity].
  apply (first_line_with_None sentinel _ 0%nat). reflexivity.
Qed.

(** C7, amended: a drop resolved to line [t] is rejected exactly when a first
    line [B] containing the sentinel [def control_loop] exists and [t <= B];
    when no line contains the sentinel every drop is accepted. *)
Theorem dropEvent_guard (text : list N) (t : nat) :
  (dropEvent text t = false <->
   exists B, first_line_containing sentinel (split_nl text) B /\ (t <= B)%nat)
  /\ ((forall l, l ∈ split_nl text -> ~ occurs sentinel l) ->
      dropEvent text t = true).
Proof.
  split; [apply dropEvent_false|].
  intros H. destruct (dropEvent text t) eqn:E; [done|]. exfalso.
  apply dropEvent_false in E as (B & [(l & Hl & Ho) _] & _).
  apply (H l); [|done]. by eapply list_elem_of_lookup_2.
Qed.

(** The generated document has its sentinel on line 16 (counting from 0):
    drops on lines 0..16 are ignored, later ones accepted. *)
Lemma dropEvent_generated (t : nat) :
  dropEvent (generate_simple_code (MkParams 30 30 100 50 900 900 Red)) t
  = negb (bool_decide (t <= 16)%nat).
Proof.
  unfold dropEvent.
  replace (logic_start_line _) with (Some 16%nat) by (vm_compute; reflexivity).
  by case_bool_decide.
Qed.

(** * Blank lines and the logic extractor *)

Lemma lstrip_nil (s : list N) : lstrip s = [] <-> blank_line s.
Proof.
  unfold blank_line. induction s as [|c s IH]; simpl.
  - split; [constructor | done].
  - destruct (is_space c) eqn:E.
    + rewrite IH. split; [by constructor | by inversion 1].
    + split; [done|]. inversion 1; congruence.
Qed.

Lemma lstrip_head (s : list N) c r : lstrip s = c :: r -> is_space c = false.
Proof.
  induction s as [|c' s IH]; simpl; [done|].
  destruct (is_space c') eqn:E; [done|]. by intros [= <- <-].
Qed.

Lemma blank_spec (s : list N) : blank s = true <-> blank_line s.
Proof.
  unfold blank, strip. split.
  - intros H. destruct (rev (lstrip (rev (lstrip s)))) as [|c r] eqn:E; [|done].
    apply (f_equal (@rev N)) in E. rewrite rev_involutive in E. simpl in E.
    apply lstrip_nil in E. unfold blank_line in E.
    apply Forall_rev in E. rewrite rev_involutive in E.
    destruct (lstrip s) as [|c r] eqn:E2; [by apply lstrip_nil|].
    apply lstrip_head in E2. inversion E; congruence.
  - intros H. apply lstrip_nil in H. by rewrite H.
Qed.

Lemma drop_blank_nil (ls : list (list N)) :
  drop_blank ls = [] <-> Forall blank_line ls.
Proof.
  induction ls as [|l ls IH]; simpl.
  - split; [constructor | done].
  - destruct (blank l) eqn:E.
    + apply blank_spec in E. rewrite IH. split; [by constructor | by inversion 1].
    + split; [done|]. inversion 1 as [|? ? Hb]. apply blank_spec in Hb. congruence.
Qed.

Lemma extract_simple_view_logic_None (view : list N) :
  (forall l, l ∈ split_nl view -> ~ occurs separator l)
  \/ (exists B, first_line_containing separator (split_nl view) B
        /\ forall l, l ∈ drop (S B) (split_nl view) -> blank_line l) ->
  extract_simple_view_logic view = None.
Proof.
  unfold extract_simple_view_logic. intros [H|(B & HB & Hblank)].
  - apply (first_line_with_None _ _ 0%nat) in H. by rewrite H.
  - apply first_line_with_spec in HB. rewrite HB.
    assert (drop_blank (rev (drop (S B) (split_nl view))) = []) as ->; [|done].
    apply drop_blank_nil, Forall_rev, Forall_forall. done.
Qed.

(** C9: when no line of the Simple View contains the separator
    [# === Movement Logic ===], or every line after the first separator line
    is blank, [_extract_simple_view_logic] returns [None] and
    [_write_simple_logic_to_movement_py] returns without touching the
    state: the file on disk, and the logic between its markers, stay as
    they were. *)
Theorem empty_logic_keeps_artifact (s : App) :
  (forall l, l ∈ split_nl (simple_editor s) -> ~ occurs separator l)
  \/ (exists B, first_line_containing separator (split_nl (simple_editor s)) B
        /\ forall l, l ∈ drop (S B) (split_nl (simple_editor s)) -> blank_line l) ->
  extract_simple_view_logic (simple_editor s) = None
  /\ write_simple_logic_to_movement_py s = (Ret tt, s).
Proof.
  intros H. apply extract_simple_view_logic_None in H. split; [done|].
  unfold write_simple_logic_to_movement_py, mbind, M_bind, gets. by rewrite H.
Qed.

Lemma empty_logic_keeps_artifact_witness :
  extract_simple_view_logic (simple_editor headless_state) = None
  /\ write_simple_logic_to_movement_py headless_state = (Ret tt, headless_state).
Proof.
  apply (empty_logic_keeps_artifact headless_state).
  right. exists 0%nat. split.
  - split.
    + exists separator. split; [reflexivity|]. exists 0%nat, [], []. done.
    + intros i l Hi. lia.
  - intros l Hl. vm_compute in Hl. apply list_elem_of_singleton in Hl as ->.
    constructor.
Defined.

(** * The reentrancy flag *)

Lemma try_finally_resets {A} (body : M A) (s : App) :
  syncing (snd (try_finally body (modify (set_syncing false)) s)) = false.
Proof. unfold try_finally, modify. by destruct (body s) as [o s1]. Qed.

Lemma guarded_resets {A} (body : M A) (s : App) :
  syncing (snd ((modify (set_syncing true);;
                 try_finally body (modify (set_syncing false))) s)) = false.
Proof. unfold mbind, M_bind, modify. simpl. apply try_finally_resets. Qed.

Lemma on_simple_code_changed_resets setValue (s : App) :
  syncing s = false -> syncing (snd (on_simple_code_changed setValue s)) = false.
Proof.
  intros H. unfold on_simple_code_changed.
  unfold mbind at 1. unfold M_bind at 1. unfold gets at 1. rewrite H.
  apply guarded_resets.
Qed.

Lemma sync_simple_view_from_spinboxes_resets (s : App) :
  syncing s = false -> syncing (snd (sync_simple_view_from_spinboxes s)) = false.
Proof.
  intros H. unfold sync_simple_view_from_spinboxes.
  unfold mbind at 1. unfold M_bind at 1. unfold gets at 1. rewrite H.
  apply guarded_resets.
Qed.

Lemma load_simple_view_from_movement_py_resets (s : App) :
  syncing s = false -> syncing (snd (load_simple_view_from_movement_py s)) = false.
Proof.
  intros H. unfold load_simple_view_from_movement_py.
  unfold mbind at 1. unfold M_bind at 1. unfold gets at 1.
  destruct (disk s !! MOVEMENT_PY) as [code|].
  - destruct (re_search markers_re code) as [m|].
    + unfold mbind at 1. unfold M_bind at 1. unfold gets at 1.
      apply guarded_resets.
    + apply guarded_resets.
  - unfold mbind at 1. unfold M_bind at 1. unfold gets at 1.
    destruct (blank (simple_editor s)); [apply guarded_resets | done].
Qed.

(** C10: whatever the body of a [try ... finally: self._syncing = False]
    does, return or raise, the flag is [False] afterwards; and each of the
    three operations that set the flag, entered with the flag [False], leaves
    it [False], also when it raises. *)
Theorem syncing_is_reset setValue (s : App) :
  syncing s = false ->
  (forall (body : M unit) s0,
      syncing (snd (try_finally body (modify (set_syncing false)) s0)) = false)
  /\ syncing (snd (on_simple_code_changed setValue s)) = false
  /\ syncing (snd (sync_simple_view_from_spinboxes s)) = false
  /\ syncing (snd (load_simple_view_from_movement_py s)) = false.
Proof.
  intros H. split; [intros; apply try_finally_resets|].
  auto using on_simple_code_changed_resets,
    sync_simple_view_from_spinboxes_resets,
    load_simple_view_from_movement_py_resets.
Qed.

(** The flag is reset on a state where the extraction raises. *)
Lemma syncing_is_reset_witness :
  let s := MkApp false example_params unparseable_view [] 0 None ∅ in
  fst (on_simple_code_changed qt_setValue s) = Raise ValueError
  /\ syncing (snd (on_simple_code_changed qt_setValue s)) = false
  /\ syncing (snd (sync_simple_view_from_spinboxes s)) = false
  /\ syncing (snd (load_simple_view_from_movement_py s)) = false.
Proof.
  intros s. split; [vm_compute; reflexivity|].
  apply (syncing_is_reset qt_setValue s). reflexivity.
Defined.

(** * The parameter extractor *)

(** C8 on the code: with [self.forward_speed = 1.2.3] in the Simple View,
    [float] raises [ValueError], which leaves [_on_simple_code_changed]; the
    later [self.backward_speed = 0.50] is never read, and no widget
    changes. *)
Theorem extraction_raises_on_unparseable setValue (p : params)
        (full : list N) (i : nat) (f : option string) (d : gmap string (list N)) :
  on_simple_code_changed setValue (MkApp false p unparseable_view full i f d)
  = (Raise ValueError, MkApp false p unparseable_view full i f d).
Proof. vm_compute. reflexivity. Qed.


(** A colour outside the four items of the combo box is ignored. *)
Lemma extraction_ignores_unknown_colour setValue (p : params) :
  let view := txt "self.colour_detection = " ++ [quote] ++ txt "Purple" ++ [quote] in
  on_simple_code_changed setValue (MkApp false p view [] 0 None ∅)
  = (Ret tt, MkApp false p view [] 0 None ∅).
Proof. vm_compute. reflexivity. Qed.

(** * The matcher on the patterns of the source *)

Lemma run_skip k s : run k s ++ skip k s = s.
Proof. induction s as [|c s IH]; simpl; [done|]. destruct (in_class k c); simpl; [by rewrite IH | done]. Qed.

Lemma run_all_in k s : all_in k (run k s).
Proof. induction s as [|c s IH]; simpl; [constructor|]. destruct (in_class k c) eqn:E; by constructor. Qed.

Lemma skip_stops k s : stops k (skip k s).
Proof. induction s as [|c s IH]; simpl; [done|]. destruct (in_class k c) eqn:E; done. Qed.

Lemma run_app k w r : all_in k w -> stops k r -> run k (w ++ r) = w.
Proof.
  induction 1 as [|c w Hc Hw IH]; intros Hr; simpl.
  - destruct r as [|c r]; simpl in *; [done | by rewrite Hr].
  - rewrite Hc. f_equal. auto.
Qed.

Lemma skip_app k w r : all_in k w -> stops k r -> skip k (w ++ r) = r.
Proof.
  induction 1 as [|c w Hc Hw IH]; intros Hr; simpl.
  - destruct r as [|c r]; simpl in *; [done | by rewrite Hr].
  - rewrite Hc. auto.
Qed.

Section M.
Context {R : Type}.
Implicit Types cont : list N -> nat -> option R.

Lemma m_star_max k cont s n r :
  cont (skip k s) (n + length (run k s))%nat = Some r ->
  m_star k cont s n = Some r.
Proof.
  revert n. induction s as [|c s IH]; intros n; simpl.
  - by rewrite Nat.add_0_r.
  - destruct (in_class k c); simpl.
    + rewrite <- Nat.add_succ_comm. intros H. by rewrite (IH _ H).
    + by rewrite Nat.add_0_r.
Qed.

Lemma m_star_det k cont s n :
  (forall c s' n', in_class k c = true -> cont (c :: s') n' = None) ->
  m_star k cont s n = cont (skip k s) (n + length (run k s))%nat.
Proof.
  intros Hc. revert n. induction s as [|c s IH]; intros n; simpl.
  - by rewrite Nat.add_0_r.
  - destruct (in_class k c) eqn:E; simpl.
    + rewrite IH, <- Nat.add_succ_comm.
      destruct (cont (skip k s) (S n + length (run k s))%nat) eqn:E2; [done|].
      by apply Hc.
    + by rewrite Nat.add_0_r.
Qed.

Lemma m_star_ext k cont1 cont2 s n :
  (forall s n, cont1 s n = cont2 s n) ->
  m_star k cont1 s n = m_star k cont2 s n.
Proof.
  intros H. revert n. induction s as [|c s IH]; intros n; simpl; [done|].
  destruct (in_class k c); [|done]. by rewrite IH, H.
Qed.

Lemma m_lazy_ext k cont1 cont2 s n :
  (forall s n, cont1 s n = cont2 s n) ->
  m_lazy k cont1 s n = m_lazy k cont2 s n.
Proof.
  intros H. revert n. induction s as [|c s IH]; intros n; simpl; rewrite H; [done|].
  destruct (cont2 (c :: s) n); [done|]. destruct (in_class k c); [|done]. by rewrite IH.
Qed.

Lemma m_items_ext its cont1 cont2 s n :
  (forall s n, cont1 s n = cont2 s n) ->
  m_items its cont1 s n = m_items its cont2 s n.
Proof.
  intros H. revert s n. induction its as [|i its IH]; intros s n; simpl; [done|].
  destruct i.
  - destruct s as [|c' s]; [done|]. destruct (c =? c'); [apply IH | done].
  - apply m_star_ext, IH.
  - destruct s as [|c' s]; [done|]. destruct (in_class k c'); [|done].
    apply m_star_ext, IH.
  - apply m_lazy_ext, IH.
Qed.

Lemma m_items_app its1 its2 cont s n :
  m_items (its1 ++ its2) cont s n = m_items its1 (m_items its2 cont) s n.
Proof.
  revert s n. induction its1 as [|i its1 IH]; intros s n; simpl; [done|].
  destruct i.
  - destruct s as [|c' s]; [done|]. destruct (c =? c'); [apply IH | done].
  - apply m_star_ext, IH.
  - destruct s as [|c' s]; [done|]. destruct (in_class k c'); [|done].
    apply m_star_ext, IH.
  - apply m_lazy_ext, IH.
Qed.

Lemma m_items_lit l cont s n :
  m_items (lit l) cont s n =
  if is_prefix l s then cont (drop (length l) s) (n + length l)%nat else None.
Proof.
  revert s n. induction l as [|c l IH]; intros s n; simpl.
  - by rewrite Nat.add_0_r.
  - destruct s as [|c' s]; [done|]. destruct (c =? c'); simpl; [|done].
    by rewrite IH, <- Nat.add_succ_comm.
Qed.
End M.

Lemma equals_not_space c : is_space c = true -> (equals =? c) = false.
Proof. intros H. apply N.eqb_neq. intros <-. by vm_compute in H. Qed.

Lemma is_prefix_drop (p r : list N) : drop (length p) (p ++ r) = r.
Proof. by rewrite drop_app_length. Qed.

Section Assign.
Context {R : Type}.
Implicit Types cont : list N -> nat -> option R.

Lemma m_items_assign name cont s n :
  (forall c s' n', is_space c = true -> cont (c :: s') n' = None) ->
  m_items (assign name) cont s n =
  if is_prefix (self_ name) s then
    let s1 := drop (length (self_ name)) s in
    match skip CSpace s1 with
    | c :: s3 =>
        if equals =? c then
          cont (skip CSpace s3)
               (n + length (self_ name) + length (run CSpace s1) + 1
                + length (run CSpace s3))%nat
        else None
    | [] => None
    end
  else None.
Proof.
  intros Hc. unfold assign. rewrite m_items_app, m_items_lit.
  fold (self_ name). destruct (is_prefix (self_ name) s); [|done].
  cbn [m_items]. rewrite m_star_det.
  - destruct (skip CSpace _) as [|c s3]; [done|].
    destruct (equals =? c); [|done].
    rewrite m_star_det by done. f_equal. lia.
  - intros c s' n' Hs. by rewrite equals_not_space.
Qed.
End Assign.


Lemma forallb_below (f : N -> bool) (n : nat) :
  forallb f (List.map N.of_nat (seq 0 n)) = true ->
  forall c, c < N.of_nat n -> f c = true.
Proof.
  intros H c Hc. rewrite forallb_forall in H. apply H.
  apply in_map_iff. exists (N.to_nat c). split; [lia|]. apply in_seq. lia.
Qed.

Lemma is_space_bound c : is_space c = true -> c < N.of_nat (N.to_nat 12289).
Proof.
  unfold is_space. intros H.
  repeat (apply orb_true_iff in H as [H|H]);
    repeat match goal with
           | H : _ && _ = true |- _ => apply andb_true_iff in H as [? ?]
           | H : (_ <=? _) = true |- _ => apply N.leb_le in H
           | H : (_ =? _) = true |- _ => apply N.eqb_eq in H
           end; lia.
Qed.

Lemma space_not_digdot c : is_space c = true -> in_class CDigitDot c = false.
Proof.
  intros H. pose proof (is_space_bound c H) as Hb.
  assert (negb (is_space c) || negb (in_class CDigitDot c) = true) as Hx.
  { clear H. revert c Hb. apply (forallb_below _ (N.to_nat 12289)). vm_compute. reflexivity. }
  rewrite H in Hx. simpl in Hx. by apply negb_true_iff in Hx.
Qed.

Ltac list_len :=
  repeat (rewrite length_app || rewrite length_cons || rewrite length_nil);
  try lia; try (simpl (length _); lia).

Lemma digdot_not_space c : in_class CDigitDot c = true -> is_space c = false.
Proof.
  intros H. destruct (is_space c) eqn:E; [|done].
  apply space_not_digdot in E. congruence.
Qed.

Lemma is_prefix_split (p s : list N) :
  is_prefix p s = true -> s = p ++ drop (length p) s.
Proof.
  intros H. apply is_prefix_spec in H as [r ->]. by rewrite drop_app_length.
Qed.

Section AssignSome.
Context {R : Type}.
Implicit Types cont : list N -> nat -> option R.

Lemma m_items_assign_Some name cont s n r :
  (forall c s' n', is_space c = true -> cont (c :: s') n' = None) ->
  m_items (assign name) cont s n = Some r <->
  exists w1 w2 s',
    s = self_ name ++ w1 ++ equals :: w2 ++ s'
    /\ all_in CSpace w1 /\ all_in CSpace w2 /\ stops CSpace s'
    /\ cont s' (n + length (self_ name ++ w1 ++ equals :: w2))%nat = Some r.
Proof.
  intros Hc. rewrite m_items_assign by done. split.
  - destruct (is_prefix (self_ name) s) eqn:E; [|done].
    apply is_prefix_split in E. cbv zeta.
    set (s1 := drop (length (self_ name)) s) in *.
    destruct (skip CSpace s1) as [|c s3] eqn:E1; [done|].
    destruct (equals =? c) eqn:E2; [|done]. apply N.eqb_eq in E2 as <-.
    intros H. exists (run CSpace s1), (run CSpace s3), (skip CSpace s3).
    split; [|split; [apply run_all_in | split; [apply run_all_in | split; [apply skip_stops|]]]].
    + rewrite E at 1. f_equal. rewrite <- (run_skip CSpace s1) at 1. f_equal.
      rewrite E1. f_equal. by rewrite run_skip.
    + rewrite <- H. f_equal. list_len.
  - intros (w1 & w2 & s' & -> & H1 & H2 & H3 & H4).
    rewrite is_prefix_app, drop_app_length. cbv zeta.
    rewrite skip_app by done. rewrite N.eqb_refl, skip_app by done.
    rewrite run_app by done. rewrite run_app by done.
    rewrite <- H4. f_equal. list_len.
Qed.
End AssignSome.

Lemma plus_digdot_Some {R} (f : nat -> R) s n r :
  m_items [Plus CDigitDot] (fun _ n3 => Some (f n3)) s n = Some r <->
  exists D T, s = D ++ T /\ all_in CDigitDot D /\ D <> [] /\ stops CDigitDot T
              /\ r = f (n + length D)%nat.
Proof.
  cbn [m_items]. split.
  - destruct s as [|d s5]; [done|]. destruct (in_class CDigitDot d) eqn:E; [|done].
    rewrite (m_star_max _ _ _ _ (f (S n + length (run CDigitDot s5))%nat)) by done.
    intros [= <-]. exists (d :: run CDigitDot s5), (skip CDigitDot s5).
    split; [simpl; by rewrite run_skip|].
    split; [constructor; [done | apply run_all_in]|].
    split; [done|]. split; [apply skip_stops|]. simpl. f_equal. lia.
  - intros (D & T & -> & HD & Hne & HT & ->). destruct D as [|d D]; [done|].
    inversion HD as [|? ? Hd HD']; subst. cbn [app]. rewrite Hd.
    apply m_star_max. cbv beta. rewrite run_app by done. f_equal. f_equal. simpl. lia.
Qed.

Lemma replace_num_iff name s a g e :
  match_at (replace_num name) s = Some (a, g, e) <->
  a = 0%nat /\ num_shape name s g e.
Proof.
  unfold match_at, replace_num, num_shape. cbn [re_pre re_grp re_post m_items].
  rewrite m_items_assign_Some.
  - split.
    + intros (w1 & w2 & s' & -> & H1 & H2 & H3 & H4).
      apply (plus_digdot_Some (fun n3 => (0%nat, _, n3))) in H4
        as (D & T & -> & HD & Hne & HT & [= -> -> ->]).
      split; [done|]. exists w1, w2, D, T. done.
    + intros [-> (w1 & w2 & D & T & -> & H1 & H2 & HD & Hne & HT & -> & ->)].
      exists w1, w2, (D ++ T). split; [done|]. split; [done|]. split; [done|].
      split.
      { destruct D as [|d D]; [done|]. inversion HD; subst. simpl.
        by apply digdot_not_space. }
      apply (plus_digdot_Some (fun n3 => (0%nat, _, n3))).
      exists D, T. done.
  - intros c s' n' Hs. cbn [m_items]. by rewrite (space_not_digdot c).
Qed.

Lemma extract_num_iff name s a b c :
  match_at (extract_num name) s = Some (a, b, c) <->
  num_shape name s a b /\ c = b.
Proof.
  unfold match_at, extract_num, num_shape. cbn [re_pre re_grp re_post].
  rewrite m_items_assign_Some.
  - split.
    + intros (w1 & w2 & s' & -> & H1 & H2 & H3 & H4). simpl in H4.
      apply (plus_digdot_Some (fun n3 => (_, n3, n3))) in H4
        as (D & T & -> & HD & Hne & HT & [= -> -> ->]).
      split; [|done]. exists w1, w2, D, T. done.
    + intros [(w1 & w2 & D & T & -> & H1 & H2 & HD & Hne & HT & -> & ->) ->].
      exists w1, w2, (D ++ T). split; [done|]. split; [done|]. split; [done|].
      split.
      { destruct D as [|d D]; [done|]. inversion HD; subst. simpl.
        by apply digdot_not_space. }
      apply (plus_digdot_Some (fun n3 => (_, n3, n3))).
      exists D, T. done.
  - intros c0 s' n' Hs. cbn [m_items]. by rewrite (space_not_digdot c0).
Qed.

Lemma quote_not_space c : is_space c = true -> (quote =? c) = false.
Proof. intros H. apply N.eqb_neq. intros <-. by vm_compute in H. Qed.

Lemma notquote_head c : in_class CNotQuote c = true -> (quote =? c) = false.
Proof. unfold in_class. intros H. apply N.eqb_neq. intros <-. by rewrite N.eqb_refl in H. Qed.

Lemma notquote_quote : in_class CNotQuote quote = false.
Proof. reflexivity. Qed.

(** After the opening quote: a quote-free text and the closing quote. *)
Lemma quoted_tail_Some {R} (f : nat -> R) s n r :
  m_items [Star CNotQuote; Chr quote] (fun _ n3 => Some (f n3)) s n = Some r <->
  exists C T, s = C ++ quote :: T /\ all_in CNotQuote C
              /\ r = f (S (n + length C)).
Proof.
  cbn [m_items]. rewrite m_star_det.
  2:{ intros c s' n' Hc. by rewrite notquote_head. }
  split.
  - destruct (skip CNotQuote s) as [|c T] eqn:E; [done|].
    destruct (quote =? c) eqn:E2; [|done]. apply N.eqb_eq in E2 as <-.
    intros [= <-]. exists (run CNotQuote s), T.
    split; [by rewrite <- E, run_skip|]. split; [apply run_all_in | done].
  - intros (C & T & -> & HC & ->).
    rewrite skip_app, run_app by done. by rewrite N.eqb_refl.
Qed.

Lemma replace_colour_iff s a g e :
  match_at replace_colour s = Some (a, g, e) <->
  a = 0%nat /\ colour_shape s g e.
Proof.
  unfold match_at, replace_colour, colour_shape. cbn [re_pre re_grp re_post].
  cbn [m_items]. rewrite m_items_app, m_items_assign_Some.
  2:{ intros c s' n' Hs. cbn [m_items]. by rewrite quote_not_space. }
  split.
  - intros (w1 & w2 & s' & -> & H1 & H2 & H3 & H4).
    cbn [m_items] in H4. destruct s' as [|c s2]; [done|].
    destruct (quote =? c) eqn:E; [|done]. apply N.eqb_eq in E as <-.
    apply (quoted_tail_Some (fun n3 => (0%nat, _, n3))) in H4
      as (C & T & -> & HC & [= -> -> ->]).
    split; [done|]. exists w1, w2, C, T.
    split; [done|]. split; [done|]. split; [done|]. split; [done|].
    split; list_len.
  - intros [-> (w1 & w2 & C & T & -> & H1 & H2 & HC & -> & ->)].
    exists w1, w2, (quote :: C ++ quote :: T).
    split; [done|]. split; [done|]. split; [done|]. split; [done|].
    cbn [m_items]. rewrite N.eqb_refl.
    apply (quoted_tail_Some (fun n3 => (0%nat, _, n3))).
    exists C, T. split; [done|]. split; [done|]. f_equal; [f_equal|]; list_len.
Qed.

Lemma extract_colour_iff s a b c :
  match_at extract_colour s = Some (a, b, c) <->
  colour_shape s a c /\ c = S b /\ (a < b)%nat.
Proof.
  unfold match_at, extract_colour, colour_shape. cbn [re_pre re_grp re_post].
  rewrite m_items_app, m_items_assign_Some.
  2:{ intros c0 s' n' Hs. cbn [m_items]. by rewrite quote_not_space. }
  split.
  - intros (w1 & w2 & s' & -> & H1 & H2 & H3 & H4).
    cbn [m_items] in H4. destruct s' as [|q s2]; [done|].
    destruct (quote =? q) eqn:E; [|done]. apply N.eqb_eq in E as <-.
    destruct s2 as [|c1 s3]; [done|].
    destruct (in_class CNotQuote c1) eqn:E1; [|done].
    rewrite m_star_det in H4.
    2:{ intros c0 s' n' Hc. by rewrite notquote_head. }
    destruct (skip CNotQuote s3) as [|q T] eqn:E2; [done|].
    destruct (quote =? q) eqn:E3; [|done]. apply N.eqb_eq in E3 as <-.
    injection H4 as <- <- <-.
    split; [|split; [done | list_len]].
    exists w1, w2, (c1 :: run CNotQuote s3), T.
    split; [rewrite <- E2; cbn [app]; by rewrite run_skip|].
    split; [done|]. split; [done|].
    split; [constructor; [done | apply run_all_in]|].
    split; list_len.
  - intros [(w1 & w2 & C & T & -> & H1 & H2 & HC & -> & ->) [Hc Hlt]].
    assert (b = (length (self_ "colour_detection" ++ w1 ++ equals :: w2 ++ [quote])
                 + length C)%nat) as -> by lia.
    clear Hc. exists w1, w2, (quote :: C ++ quote :: T).
    split; [done|]. split; [done|]. split; [done|]. split; [done|].
    cbn [m_items]. rewrite N.eqb_refl.
    destruct C as [|c1 C]; [simpl in Hlt; lia|].
    inversion HC as [|? ? Hc1 HC']; subst. cbn [app]. rewrite Hc1.
    rewrite m_star_det.
    2:{ intros c0 s' n' Hc. by rewrite notquote_head. }
    rewrite skip_app, run_app by done. rewrite N.eqb_refl.
    f_equal. f_equal; [f_equal|]; list_len.
Qed.

Section Inv.
Context {R : Type}.
Implicit Types cont : list N -> nat -> option R.

Lemma m_star_inv k cont s n r :
  m_star k cont s n = Some r ->
  exists i, (i <= length s)%nat /\ cont (drop i s) (n + i)%nat = Some r.
Proof.
  revert n. induction s as [|c s IH]; intros n; simpl.
  - intros H. exists 0%nat. by rewrite Nat.add_0_r.
  - assert (cont (c :: s) n = Some r ->
            exists i, (i <= S (length s))%nat
                      /\ cont (drop i (c :: s)) (n + i)%nat = Some r) as H0.
    { intros H. exists 0%nat. rewrite Nat.add_0_r. split; [lia | done]. }
    destruct (in_class k c); [|done].
    destruct (m_star k cont s (S n)) as [r'|] eqn:E; [|done].
    intros [= ->]. apply IH in E as (i & Hi & E). exists (S i).
    split; [lia|]. simpl. by rewrite <- Nat.add_succ_comm.
Qed.

Lemma m_lazy_inv k cont s n r :
  m_lazy k cont s n = Some r ->
  exists i, (i <= length s)%nat /\ cont (drop i s) (n + i)%nat = Some r.
Proof.
  revert n. induction s as [|c s IH]; intros n; simpl.
  - destruct (cont [] n) eqn:E; [|done]. intros [= ->].
    exists 0%nat. by rewrite Nat.add_0_r.
  - destruct (cont (c :: s) n) eqn:E.
    + intros [= ->]. exists 0%nat. rewrite Nat.add_0_r. split; [lia | done].
    + destruct (in_class k c); [|done]. intros H.
      apply IH in H as (i & Hi & H). exists (S i).
      split; [lia|]. simpl. by rewrite <- Nat.add_succ_comm.
Qed.

Lemma m_items_inv its cont s n r :
  m_items its cont s n = Some r ->
  exists i, (i <= length s)%nat /\ cont (drop i s) (n + i)%nat = Some r.
Proof.
  revert s n. induction its as [|it its IH]; intros s n; simpl.
  - intros H. exists 0%nat. rewrite Nat.add_0_r. split; [lia | done].
  - destruct it.
    + destruct s as [|c' s]; [done|]. destruct (c =? c'); [|done].
      intros H. apply IH in H as (i & Hi & H). exists (S i).
      split; [simpl; lia|]. simpl. by rewrite <- Nat.add_succ_comm.
    + intros H. apply m_star_inv in H as (i & Hi & H).
      apply IH in H as (i' & Hi' & H). exists (i + i')%nat.
      rewrite length_drop in Hi'. split; [lia|].
      rewrite drop_drop in H. by rewrite Nat.add_assoc.
    + destruct s as [|c' s]; [done|]. destruct (in_class k c'); [|done].
      intros H. apply m_star_inv in H as (i & Hi & H).
      apply IH in H as (i' & Hi' & H). exists (S (i + i')).
      rewrite length_drop in Hi'. split; [simpl; lia|].
      rewrite drop_drop in H. simpl. rewrite <- H. f_equal. lia.
    + intros H. apply m_lazy_inv in H as (i & Hi & H).
      apply IH in H as (i' & Hi' & H). exists (i + i')%nat.
      rewrite length_drop in Hi'. split; [lia|].
      rewrite drop_drop in H. by rewrite Nat.add_assoc.
Qed.
End Inv.

Lemma match_at_bounds p s n1 n2 n3 :
  match_at p s = Some (n1, n2, n3) ->
  (n1 <= n2 /\ n2 <= n3 /\ n3 <= length s)%nat.
Proof.
  unfold match_at. intros H.
  apply m_items_inv in H as (i1 & Hi1 & H).
  apply m_items_inv in H as (i2 & Hi2 & H).
  apply m_items_inv in H as (i3 & Hi3 & H).
  injection H as <- <- <-. rewrite !length_drop in *. lia.
Qed.

Lemma match_at_pre_nil p s n1 n2 n3 :
  re_pre p = [] -> match_at p s = Some (n1, n2, n3) -> n1 = 0%nat.
Proof.
  unfold match_at. intros ->. cbn [m_items]. intros H.
  apply m_items_inv in H as (i2 & Hi2 & H).
  apply m_items_inv in H as (i3 & Hi3 & H). by injection H as <- <- <-.
Qed.

Lemma search_from_Some p s a m :
  search_from p s a = Some m ->
  exists i n1 n2 n3,
    m = Mtch (a + i) (a + i + n1) (a + i + n2) (a + i + n3)
    /\ (i <= length s)%nat
    /\ match_at p (drop i s) = Some (n1, n2, n3)
    /\ forall j, (j < i)%nat -> match_at p (drop j s) = None.
Proof.
  revert a. induction s as [|c s IH]; intros a; simpl.
  - destruct (match_at p []) as [[[n1 n2] n3]|] eqn:E; [|done].
    intros [= <-]. exists 0%nat, n1, n2, n3. rewrite Nat.add_0_r.
    split; [done|]. split; [done|]. split; [done|]. intros j Hj; lia.
  - destruct (match_at p (c :: s)) as [[[n1 n2] n3]|] eqn:E.
    + intros [= <-]. exists 0%nat, n1, n2, n3. rewrite Nat.add_0_r.
      split; [done|]. split; [lia|]. split; [done|]. intros j Hj; lia.
    + intros H. apply IH in H as (i & n1 & n2 & n3 & -> & Hi & Hm & Hmin).
      exists (S i), n1, n2, n3. rewrite <- !Nat.add_succ_comm.
      split; [done|]. split; [lia|]. split; [done|].
      intros [|j] Hj; [done|]. apply Hmin. lia.
Qed.

Lemma search_from_None p s a : search_from p s a = None -> no_match p s.
Proof.
  revert a. induction s as [|c s IH]; intros a; simpl.
  - destruct (match_at p []) as [[[n1 n2] n3]|] eqn:E; [done|].
    intros _ j. by rewrite drop_nil.
  - destruct (match_at p (c :: s)) as [[[n1 n2] n3]|] eqn:E; [done|].
    intros H [|j]; [done|]. simpl. by eapply IH.
Qed.

Lemma re_search_intro p t i n1 n2 n3 :
  match_at p (drop i t) = Some (n1, n2, n3) ->
  (i <= length t)%nat ->
  (forall j, (j < i)%nat -> match_at p (drop j t) = None) ->
  re_search p t = Some (Mtch i (i + n1) (i + n2) (i + n3)).
Proof.
  intros Hm Hi Hmin. unfold re_search.
  destruct (search_from p t 0) as [m|] eqn:E.
  - apply search_from_Some in E as (i' & m1 & m2 & m3 & -> & Hi' & Hm' & Hmin').
    simpl. destruct (lt_eq_lt_dec i i') as [[Hlt|Heq]|Hgt].
    + rewrite Hmin' in Hm by done. done.
    + subst i'. rewrite Hm in Hm'. by injection Hm' as <- <- <-.
    + rewrite Hmin in Hm' by done. done.
  - apply search_from_None in E. by rewrite E in Hm.
Qed.

Lemma re_search_None p t : re_search p t = None <-> no_match p t.
Proof.
  split; [apply search_from_None|]. intros H. unfold re_search.
  destruct (search_from p t 0) as [m|] eqn:E; [|done].
  apply search_from_Some in E as (i & n1 & n2 & n3 & _ & _ & Hm & _).
  by rewrite H in Hm.
Qed.

(** The leftmost match of a pattern that opens with its group. *)
Lemma re_search_first p t m :
  re_pre p = [] -> re_search p t = Some m ->
  exists A G V R,
    first_match p t A G V R
    /\ m = Mtch (length A) (length A) (length (A ++ G)) (length (A ++ G ++ V)).
Proof.
  intros Hp H. apply search_from_Some in H as (i & n1 & n2 & n3 & -> & Hi & Hm & Hmin).
  pose proof (match_at_bounds _ _ _ _ _ Hm) as (B1 & B2 & B3).
  pose proof (match_at_pre_nil _ _ _ _ _ Hp Hm) as ->.
  rewrite length_drop in B3.
  exists (take i t), (take n2 (drop i t)), (take (n3 - n2) (drop n2 (drop i t))),
         (drop n3 (drop i t)).
  assert (length (take i t) = i) as L1 by (rewrite length_take; lia).
  assert (length (take n2 (drop i t)) = n2) as L2
      by (rewrite length_take, length_drop; lia).
  assert (length (take (n3 - n2) (drop n2 (drop i t))) = (n3 - n2)%nat) as L3
      by (rewrite length_take, !length_drop; lia).
  assert (take n2 (drop i t) ++ take (n3 - n2) (drop n2 (drop i t))
          ++ drop n3 (drop i t) = drop i t) as Hsplit.
  { replace (drop n3 (drop i t)) with (drop (n3 - n2) (drop n2 (drop i t)))
      by (rewrite drop_drop; f_equal; lia).
    by rewrite take_drop, take_drop. }
  split.
  - split; [by rewrite Hsplit, take_drop|]. split.
    + rewrite Hsplit, length_app, L2, L3, Hm. do 2 f_equal. lia.
    + rewrite L1. done.
  - simpl. rewrite !length_app, L1, L2, L3. f_equal; lia.
Qed.

Lemma first_match_search p t A G V R :
  first_match p t A G V R ->
  re_search p t
  = Some (Mtch (length A) (length A) (length (A ++ G)) (length (A ++ G ++ V))).
Proof.
  intros (-> & Hm & Hmin).
  rewrite (re_search_intro p _ (length A) 0 (length G) (length (G ++ V))).
  - f_equal. rewrite !length_app. f_equal; lia.
  - by rewrite drop_app_length.
  - rewrite length_app. lia.
  - done.
Qed.

Lemma re_sub1_first p v t A G V R :
  first_match p t A G V R ->
  re_sub1 p [Group1; Literal v] t = A ++ G ++ v ++ R.
Proof.
  intros H. unfold re_sub1. rewrite (first_match_search _ _ _ _ _ _ H).
  destruct H as (-> & _ & _). cbn [expand m_start m_end group1 g_start g_end].
  unfold group1, slice. cbn [g_start g_end].
  rewrite take_app_length, drop_app_length.
  replace (length (A ++ G) - length A)%nat with (length G)
    by (rewrite length_app; lia).
  rewrite take_app_length.
  replace (A ++ G ++ V ++ R) with ((A ++ G ++ V) ++ R)
    by (by rewrite <- !app_assoc).
  rewrite drop_app_length. by rewrite app_nil_r, <- !app_assoc.
Qed.

Lemma re_sub1_no_match p tpl t : no_match p t -> re_sub1 p tpl t = t.
Proof. intros H. unfold re_sub1. apply re_search_None in H. by rewrite H. Qed.

Lemma search_cases p t :
  re_pre p = [] -> no_match p t \/ exists A G V R, first_match p t A G V R.
Proof.
  intros Hp. destruct (re_search p t) as [m|] eqn:E.
  - right. apply re_search_first in E as (A & G & V & R & H & _); eauto.
  - left. by apply re_search_None.
Qed.

Ltac reassoc :=
  repeat (rewrite <- app_assoc || rewrite <- app_comm_cons); try reflexivity.

(** * Formatted numbers *)

Lemma digit_ascii k : k < 10 -> in_class CDigitDot (48 + k) = true.
Proof.
  intros H. unfold in_class, is_digit, digit_value, decimal_zeros.
  cbn [decimal_in].
  replace (48 <=? 48 + k) with true by (symmetry; apply N.leb_le; lia).
  replace (48 + k <? 48 + 10) with true by (symmetry; apply N.ltb_lt; lia).
  done.
Qed.

Lemma digits_fuel_all fuel n : all_in CDigitDot (digits_fuel fuel n).
Proof.
  revert n. induction fuel as [|f IH]; intros n; simpl; [constructor|].
  destruct (n <? 10) eqn:E.
  - apply N.ltb_lt in E. constructor; [by apply digit_ascii | constructor].
  - apply Forall_app. split; [apply IH|].
    constructor; [|constructor]. apply digit_ascii. apply N.mod_lt. lia.
Qed.

Lemma pad_all d m : all_in CDigitDot (pad d m).
Proof.
  revert m. induction d as [|d IH]; intros m; simpl; [constructor|].
  apply Forall_app. split; [apply IH|].
  constructor; [|constructor]. apply digit_ascii. apply N.mod_lt. lia.
Qed.

Lemma fixed_all d n : all_in CDigitDot (fixed d n).
Proof.
  unfold fixed. apply Forall_app. split; [apply digits_fuel_all|].
  constructor; [done | apply pad_all].
Qed.

Lemma fixed_nonempty d n : fixed d n <> [].
Proof. unfold fixed. intros H. by apply app_eq_nil in H as [_ ?]. Qed.

(** * The text an editor returns *)

Lemma toPlainText_cons c (r : list N) :
  kept c = true -> toPlainText (c :: r) = c :: toPlainText r.
Proof.
  unfold kept. rewrite negb_true_iff, !orb_false_iff.
  intros (((((H1 & H2) & H3) & H4) & H5) & H6).
  cbn [toPlainText]. by rewrite H1, H2, H3, H4, H5, H6.
Qed.

Lemma toPlainText_app (A B : list N) :
  editor_text A -> toPlainText (A ++ B) = A ++ toPlainText B.
Proof.
  induction 1 as [|c A Hc _ IH]; [done|].
  rewrite <- app_comm_cons, toPlainText_cons by done. by rewrite IH.
Qed.

Lemma toPlainText_id (t : list N) : editor_text t -> toPlainText t = t.
Proof.
  intros H. rewrite <- (app_nil_r t) at 1. rewrite toPlainText_app by done.
  by rewrite app_nil_r.
Qed.

Lemma editor_text_app (A B : list N) :
  editor_text A -> editor_text B -> editor_text (A ++ B).
Proof. intros. by apply Forall_app. Qed.

Lemma editor_text_lit (l : list N) : editor_text_b l = true -> editor_text l.
Proof.
  unfold editor_text_b, editor_text. rewrite forallb_forall, Forall_forall.
  intros H c Hc. by apply H, list_elem_of_In.
Qed.

Lemma digdot_kept c : in_class CDigitDot c = true -> kept c = true.
Proof.
  intros H. destruct (kept c) eqn:E; [done|]. exfalso.
  unfold kept in E. rewrite negb_false_iff, !orb_true_iff, !N.eqb_eq in E.
  destruct E as [[[[[->| ->]| ->]| ->]| ->]| ->]; by vm_compute in H.
Qed.

Lemma editor_text_digits (V : list N) : all_in CDigitDot V -> editor_text V.
Proof.
  unfold all_in, editor_text. intros H. eapply Forall_impl; [exact H|].
  intros c. apply digdot_kept.
Qed.

Ltac editor_text_tac :=
  lazymatch goal with
  | |- editor_text (_ ++ _) => apply editor_text_app; editor_text_tac
  | |- editor_text (fixed _ _) => apply editor_text_digits, fixed_all
  | |- editor_text (colour_text ?c) =>
      destruct c; apply editor_text_lit; vm_compute; reflexivity
  | |- editor_text _ => apply editor_text_lit; vm_compute; reflexivity
  end.

Lemma generate_editor_text p : editor_text (generate_simple_code p).
Proof. unfold generate_simple_code. editor_text_tac. Qed.

Lemma toPlainText_generate p :
  toPlainText (generate_simple_code p) = generate_simple_code p.
Proof. apply toPlainText_id, generate_editor_text. Qed.

(** What [toPlainText] returns holds none of the characters it replaces. *)
Lemma toPlainText_editor_text (t : list N) : editor_text (toPlainText t).
Proof.
  assert (forall n (t : list N), (length t <= n)%nat -> editor_text (toPlainText t))
    as H; [|by apply (H (length t))].
  clear t. induction n as [|n IH]; intros [|c r] Hl; simpl in Hl;
    try (by constructor); try lia.
  cbn [toPlainText]. destruct (c =? 13) eqn:E1.
  { constructor; [done|]. destruct r as [|d r']; [constructor|].
    destruct (d =? nl); apply IH; simpl in *; lia. }
  destruct ((c =? 8232) || (c =? 8233) || (c =? 64976) || (c =? 64977)) eqn:E2.
  { constructor; [done|]. apply IH. lia. }
  destruct (c =? 160) eqn:E3.
  { constructor; [done|]. apply IH. lia. }
  constructor; [|apply IH; lia].
  unfold kept. rewrite !orb_false_iff in E2.
  destruct E2 as (((-> & ->) & ->) & ->). by rewrite E1, E3.
Qed.

(** * Occurrences *)

Lemma occurs_app_l (mk X Y : list N) : occurs mk X -> occurs mk (X ++ Y).
Proof.
  intros (i & a & b & -> & Hi). exists i, a, (b ++ Y).
  by rewrite <- !app_assoc.
Qed.

Lemma occurs_app_r (mk X Y : list N) : occurs mk Y -> occurs mk (X ++ Y).
Proof.
  intros (i & a & b & -> & Hi). exists (length X + i)%nat, (X ++ a), b.
  rewrite <- !app_assoc. split; [done|]. rewrite length_app. lia.
Qed.

Lemma occurs_intro (mk a b : list N) : occurs mk (a ++ mk ++ b).
Proof. exists (length a), a, b. done. Qed.

Lemma occurs_nil (s : list N) : occurs [] s.
Proof. exists 0%nat, [], s. done. Qed.

(** A character foreign to [mk] separates its occurrences. *)
Lemma occurs_cons_split (mk X Z : list N) c :
  c ∉ mk -> occurs mk (X ++ c :: Z) -> occurs mk X \/ occurs mk Z.
Proof.
  intros Hc (i & a & b & E & _).
  apply List.app_eq_app in E as [l [[-> E]|[-> E]]].
  - symmetry in E. apply List.app_eq_app in E as [l2 [[-> E]|[-> E]]].
    + left. apply occurs_intro.
    + destruct l2 as [|c' l2].
      * left. rewrite app_nil_r. rewrite <- (app_nil_r (a ++ l)).
        rewrite <- app_assoc. apply occurs_intro.
      * injection E as <- ->. exfalso. apply Hc.
        apply elem_of_app. right. left.
  - destruct l as [|c' l].
    + simpl in E. destruct mk as [|c' mk]; [left; apply occurs_nil|].
      injection E as <- ->. exfalso. apply Hc. left.
    + injection E as <- ->. right. apply occurs_intro.
Qed.

Lemma occurs_sep (mk X V Y : list N) :
  V <> [] -> (forall c, c ∈ V -> c ∉ mk) ->
  occurs mk (X ++ V ++ Y) -> occurs mk X \/ occurs mk Y.
Proof.
  intros Hne HV. revert X. induction V as [|c V IH]; [done|]. intros X H.
  simpl in H. apply occurs_cons_split in H as [H|H]; [by left | |].
  2:{ apply HV. left. }
  destruct V as [|c' V]; [by right|].
  destruct (IH ltac:(done) ltac:(intros ? ?; apply HV; by right) [] H) as [H'|H'];
    [|by right].
  left. destruct H' as (i & a & b & E & _).
  symmetry in E. apply app_eq_nil in E as [_ E].
  apply app_eq_nil in E as [-> _]. apply occurs_nil.
Qed.

(** * Substitution creates no marker *)

Lemma num_shape_split name G V R :
  match_at (replace_num name) (G ++ V ++ R) = Some (0%nat, length G, length (G ++ V)) ->
  (exists w1 w2, G = self_ name ++ w1 ++ equals :: w2
                 /\ all_in CSpace w1 /\ all_in CSpace w2)
  /\ all_in CDigitDot V /\ V <> [] /\ stops CDigitDot R.
Proof.
  intros H. apply replace_num_iff in H as [_ (w1 & w2 & D & T & E & H1 & H2 & HD & Hne & HT & Hg & He)].
  replace (self_ name ++ w1 ++ equals :: w2 ++ D ++ T)
    with ((self_ name ++ w1 ++ equals :: w2) ++ D ++ T) in E
    by reassoc.
  apply app_inj_1 in E as [-> E]; [|done].
  apply app_inj_1 in E as [-> ->]; [|rewrite length_app in He; lia].
  eauto 10.
Qed.

Lemma colour_shape_split G V R :
  match_at replace_colour (G ++ V ++ R) = Some (0%nat, length G, length (G ++ V)) ->
  (exists w1 w2, G = self_ "colour_detection" ++ w1 ++ equals :: w2 ++ [quote]
                 /\ all_in CSpace w1 /\ all_in CSpace w2)
  /\ exists C, V = C ++ [quote] /\ all_in CNotQuote C.
Proof.
  intros H. apply replace_colour_iff in H as [_ (w1 & w2 & C & T & E & H1 & H2 & HC & Hg & He)].
  replace (self_ "colour_detection" ++ w1 ++ equals :: w2 ++ quote :: C ++ quote :: T)
    with ((self_ "colour_detection" ++ w1 ++ equals :: w2 ++ [quote]) ++ (C ++ [quote]) ++ T) in E
    by reassoc.
  apply app_inj_1 in E as [-> E]; [|done].
  apply app_inj_1 in E as [-> ->];
    [|rewrite !length_app in *; simpl in *; lia].
  eauto 10.
Qed.

Lemma marker_like_no_digdot mk v :
  marker_like mk -> all_in CDigitDot v -> forall c, c ∈ v -> c ∉ mk.
Proof.
  intros (H & _ & _) Hv c Hc Hin.
  rewrite Forall_forall in H. unfold all_in in Hv. rewrite Forall_forall in Hv.
  specialize (H _ Hin). specialize (Hv _ Hc). congruence.
Qed.

Lemma sub_num_no_new mk name v t :
  marker_like mk -> all_in CDigitDot v -> v <> [] ->
  occurs mk (re_sub1 (replace_num name) [Group1; Literal v] t) -> occurs mk t.
Proof.
  intros Hmk Hv Hne.
  destruct (search_cases (replace_num name) t) as [Hn | (A & G & V & R & Hf)]; [done| |].
  - by rewrite re_sub1_no_match.
  - rewrite (re_sub1_first _ _ _ _ _ _ _ Hf). destruct Hf as (-> & Hm & _).
    intros H. replace (A ++ G ++ v ++ R) with ((A ++ G) ++ v ++ R) in H by reassoc.
    apply occurs_sep in H as [H|H]; [| |done|by eapply marker_like_no_digdot].
    + replace (A ++ G ++ V ++ R) with ((A ++ G) ++ V ++ R) by reassoc.
      by apply occurs_app_l.
    + rewrite !app_assoc. by apply occurs_app_r.
Qed.

Lemma sub_colour_no_new mk c t :
  marker_like mk ->
  occurs mk (re_sub1 replace_colour [Group1; Literal (colour_text c ++ [quote])] t) ->
  occurs mk t.
Proof.
  intros Hmk.
  destruct (search_cases replace_colour t) as [Hn | (A & G & V & R & Hf)]; [done| |].
  - by rewrite re_sub1_no_match.
  - rewrite (re_sub1_first _ _ _ _ _ _ _ Hf). destruct Hf as (-> & Hm & _).
    apply colour_shape_split in Hm as [(w1 & w2 & -> & _ & _) (C & -> & _)].
    destruct Hmk as (_ & Hq & Hcol).
    intros H.
    replace (A ++ (self_ "colour_detection" ++ w1 ++ equals :: w2 ++ [quote])
               ++ (colour_text c ++ [quote]) ++ R)
      with ((A ++ self_ "colour_detection" ++ w1 ++ equals :: w2)
              ++ quote :: (colour_text c ++ quote :: R)) in H by reassoc.
    apply occurs_cons_split in H as [H|H]; [| |done].
    + replace (A ++ (self_ "colour_detection" ++ w1 ++ equals :: w2 ++ [quote])
                 ++ (C ++ [quote]) ++ R)
        with ((A ++ self_ "colour_detection" ++ w1 ++ equals :: w2)
                ++ quote :: C ++ quote :: R) by reassoc.
      by apply occurs_app_l.
    + apply occurs_cons_split in H as [H|H]; [| |done].
      * exfalso. specialize (Hcol c). by apply find_None in Hcol.
      * rewrite !app_assoc. by apply occurs_app_r.
Qed.

(** The parameter rewrite creates no occurrence of a marker. *)
Lemma substitute_no_new mk p t :
  marker_like mk -> occurs mk (substitute (replacements p) t) -> occurs mk t.
Proof.
  intros Hmk. unfold substitute, replacements. cbn [fold_left fst snd].
  intros H.
  apply sub_colour_no_new in H; [|done].
  do 6 (apply sub_num_no_new in H;
        [|done|apply fixed_all|apply fixed_nonempty]).
  done.
Qed.


Lemma marker_like_intro (mk : list N) :
  List.forallb (fun c : N => negb (in_class CDigitDot c)) mk = true ->
  List.forallb (fun c : N => negb (c =? quote)) mk = true ->
  (forall c, find mk (colour_text c) = None) ->
  marker_like mk.
Proof.
  intros H1 H2 H3. rewrite forallb_forall in H1, H2. split; [|split; [|done]].
  - apply Forall_forall. intros c Hc. apply list_elem_of_In in Hc.
    specialize (H1 _ Hc). by apply negb_true_iff in H1.
  - intros Hq. apply list_elem_of_In in Hq. specialize (H2 _ Hq).
    by rewrite N.eqb_refl in H2.
Qed.

Lemma marker_start_like : marker_like marker_start.
Proof.
  apply marker_like_intro; [by vm_compute | by vm_compute |].
  intros []; by vm_compute.
Qed.

Lemma marker_end_like : marker_like marker_end.
Proof.
  apply marker_like_intro; [by vm_compute | by vm_compute |].
  intros []; by vm_compute.
Qed.

(** * Reconciliation *)

Lemma reconcile_absent (s : App) :
  disk s !! MOVEMENT_PY = None -> reconcile s = (Ret tt, s).
Proof.
  intros H. unfold reconcile, write_params_to_movement_py,
    write_simple_logic_to_movement_py, mbind, M_bind, gets, mret, M_ret.
  rewrite H. destruct (extract_simple_view_logic (simple_editor s)); by rewrite ?H.
Qed.

Ltac app_proj :=
  unfold set_disk, set_syncing, set_spins, set_simple_editor, set_full_editor,
    set_editor_stack;
  cbn [disk spins simple_editor syncing full_editor editor_stack
       full_view_current_file].

Lemma reconcile_present (s : App) code :
  disk s !! MOVEMENT_PY = Some code ->
  reconcile s
  = (Ret tt, set_disk (<[MOVEMENT_PY := reconciled (spins s) (simple_editor s) code]>
                         (disk s)) s).
Proof.
  intros H. destruct s as [b p v fe i f d]. simpl in H.
  unfold reconcile, write_params_to_movement_py,
    write_simple_logic_to_movement_py, mbind, M_bind, gets, mret, M_ret, modify,
    reconciled, splice.
  app_proj. rewrite H. app_proj.
  destruct (extract_simple_view_logic v) as [lg|]; [|done]. app_proj.
  rewrite lookup_insert_eq.
  destruct (find marker_start _) as [i0|]; [|done].
  destruct (find marker_end _) as [j0|]; [|done].
  case_bool_decide as Hne.
  - app_proj. by rewrite insert_insert_eq.
  - by rewrite Hne.
Qed.

Lemma occurs_at_take_drop (mk t : list N) j :
  occurs_at mk t j <->
  (j + length mk <= length t)%nat /\ take (length mk) (drop j t) = mk.
Proof.
  split.
  - intros (a & b & -> & <-). split; [rewrite !length_app; lia|].
    by rewrite drop_app_length, take_app_length.
  - intros [Hl E]. exists (take j t), (drop (length mk) (drop j t)).
    split; [|rewrite length_take; lia].
    rewrite <- E at 1. by rewrite take_drop, take_drop.
Qed.

(** An occurrence inside a prefix does not depend on what follows it. *)
Lemma occurs_at_in_prefix (mk P X Y : list N) j :
  (j + length mk <= length P)%nat ->
  occurs_at mk (P ++ X) j -> occurs_at mk (P ++ Y) j.
Proof.
  intros Hl. rewrite !occurs_at_take_drop, !length_app.
  intros [_ E]. split; [lia|].
  rewrite drop_app_le in * by lia.
  rewrite take_app_le in * by (rewrite length_drop; lia). done.
Qed.

Lemma find_common_prefix (mk P X Y : list N) i :
  (i + length mk <= length P)%nat ->
  find mk (P ++ X) = Some i -> find mk (P ++ Y) = Some i.
Proof.
  intros Hl. rewrite !find_Some. intros [H Hmin]. split.
  - by eapply occurs_at_in_prefix.
  - intros j Hj Ho. apply (Hmin j Hj).
    eapply occurs_at_in_prefix; [|done]. lia.
Qed.

Lemma find_Some_split (mk t : list N) i :
  find mk t = Some i ->
  t = take i t ++ mk ++ drop (i + length mk) t /\ (i + length mk <= length t)%nat.
Proof.
  intros H. apply find_Some in H as [H _].
  apply occurs_at_take_drop in H as [Hl E]. split; [|done].
  rewrite <- (take_drop i t) at 1. f_equal.
  rewrite <- (take_drop (length mk) (drop i t)) at 1. rewrite E. f_equal.
  by rewrite drop_drop.
Qed.

Lemma splice_header lg code i j :
  find marker_start code = Some i -> find marker_end code = Some j ->
  find marker_start (splice lg code) = Some i
  /\ take (i + length marker_start) (splice lg code)
     = take (i + length marker_start) code.
Proof.
  intros Hi Hj. unfold splice. rewrite Hi, Hj. destruct lg as [lg|]; [|done].
  pose proof (find_Some_split _ _ _ Hi) as [E Hl].
  assert (length (take (i + length marker_start) code)
          = (i + length marker_start)%nat) as L by (rewrite length_take; lia).
  split.
  - rewrite <- (take_drop (i + length marker_start) code) in Hi.
    eapply find_common_prefix; [|done]. lia.
  - rewrite take_app_le by lia. rewrite take_ge by lia. done.
Qed.

(** C5, as stated, fails: an artifact with both markers and a header of its
    own, reconciled against the default document; the text up to and
    including the start-marker line is the artifact's own header, and the
    render of the parameters does not even contain the start marker. *)
Lemma reconciled_header_is_not_the_render :
  let final := reconciled example_params (generate_simple_code example_params)
                          plain_artifact in
  reconcile plain_state
  = (Ret tt, set_disk {[ MOVEMENT_PY := final ]} plain_state)
  /\ find marker_start final = Some 12%nat
  /\ take (12 + length marker_start) final
     = txt "# my header" ++ [nl] ++ marker_start
  /\ find marker_start (generate_simple_code example_params) = None.
Proof.
  split; [|by vm_compute].
  rewrite (reconcile_present _ plain_artifact) by done. reflexivity.
Qed.

(** C5, amended: whenever the splice finds both markers (in the artifact as
    the parameter rewrite left it), the reconciled artifact's text from the
    start up to and including the start-marker line is that of the
    parameter-rewritten prior artifact: the prior header with the first
    match of each parameter pattern substituted, not a fresh render. *)
Theorem reconcile_keeps_header (s : App) (code : list N) (i j : nat) :
  disk s !! MOVEMENT_PY = Some code ->
  find marker_start (substitute (replacements (spins s)) code) = Some i ->
  find marker_end (substitute (replacements (spins s)) code) = Some j ->
  exists final,
    disk (snd (reconcile s)) !! MOVEMENT_PY = Some final
    /\ find marker_start final = Some i
    /\ take (i + length marker_start) final
       = take (i + length marker_start)
              (substitute (replacements (spins s)) code).
Proof.
  intros Hd Hi Hj. rewrite (reconcile_present _ _ Hd).
  exists (reconciled (spins s) (simple_editor s) code). split.
  - destruct s; simpl. apply lookup_insert_eq.
  - by apply splice_header with j.
Qed.

Lemma reconcile_keeps_header_witness :
  exists final,
    disk (snd (reconcile plain_state)) !! MOVEMENT_PY = Some final
    /\ find marker_start final = Some 12%nat
    /\ take (12 + length marker_start) final
       = take (12 + length marker_start)
              (substitute (replacements (spins plain_state)) plain_artifact).
Proof.
  apply (reconcile_keeps_header plain_state plain_artifact 12 65);
    by vm_compute.
Defined.

(** C3, as stated, fails: an artifact without markers is not replaced by the
    default render; reconciliation leaves it as the parameter rewrite left
    it (here unchanged). *)
Lemma reconcile_without_markers_keeps_text :
  find marker_start bare_artifact = None
  /\ disk (snd (reconcile bare_state)) !! MOVEMENT_PY = Some bare_artifact
  /\ bare_artifact <> generate_simple_code (spins bare_state).
Proof.
  split; [by vm_compute|]. split; [|by vm_compute].
  rewrite (reconcile_present _ bare_artifact) by done.
  unfold set_disk, bare_state. simpl. rewrite lookup_insert_eq. f_equal.
Qed.

(** * The marker pattern of the loader *)

Lemma find_from_shift (sub s : list N) a :
  find_from sub s (S a) = S <$> find_from sub s a.
Proof.
  revert a. induction s as [|c s IH]; intros a; simpl.
  - by destruct (is_prefix sub []).
  - destruct (is_prefix sub (c :: s)); [done|]. apply IH.
Qed.

Lemma find_cons (sub : list N) c s :
  find sub (c :: s)
  = if is_prefix sub (c :: s) then Some 0%nat else S <$> find sub s.
Proof.
  unfold find. simpl. destruct (is_prefix sub (c :: s)); [done|].
  apply find_from_shift.
Qed.

Lemma find_nil (sub : list N) :
  find sub [] = if is_prefix sub [] then Some 0%nat else None.
Proof. unfold find. simpl. by destruct (is_prefix sub []). Qed.

Lemma m_lazy_any_find {R} (f : nat -> R) (me s : list N) n :
  m_lazy CAny (fun s2 n2 => if is_prefix me s2 then Some (f n2) else None) s n
  = match find me s with
    | Some i => Some (f (n + i)%nat)
    | None => None
    end.
Proof.
  revert n. induction s as [|c s IH]; intros n.
  - cbn [m_lazy]. rewrite find_nil. destruct (is_prefix me []); [|done].
    by rewrite Nat.add_0_r.
  - cbn [m_lazy]. rewrite find_cons. destruct (is_prefix me (c :: s)).
    + by rewrite Nat.add_0_r.
    + cbn [in_class]. rewrite IH. destruct (find me s) as [i|]; [|done].
      simpl. do 2 f_equal. lia.
Qed.

Lemma match_at_markers (s : list N) :
  match_at markers_re s
  = if is_prefix marker_start s then
      match find marker_end (drop (length marker_start) s) with
      | Some i => Some (length marker_start, (length marker_start + i)%nat,
                        (length marker_start + i + length marker_end)%nat)
      | None => None
      end
    else None.
Proof.
  unfold match_at, markers_re. cbn [re_pre re_grp re_post].
  rewrite m_items_lit. destruct (is_prefix marker_start s); [|done].
  cbn [m_items].
  rewrite (m_lazy_ext _ _
             (fun s2 n2 => if is_prefix marker_end s2
                           then Some ((fun n2 => (length marker_start, n2,
                                                  (n2 + length marker_end)%nat)) n2)
                           else None)).
  - rewrite m_lazy_any_find. simpl. done.
  - intros s2 n2. rewrite m_items_lit. done.
Qed.

Lemma occurs_at_is_prefix (mk t : list N) j :
  occurs_at mk t j -> is_prefix mk (drop j t) = true.
Proof.
  intros (a & b & -> & <-). rewrite drop_app_length. apply is_prefix_app.
Qed.

Lemma is_prefix_occurs_at (mk t : list N) j :
  (j <= length t)%nat -> is_prefix mk (drop j t) = true -> occurs_at mk t j.
Proof.
  intros Hj H. apply is_prefix_spec in H as [r Hr].
  exists (take j t), r. split; [|rewrite length_take; lia].
  by rewrite <- Hr, take_drop.
Qed.

Lemma is_prefix_occurs (mk t : list N) j :
  is_prefix mk (drop j t) = true -> occurs mk t.
Proof.
  intros H. destruct (le_lt_dec j (length t)) as [Hj|Hj].
  - exists j. by apply is_prefix_occurs_at.
  - rewrite drop_ge in H by lia. exists (length t).
    apply is_prefix_occurs_at; [done|]. by rewrite drop_all.
Qed.

Lemma occurs_drop (mk t : list N) j : occurs mk (drop j t) -> occurs mk t.
Proof.
  intros H. rewrite <- (take_drop j t). by apply occurs_app_r.
Qed.

Lemma re_search_markers_None (code : list N) :
  ~ occurs marker_start code \/ ~ occurs marker_end code ->
  re_search markers_re code = None.
Proof.
  intros H. apply re_search_None. intros j. rewrite match_at_markers.
  destruct (is_prefix marker_start (drop j code)) eqn:E; [|done].
  destruct (find marker_end _) as [i|] eqn:E2; [|done]. exfalso.
  destruct H as [H|H]; apply H.
  - by eapply is_prefix_occurs.
  - apply find_Some in E2 as [E2 _].
    eapply occurs_drop, occurs_drop. by exists i.
Qed.

Lemma re_search_markers (code : list N) a i :
  find marker_start code = Some a ->
  find marker_end (drop (a + length marker_start) code) = Some i ->
  re_search markers_re code
  = Some (Mtch a (a + length marker_start)
               (a + (length marker_start + i))
               (a + (length marker_start + i + length marker_end))).
Proof.
  intros Ha Hi. apply find_Some in Ha as [Ha Hmin].
  apply re_search_intro.
  - rewrite match_at_markers, (occurs_at_is_prefix _ _ _ Ha).
    by rewrite drop_drop, Hi.
  - apply occurs_at_take_drop in Ha. lia.
  - intros j Hj. rewrite match_at_markers.
    destruct (is_prefix marker_start (drop j code)) eqn:E; [|done].
    exfalso. apply (Hmin j Hj). apply is_prefix_occurs_at; [|done].
    apply occurs_at_take_drop in Ha. lia.
Qed.

(** * Loading *)

Lemma load_default (s : App) code :
  disk s !! MOVEMENT_PY = Some code ->
  re_search markers_re code = None ->
  load_simple_view_from_movement_py s
  = (Ret tt, set_syncing false
               (set_simple_editor (generate_simple_code (spins s)) s)).
Proof.
  intros Hd Hm. destruct s as [b p v fe i f d]. simpl in Hd.
  unfold load_simple_view_from_movement_py, mbind, M_bind, gets, modify,
    try_finally.
  app_proj. rewrite Hd, Hm. cbn [spins]. rewrite toPlainText_generate.
  reflexivity.
Qed.

(** C3, amended: for every artifact that lacks the start marker or the end
    marker, reconciliation leaves in the file the prior text with the
    parameter rewrite applied (the splice writes nothing); the default render
    is what loading such an artifact puts into the Simple View. *)
Theorem reconcile_without_markers (s : App) (code : list N) :
  disk s !! MOVEMENT_PY = Some code ->
  ~ occurs marker_start code \/ ~ occurs marker_end code ->
  reconcile s
  = (Ret tt, set_disk (<[MOVEMENT_PY := substitute (replacements (spins s)) code]>
                         (disk s)) s)
  /\ load_simple_view_from_movement_py s
     = (Ret tt, set_syncing false
                  (set_simple_editor (generate_simple_code (spins s)) s)).
Proof.
  intros Hd H. split.
  - rewrite (reconcile_present _ _ Hd). do 3 f_equal.
    unfold reconciled, splice.
    destruct (extract_simple_view_logic (simple_editor s)) as [lg|]; [|done].
    destruct H as [H|H].
    + destruct (find marker_start _) as [i|] eqn:E; [|done]. exfalso.
      apply H. apply (substitute_no_new _ (spins s)); [apply marker_start_like|].
      apply find_Some in E as [E _]. by exists i.
    + destruct (find marker_start _) as [i|]; [|done].
      destruct (find marker_end _) as [j|] eqn:E; [|done]. exfalso.
      apply H. apply (substitute_no_new _ (spins s)); [apply marker_end_like|].
      apply find_Some in E as [E _]. by exists j.
  - apply load_default with code; [done|]. by apply re_search_markers_None.
Qed.

Lemma reconcile_without_markers_witness :
  reconcile bare_state
  = (Ret tt, set_disk (<[MOVEMENT_PY := substitute (replacements (spins bare_state))
                                                   bare_artifact]>
                         (disk bare_state)) bare_state)
  /\ load_simple_view_from_movement_py bare_state
     = (Ret tt, set_syncing false
                  (set_simple_editor (generate_simple_code (spins bare_state))
                                     bare_state)).
Proof.
  apply (reconcile_without_markers bare_state bare_artifact); [done|].
  left. apply find_None. by vm_compute.
Defined.


(** * Where a match can start *)

Lemma num_starts_iff name s :
  (exists r, match_at (replace_num name) s = Some r) <->
  exists w1 w2 d s',
    s = self_ name ++ w1 ++ equals :: w2 ++ d :: s'
    /\ all_in CSpace w1 /\ all_in CSpace w2 /\ in_class CDigitDot d = true.
Proof.
  split.
  - intros [[[a g] e] H]. apply replace_num_iff in H
      as [_ (w1 & w2 & D & T & -> & H1 & H2 & HD & Hne & _)].
    destruct D as [|d D]; [done|]. inversion HD; subst.
    exists w1, w2, d, (D ++ T). done.
  - intros (w1 & w2 & d & s' & -> & H1 & H2 & Hd).
    eexists (0%nat, _, _). apply replace_num_iff. split; [done|].
    exists w1, w2, (d :: run CDigitDot s'), (skip CDigitDot s').
    split; [simpl; by rewrite run_skip|]. split; [done|]. split; [done|].
    split; [constructor; [done | apply run_all_in]|].
    split; [done|]. split; [apply skip_stops|]. done.
Qed.

Lemma skip_notquote_elem (s : list N) :
  quote ∈ s -> exists T, skip CNotQuote s = quote :: T.
Proof.
  induction s as [|c s IH]; [by intros ?%elem_of_nil|].
  intros H. cbn [skip]. destruct (in_class CNotQuote c) eqn:E.
  - apply elem_of_cons in H as [<-|H]; [done | by apply IH].
  - unfold in_class in E. apply negb_false_iff, N.eqb_eq in E as ->. eauto.
Qed.

Lemma all_notquote_elem (C : list N) : all_in CNotQuote C -> quote ∉ C.
Proof.
  intros H Hq. unfold all_in in H. rewrite Forall_forall in H.
  by specialize (H _ Hq).
Qed.

Lemma colour_starts_iff s :
  (exists r, match_at replace_colour s = Some r) <->
  exists w1 w2 s',
    s = self_ "colour_detection" ++ w1 ++ equals :: w2 ++ quote :: s'
    /\ all_in CSpace w1 /\ all_in CSpace w2 /\ quote ∈ s'.
Proof.
  split.
  - intros [[[a g] e] H]. apply replace_colour_iff in H
      as [_ (w1 & w2 & C & T & -> & H1 & H2 & HC & _)].
    exists w1, w2, (C ++ quote :: T). split; [done|]. split; [done|].
    split; [done|]. apply elem_of_app. right. left.
  - intros (w1 & w2 & s' & -> & H1 & H2 & Hq).
    destruct (skip_notquote_elem _ Hq) as [T HT].
    eexists (0%nat, _, _). apply replace_colour_iff. split; [done|].
    exists w1, w2, (run CNotQuote s'), T.
    split; [by rewrite <- HT, run_skip|]. split; [done|]. split; [done|].
    split; [apply run_all_in|]. done.
Qed.

(** * Facts about the seven names *)

Lemma self_head name : self_ name = 115 :: 101 :: 108 :: 102 :: 46 :: txt name.
Proof. reflexivity. Qed.

Lemma names_name_char name :
  name ∈ all_names -> Forall (fun c => name_char c = true) (self_ name).
Proof.
  revert name. apply Forall_forall.
  repeat constructor; apply Forall_forall; intros c Hc;
    apply list_elem_of_In in Hc; revert c Hc; apply forallb_forall;
    by vm_compute.
Qed.

Lemma name_char_not_sep c : name_char c = true -> sep_char c = false.
Proof.
  unfold name_char, sep_char. rewrite !andb_true_iff, !negb_true_iff.
  intros [[-> ->] _]. done.
Qed.

Lemma sep_not_digdot c : sep_char c = true -> in_class CDigitDot c = false.
Proof.
  unfold sep_char. intros [H| ->%N.eqb_eq]%orb_true_iff; [|done].
  by apply space_not_digdot.
Qed.

Lemma spaces_sep w : all_in CSpace w -> Forall (fun c => sep_char c = true) w.
Proof.
  intros H. eapply Forall_impl; [exact H|].
  intros c Hc. unfold sep_char. simpl in Hc. by rewrite Hc.
Qed.

Lemma assign_tail_sep (w1 w2 : list N) :
  all_in CSpace w1 -> all_in CSpace w2 ->
  Forall (fun c => sep_char c = true) (w1 ++ equals :: w2).
Proof.
  intros H1 H2. apply Forall_app. split; [by apply spaces_sep|].
  constructor; [done | by apply spaces_sep].
Qed.

(** A name cannot start again inside itself followed by separators. *)
Lemma shifted_name_clash (nm W u1 r : list N) :
  nm <> [] -> u1 <> [] ->
  Forall (fun c => name_char c = true) nm ->
  Forall (fun c => sep_char c = true) W ->
  nm ++ W = u1 ++ nm ++ r -> False.
Proof.
  intros Hnm Hu Hn HW E.
  assert (exists c, nm !! (length nm - 1)%nat = Some c) as [c Hc].
  { apply lookup_lt_is_Some. destruct nm; [done | simpl; lia]. }
  assert (length u1 > 0)%nat by (destruct u1; [done | simpl; lia]).
  assert (length nm > 0)%nat by (destruct nm; [done | simpl; lia]).
  apply (f_equal (fun l => l !! (length u1 + (length nm - 1))%nat)) in E.
  rewrite lookup_app_r in E by lia.
  rewrite (lookup_app_r u1) in E by lia.
  replace (length u1 + (length nm - 1) - length u1)%nat
    with (length nm - 1)%nat in E by lia.
  rewrite (lookup_app_l nm r) in E by lia. rewrite Hc in E.
  rewrite Forall_forall in Hn, HW.
  pose proof (Hn c (list_elem_of_lookup_2 _ _ _ Hc)) as H1.
  pose proof (HW c (list_elem_of_lookup_2 _ _ _ E)) as H2.
  apply name_char_not_sep in H1. congruence.
Qed.

Lemma app_eq_len_le (a b c d : list N) :
  a ++ b = c ++ d -> (length c <= length a)%nat ->
  exists x, a = c ++ x /\ d = x ++ b.
Proof.
  intros E Hl. apply List.app_eq_app in E as [l [[-> ->]|[-> ->]]]; [eauto|].
  rewrite length_app in Hl. destruct l; [|simpl in Hl; lia].
  exists []. by rewrite !app_nil_r.
Qed.

Lemma names_nonempty name : self_ name <> [].
Proof. by rewrite self_head. Qed.

Lemma num_in_all name : name ∈ num_names -> name ∈ all_names.
Proof. intros H. apply elem_of_app. by left. Qed.

Lemma drop_nonempty (A : list N) j : (j < length A)%nat -> drop j A <> [].
Proof.
  intros H E. apply (f_equal length) in E. rewrite length_drop in E.
  simpl in E. lia.
Qed.

(** * Locality of the first match *)

Lemma num_first_local name h S A G V R :
  name ∈ all_names ->
  first_match (replace_num name) h A G V R ->
  stops CDigitDot S ->
  first_match (replace_num name) (h ++ S) A G V (R ++ S).
Proof.
  intros Hname (-> & Hm & Hmin) HS.
  pose proof (num_shape_split _ _ _ _ Hm)
    as ((w1 & w2 & -> & H1 & H2) & HV & Hne & HR).
  split; [reassoc|]. split.
  - apply replace_num_iff. split; [done|].
    exists w1, w2, V, (R ++ S). split; [reassoc|].
    split; [done|]. split; [done|]. split; [done|]. split; [done|].
    split; [by destruct R|]. split; [done|]. list_len.
  - intros j Hj.
    destruct (match_at (replace_num name) (drop j _)) as [r|] eqn:E; [|done].
    exfalso.
    assert (exists r, match_at (replace_num name)
              (drop j ((A ++ (self_ name ++ w1 ++ equals :: w2) ++ V ++ R) ++ S))
            = Some r) as Hs by eauto.
    apply num_starts_iff in Hs as (w1' & w2' & d & s' & Es & H1' & H2' & Hd).
    rewrite drop_app_le in Es by (rewrite length_app; lia).
    set (u := drop j (A ++ (self_ name ++ w1 ++ equals :: w2) ++ V ++ R)) in *.
    destruct (le_lt_dec (length u) (length (self_ name ++ w1' ++ equals :: w2')))
      as [Hle|Hgt].
    + replace (self_ name ++ w1' ++ equals :: w2' ++ d :: s')
        with ((self_ name ++ w1' ++ equals :: w2') ++ d :: s') in Es by reassoc.
      symmetry in Es. apply app_eq_len_le in Es as (l & El & _); [|done].
      subst u. rewrite drop_app_le in El by lia.
      apply (shifted_name_clash (self_ name) (w1' ++ equals :: w2')
               (drop j A) ((w1 ++ equals :: w2) ++ V ++ R ++ l)).
      * apply names_nonempty.
      * by apply drop_nonempty.
      * by apply names_name_char.
      * by apply assign_tail_sep.
      * rewrite El at 1. reassoc.
    + replace (self_ name ++ w1' ++ equals :: w2' ++ d :: s')
        with ((self_ name ++ w1' ++ equals :: w2' ++ [d]) ++ s') in Es by reassoc.
      apply app_eq_len_le in Es as (x & Ex & _).
      2:{ rewrite !length_app in *. simpl in *. rewrite length_app. simpl. lia. }
      assert (exists r, match_at (replace_num name) u = Some r) as [r' Hr'].
      { apply num_starts_iff. exists w1', w2', d, x. split; [|done].
        rewrite Ex. reassoc. }
      subst u. by rewrite (Hmin j Hj) in Hr'.
Qed.

Lemma count_char_app c (a b : list N) :
  count_char c (a ++ b) = (count_char c a + count_char c b)%nat.
Proof. induction a as [|x a IH]; simpl; [done|]. rewrite IH. lia. Qed.

Lemma count_char_zero c (s : list N) : c ∉ s -> count_char c s = 0%nat.
Proof.
  induction s as [|x s IH]; [done|]. intros H. simpl.
  rewrite IH by (intros ?; apply H; by right).
  destruct (N.eqb_spec c x) as [->|]; [|done]. exfalso. apply H. left.
Qed.

Lemma spaces_no_quote w : all_in CSpace w -> quote ∉ w.
Proof.
  intros H Hq. unfold all_in in H. rewrite Forall_forall in H.
  by specialize (H _ Hq).
Qed.

Lemma count_quote_prefix (w1 w2 : list N) :
  all_in CSpace w1 -> all_in CSpace w2 ->
  count_char quote (self_ "colour_detection" ++ w1 ++ equals :: w2 ++ [quote])
  = 1%nat.
Proof.
  intros H1 H2. rewrite !count_char_app. cbn [count_char].
  rewrite !count_char_app. cbn [count_char].
  rewrite (count_char_zero _ w1), (count_char_zero _ w2)
    by by apply spaces_no_quote.
  reflexivity.
Qed.

Lemma colour_first_local h S A G V R :
  first_match replace_colour h A G V R ->
  first_match replace_colour (h ++ S) A G V (R ++ S).
Proof.
  intros (-> & Hm & Hmin).
  pose proof (colour_shape_split _ _ _ Hm)
    as ((w1 & w2 & -> & H1 & H2) & (C & -> & HC)).
  split; [reassoc|]. split.
  - apply replace_colour_iff. split; [done|].
    exists w1, w2, C, (R ++ S). split; [reassoc|].
    split; [done|]. split; [done|]. split; [done|]. split; [done|]. list_len.
  - intros j Hj.
    destruct (match_at replace_colour (drop j _)) as [r|] eqn:E; [|done].
    exfalso.
    assert (exists r, match_at replace_colour
              (drop j ((A ++ (self_ "colour_detection" ++ w1 ++ equals :: w2 ++ [quote])
                          ++ (C ++ [quote]) ++ R) ++ S))
            = Some r) as Hs by eauto.
    apply colour_starts_iff in Hs as (w1' & w2' & s' & Es & H1' & H2' & Hq).
    rewrite drop_app_le in Es by (rewrite length_app; lia).
    set (u := drop j (A ++ (self_ "colour_detection" ++ w1 ++ equals :: w2 ++ [quote])
                        ++ (C ++ [quote]) ++ R)) in *.
    assert (2 <= count_char quote u)%nat as Hcount.
    { subst u. rewrite drop_app_le by lia.
      rewrite (count_char_app _ (drop j A)).
      rewrite (count_char_app _ (self_ "colour_detection" ++ _)).
      rewrite count_quote_prefix by done.
      rewrite !count_char_app. cbn [count_char]. rewrite N.eqb_refl. lia. }
    pose proof (count_quote_prefix w1' w2' H1' H2') as Hone.
    replace (self_ "colour_detection" ++ w1' ++ equals :: w2' ++ quote :: s')
      with ((self_ "colour_detection" ++ w1' ++ equals :: w2' ++ [quote]) ++ s')
      in Es by reassoc.
    destruct (le_lt_dec (length u)
                (length (self_ "colour_detection" ++ w1' ++ equals :: w2' ++ [quote])))
      as [Hle|Hgt].
    + symmetry in Es. apply app_eq_len_le in Es as (l & El & _); [|done].
      rewrite El, count_char_app in Hone. lia.
    + apply app_eq_len_le in Es as (x & Ex & _); [|lia].
      destruct (decide (quote ∈ x)) as [Hx|Hx].
      * assert (exists r, match_at replace_colour u = Some r) as [r' Hr'].
        { apply colour_starts_iff. exists w1', w2', x. split; [|done].
          rewrite Ex. reassoc. }
        subst u. by rewrite (Hmin j Hj) in Hr'.
      * rewrite Ex, count_char_app, Hone, (count_char_zero _ x) in Hcount by done.
        lia.
Qed.

Lemma has_match_first p t :
  re_pre p = [] -> has_match p t -> exists A G V R, first_match p t A G V R.
Proof.
  intros Hp (j & r & Hj).
  destruct (search_cases p t Hp) as [Hn|H]; [|done]. by rewrite Hn in Hj.
Qed.

Lemma first_match_has p t A G V R : first_match p t A G V R -> has_match p t.
Proof.
  intros (-> & Hm & _). exists (length A). rewrite drop_app_length. eauto.
Qed.

Lemma re_sub1_num_local name v h S :
  name ∈ all_names -> has_match (replace_num name) h -> stops CDigitDot S ->
  re_sub1 (replace_num name) [Group1; Literal v] (h ++ S)
  = re_sub1 (replace_num name) [Group1; Literal v] h ++ S.
Proof.
  intros Hn Hh HS. apply has_match_first in Hh as (A & G & V & R & Hf); [|done].
  rewrite (re_sub1_first _ _ _ _ _ _ _ Hf).
  rewrite (re_sub1_first _ _ _ _ _ _ _ (num_first_local _ _ _ _ _ _ _ Hn Hf HS)).
  reassoc.
Qed.

Lemma re_sub1_colour_local v h S :
  has_match replace_colour h ->
  re_sub1 replace_colour [Group1; Literal v] (h ++ S)
  = re_sub1 replace_colour [Group1; Literal v] h ++ S.
Proof.
  intros Hh. apply has_match_first in Hh as (A & G & V & R & Hf); [|done].
  rewrite (re_sub1_first _ _ _ _ _ _ _ Hf).
  rewrite (re_sub1_first _ _ _ _ _ _ _ (colour_first_local _ _ _ _ _ _ Hf)).
  reassoc.
Qed.


(** * A substitution keeps the other parameters' assignments *)

Lemma adjacent_clash (nm W u l : list N) d0 :
  Forall (fun c => name_char c = true) nm ->
  Forall (fun c => in_class CDigitDot c = false) W ->
  nm ++ W = u ++ d0 :: l ->
  (exists c0, u !! (length u - 1)%nat = Some c0 /\ sep_char c0 = true) ->
  in_class CDigitDot d0 = true -> False.
Proof.
  intros Hn HW E (c0 & Hc0 & Hsep) Hd.
  assert (length u > 0)%nat as Hu.
  { destruct u; [done | simpl; lia]. }
  rewrite Forall_forall in Hn, HW.
  destruct (le_lt_dec (length nm) (length u)) as [Hle|Hlt].
  - apply (f_equal (fun x => x !! length u)) in E.
    rewrite lookup_app_r in E by lia.
    rewrite (lookup_app_r u) in E by lia.
    rewrite Nat.sub_diag in E. simpl in E.
    apply list_elem_of_lookup_2 in E. apply HW in E. congruence.
  - apply (f_equal (fun x => x !! (length u - 1)%nat)) in E.
    rewrite lookup_app_l in E by lia.
    rewrite (lookup_app_l u) in E by lia. rewrite Hc0 in E.
    apply list_elem_of_lookup_2 in E. apply Hn in E.
    apply name_char_not_sep in E. congruence.
Qed.

Lemma last_of_drop_sep (P W0 : list N) a :
  W0 <> [] -> Forall (fun c => sep_char c = true) W0 ->
  (a < length (P ++ W0))%nat ->
  exists c0, drop a (P ++ W0) !! (length (drop a (P ++ W0)) - 1)%nat = Some c0
             /\ sep_char c0 = true.
Proof.
  intros Hne HW Ha.
  assert (length W0 > 0)%nat by (destruct W0; [done | simpl; lia]).
  assert (exists c0, W0 !! (length W0 - 1)%nat = Some c0) as [c0 Hc0].
  { apply lookup_lt_is_Some. lia. }
  exists c0. split.
  - rewrite lookup_drop, length_drop, length_app in *.
    replace (a + (length P + length W0 - a - 1))%nat
      with (length P + (length W0 - 1))%nat by lia.
    by rewrite lookup_app_r, Nat.add_sub' by lia.
  - rewrite Forall_forall in HW. apply HW. by eapply list_elem_of_lookup_2.
Qed.

Lemma tail_inj (P : N -> Prop) (X1 X2 v w : list N) e1 e2 :
  Forall P v -> Forall P w -> ~ P e1 -> ~ P e2 ->
  X1 ++ e1 :: v = X2 ++ e2 :: w -> X1 = X2 /\ e1 = e2 /\ v = w.
Proof.
  intros Hv Hw H1 H2 E. rewrite Forall_forall in Hv, Hw.
  apply List.app_eq_app in E as [l [[-> E]|[-> E]]].
  - destruct l as [|c l]; simpl in E.
    + injection E as -> ->. by rewrite app_nil_r.
    + injection E as <- ->. exfalso. apply H1, Hw.
      apply elem_of_app. right. left.
  - destruct l as [|c l]; simpl in E.
    + injection E as -> ->. by rewrite app_nil_r.
    + injection E as <- ->. exfalso. apply H2, Hv.
      apply elem_of_app. right. left.
Qed.

Lemma name_char_not_space c : name_char c = true -> is_space c <> true.
Proof.
  unfold name_char. rewrite !andb_true_iff, !negb_true_iff.
  intros [[-> _] _]. done.
Qed.

Lemma assign_suffix_inj (P1 P2 nj nk v1 v2 w1 w2 : list N) :
  nj <> [] -> nk <> [] ->
  Forall (fun c => name_char c = true) nj ->
  Forall (fun c => name_char c = true) nk ->
  all_in CSpace v1 -> all_in CSpace v2 -> all_in CSpace w1 -> all_in CSpace w2 ->
  P1 ++ nj ++ v1 ++ equals :: v2 = P2 ++ nk ++ w1 ++ equals :: w2 ->
  P1 ++ nj = P2 ++ nk.
Proof.
  intros Hj Hk Hnj Hnk Hv1 Hv2 Hw1 Hw2 E.
  replace (P1 ++ nj ++ v1 ++ equals :: v2)
    with ((P1 ++ nj ++ v1) ++ equals :: v2) in E by reassoc.
  replace (P2 ++ nk ++ w1 ++ equals :: w2)
    with ((P2 ++ nk ++ w1) ++ equals :: w2) in E by reassoc.
  assert (~ is_space equals = true) as Heq by done.
  destruct (tail_inj (fun c => is_space c = true) _ _ _ _ _ _ Hv2 Hw2 Heq Heq E)
    as (E' & _ & _). clear E. rename E' into E.
  destruct (@exists_last _ nj Hj) as (nj0 & cj & ->).
  destruct (@exists_last _ nk Hk) as (nk0 & ck & ->).
  apply Forall_app in Hnj as [_ Hcj]. apply Forall_app in Hnk as [_ Hck].
  inversion Hcj as [|? ? Hcj1 _]; subst. inversion Hck as [|? ? Hck1 _]; subst.
  replace (P1 ++ (nj0 ++ [cj]) ++ v1) with ((P1 ++ nj0) ++ cj :: v1) in E by reassoc.
  replace (P2 ++ (nk0 ++ [ck]) ++ w1) with ((P2 ++ nk0) ++ ck :: w1) in E by reassoc.
  destruct (tail_inj (fun c => is_space c = true) _ _ _ _ _ _ Hv1 Hw1
              (name_char_not_space _ Hcj1)
              (name_char_not_space _ Hck1) E) as (E' & -> & _).
  rewrite !app_assoc. by rewrite E'.
Qed.

Lemma names_no_suffix j k :
  j ∈ all_names -> k ∈ all_names -> j <> k -> ~ self_ j `suffix_of` self_ k.
Proof.
  intros Hj Hk Hne.
  assert (List.forallb
            (fun j => List.forallb
               (fun k => bool_decide (j = k)
                         || negb (bool_decide (self_ j `suffix_of` self_ k)))
               all_names) all_names = true) as H by (by vm_compute).
  rewrite forallb_forall in H. apply list_elem_of_In in Hj, Hk.
  specialize (H j Hj). rewrite forallb_forall in H. specialize (H k Hk).
  apply orb_true_iff in H as [H|H].
  - by apply bool_decide_eq_true in H.
  - by apply negb_true_iff, bool_decide_eq_false in H.
Qed.

Lemma names_distinct_clash (P1 P2 : list N) j k :
  j ∈ all_names -> k ∈ all_names -> j <> k ->
  P1 ++ self_ j = P2 ++ self_ k -> False.
Proof.
  intros Hj Hk Hne E. apply List.app_eq_app in E as [l [[-> E]|[-> E]]].
  - apply (names_no_suffix j k Hj Hk Hne). by exists l.
  - apply (names_no_suffix k j Hk Hj); [done|]. by exists l.
Qed.

Lemma s_not_digdot : in_class CDigitDot 115 = false.
Proof. reflexivity. Qed.

Lemma head_in_drop (V : list N) n c r :
  drop n V = c :: r -> c ∈ V.
Proof.
  intros E. rewrite <- (take_drop n V), E. apply elem_of_app. right. left.
Qed.

Lemma assign_tail_no_digdot (w1 w2 : list N) :
  all_in CSpace w1 -> all_in CSpace w2 ->
  Forall (fun c => in_class CDigitDot c = false) (w1 ++ equals :: w2).
Proof.
  intros H1 H2. eapply Forall_impl; [by apply assign_tail_sep|].
  intros c. apply sep_not_digdot.
Qed.

Lemma assign_tail_nonempty (w1 w2 : list N) : w1 ++ equals :: w2 <> [].
Proof. by destruct w1. Qed.

(** A match of another parameter's pattern does not depend on the value
    assigned to [k]: it survives the exchange of the value [V] for any
    text [v]. *)
Lemma num_value_swap_num k j A w1 w2 V v R :
  k ∈ all_names -> j ∈ all_names -> j <> k ->
  all_in CSpace w1 -> all_in CSpace w2 ->
  all_in CDigitDot V -> V <> [] ->
  has_match (replace_num j) (A ++ (self_ k ++ w1 ++ equals :: w2) ++ V ++ R) ->
  has_match (replace_num j) (A ++ (self_ k ++ w1 ++ equals :: w2) ++ v ++ R).
Proof.
  intros Hk Hj Hne H1 H2 HV HVne Hh.
  destruct Hh as (a & r & Ha).
  assert (exists r, match_at (replace_num j)
            (drop a (A ++ (self_ k ++ w1 ++ equals :: w2) ++ V ++ R)) = Some r)
    as Hs by eauto.
  apply num_starts_iff in Hs as (v1 & v2 & d & s' & Es & Hv1 & Hv2 & Hd).
  replace (A ++ (self_ k ++ w1 ++ equals :: w2) ++ v ++ R)
    with (((A ++ self_ k) ++ w1 ++ equals :: w2) ++ v ++ R) by reassoc.
  replace (A ++ (self_ k ++ w1 ++ equals :: w2) ++ V ++ R)
    with (((A ++ self_ k) ++ w1 ++ equals :: w2) ++ V ++ R) in * by reassoc.
  set (X := (A ++ self_ k) ++ w1 ++ equals :: w2) in *.
  destruct (le_lt_dec (length X) a) as [HXa|HaX].
  - rewrite drop_app_ge in Es, Ha by done.
    destruct (le_lt_dec (length V) (a - length X)) as [HVa|HaV].
    + (* the match lies after the replaced value *)
      rewrite drop_app_ge in Ha by done.
      exists (length X + (length v + (a - length X - length V)))%nat, r.
      rewrite drop_app_ge by lia. rewrite drop_app_ge by lia.
      rewrite <- Ha. do 2 f_equal. lia.
    + (* a match cannot start inside the value *)
      exfalso. rewrite drop_app_le in Es by lia.
      destruct (drop (a - length X) V) as [|c r0] eqn:EV.
      { by apply drop_nonempty in EV. }
      apply head_in_drop in EV. unfold all_in in HV.
      rewrite Forall_forall in HV. apply HV in EV.
      rewrite self_head in Es. simpl in Es. injection Es as -> _.
      by rewrite s_not_digdot in EV.
  - rewrite drop_app_le in Es by lia.
    set (Yj := self_ j ++ v1 ++ equals :: v2) in *.
    replace (self_ j ++ v1 ++ equals :: v2 ++ d :: s') with (Yj ++ d :: s') in Es
      by (subst Yj; reassoc).
    destruct (le_lt_dec (length (drop a X)) (length Yj)) as [Hle|Hgt].
    + exfalso. symmetry in Es.
      apply app_eq_len_le in Es as (x & Ex & EVR); [|done].
      destruct x as [|d0 x'].
      * rewrite app_nil_r in Ex.
        assert (X = take a X ++ Yj) as EX by (by rewrite Ex, take_drop).
        subst X Yj.
        replace ((A ++ self_ k) ++ w1 ++ equals :: w2)
          with (A ++ self_ k ++ w1 ++ equals :: w2) in EX at 1 by reassoc.
        apply assign_suffix_inj in EX;
          [|apply names_nonempty|apply names_nonempty
           |by apply names_name_char|by apply names_name_char
           |done|done|done|done].
        apply (names_distinct_clash _ _ k j Hk Hj (not_eq_sym Hne) EX).
      * destruct V as [|d1 V']; [done|]. simpl in EVR. injection EVR as -> _.
        inversion HV as [|? ? Hd0 _]; subst.
        apply (adjacent_clash (self_ j) (v1 ++ equals :: v2) (drop a X) x' d0).
        -- by apply names_name_char.
        -- by apply assign_tail_no_digdot.
        -- by rewrite <- Ex.
        -- apply last_of_drop_sep;
             [apply assign_tail_nonempty | by apply assign_tail_sep | done].
        -- done.
    + replace (Yj ++ d :: s') with ((Yj ++ [d]) ++ s') in Es by reassoc.
      apply app_eq_len_le in Es as (x & Ex & _).
      2:{ rewrite length_app, length_cons, length_nil. lia. }
      assert (exists r, match_at (replace_num j) (drop a (X ++ v ++ R)) = Some r)
        as [r' Hr'].
      { apply num_starts_iff. exists v1, v2, d, (x ++ v ++ R).
        split; [|done]. rewrite drop_app_le by lia. rewrite Ex.
        subst Yj. reassoc. }
      by exists a, r'.
Qed.

Lemma num_sub_keeps_num k j v t :
  k ∈ all_names -> j ∈ all_names -> j <> k ->
  all_in CDigitDot v ->
  has_match (replace_num j) t ->
  has_match (replace_num j) (re_sub1 (replace_num k) [Group1; Literal v] t).
Proof.
  intros Hk Hj Hne Hv Hh.
  destruct (search_cases (replace_num k) t) as [Hn|(A & G & V & R & Hf)]; [done| |].
  { by rewrite re_sub1_no_match. }
  rewrite (re_sub1_first _ _ _ _ _ _ _ Hf). destruct Hf as (-> & Hm & _).
  apply num_shape_split in Hm as ((w1 & w2 & -> & H1 & H2) & HV & HVne & HR).
  by apply num_value_swap_num with V.
Qed.

(** Nor does the rewrite of [k] bring about a match of another parameter's
    pattern. *)
Lemma num_sub_no_new_num k j v t :
  k ∈ all_names -> j ∈ all_names -> j <> k ->
  all_in CDigitDot v -> v <> [] ->
  has_match (replace_num j) (re_sub1 (replace_num k) [Group1; Literal v] t) ->
  has_match (replace_num j) t.
Proof.
  intros Hk Hj Hne Hv Hvne Hh.
  destruct (search_cases (replace_num k) t) as [Hn|(A & G & V & R & Hf)]; [done| |].
  { by rewrite re_sub1_no_match in Hh. }
  rewrite (re_sub1_first _ _ _ _ _ _ _ Hf) in Hh. destruct Hf as (-> & Hm & _).
  apply num_shape_split in Hm as ((w1 & w2 & -> & H1 & H2) & HV & HVne & HR).
  by apply num_value_swap_num with v.
Qed.

Lemma digdots_no_quote (V : list N) : all_in CDigitDot V -> quote ∉ V.
Proof.
  intros H Hq. unfold all_in in H. rewrite Forall_forall in H.
  by specialize (H _ Hq).
Qed.

Lemma colour_in_all : "colour_detection"%string ∈ all_names.
Proof. apply elem_of_app. right. left. Qed.

Lemma num_value_swap_colour k A w1 w2 V v R :
  k ∈ all_names ->
  all_in CSpace w1 -> all_in CSpace w2 ->
  all_in CDigitDot V -> V <> [] -> all_in CDigitDot v ->
  has_match replace_colour (A ++ (self_ k ++ w1 ++ equals :: w2) ++ V ++ R) ->
  has_match replace_colour (A ++ (self_ k ++ w1 ++ equals :: w2) ++ v ++ R).
Proof.
  intros Hk H1 H2 HV HVne Hv Hh.
  destruct Hh as (a & r & Ha).
  assert (exists r, match_at replace_colour
            (drop a (A ++ (self_ k ++ w1 ++ equals :: w2) ++ V ++ R)) = Some r)
    as Hs by eauto.
  apply colour_starts_iff in Hs as (v1 & v2 & s' & Es & Hv1 & Hv2 & Hq).
  replace (A ++ (self_ k ++ w1 ++ equals :: w2) ++ v ++ R)
    with (((A ++ self_ k) ++ w1 ++ equals :: w2) ++ v ++ R) by reassoc.
  replace (A ++ (self_ k ++ w1 ++ equals :: w2) ++ V ++ R)
    with (((A ++ self_ k) ++ w1 ++ equals :: w2) ++ V ++ R) in * by reassoc.
  set (X := (A ++ self_ k) ++ w1 ++ equals :: w2) in *.
  destruct (le_lt_dec (length X) a) as [HXa|HaX].
  - rewrite drop_app_ge in Es, Ha by done.
    destruct (le_lt_dec (length V) (a - length X)) as [HVa|HaV].
    + rewrite drop_app_ge in Ha by done.
      exists (length X + (length v + (a - length X - length V)))%nat, r.
      rewrite drop_app_ge by lia. rewrite drop_app_ge by lia.
      rewrite <- Ha. do 2 f_equal. lia.
    + exfalso. rewrite drop_app_le in Es by lia.
      destruct (drop (a - length X) V) as [|c r0] eqn:EV.
      { by apply drop_nonempty in EV. }
      apply head_in_drop in EV. unfold all_in in HV.
      rewrite Forall_forall in HV. apply HV in EV.
      rewrite self_head in Es. simpl in Es. injection Es as -> _.
      by rewrite s_not_digdot in EV.
  - rewrite drop_app_le in Es by lia.
    set (Yq := self_ "colour_detection" ++ v1 ++ equals :: v2 ++ [quote]) in *.
    replace (self_ "colour_detection" ++ v1 ++ equals :: v2 ++ quote :: s')
      with (Yq ++ s') in Es by (subst Yq; reassoc).
    destruct (le_lt_dec (length Yq) (length (drop a X))) as [Hle|Hgt].
    + apply app_eq_len_le in Es as (x & Ex & ->); [|done].
      assert (exists r, match_at replace_colour (drop a (X ++ v ++ R)) = Some r)
        as [r' Hr'].
      { apply colour_starts_iff. exists v1, v2, (x ++ v ++ R).
        split; [rewrite drop_app_le by lia; rewrite Ex; subst Yq; reassoc|].
        split; [done|]. split; [done|].
        rewrite !elem_of_app in *. destruct Hq as [?|[Hq|?]]; auto.
        by apply digdots_no_quote in Hq. }
      by exists a, r'.
    + exfalso. symmetry in Es.
      apply app_eq_len_le in Es as (x & Ex & EVR); [|lia].
      destruct x as [|d0 x'].
      { rewrite app_nil_r in Ex. rewrite Ex in Hgt. lia. }
      destruct V as [|d1 V']; [done|]. simpl in EVR. injection EVR as -> _.
      inversion HV as [|? ? Hd0 _]; subst.
      apply (adjacent_clash (self_ "colour_detection")
               (v1 ++ equals :: v2 ++ [quote]) (drop a X) x' d0).
      * apply names_name_char, colour_in_all.
      * replace (v1 ++ equals :: v2 ++ [quote])
          with ((v1 ++ equals :: v2) ++ [quote]) by reassoc.
        apply Forall_app. split; [by apply assign_tail_no_digdot|].
        by constructor.
      * by rewrite <- Ex.
      * apply last_of_drop_sep;
          [apply assign_tail_nonempty | by apply assign_tail_sep | done].
      * done.
Qed.

Lemma num_sub_keeps_colour k v t :
  k ∈ all_names -> all_in CDigitDot v ->
  has_match replace_colour t ->
  has_match replace_colour (re_sub1 (replace_num k) [Group1; Literal v] t).
Proof.
  intros Hk Hv Hh.
  destruct (search_cases (replace_num k) t) as [Hn|(A & G & V & R & Hf)]; [done| |].
  { by rewrite re_sub1_no_match. }
  rewrite (re_sub1_first _ _ _ _ _ _ _ Hf). destruct Hf as (-> & Hm & _).
  apply num_shape_split in Hm as ((w1 & w2 & -> & H1 & H2) & HV & HVne & HR).
  by apply num_value_swap_colour with V.
Qed.

Lemma num_sub_no_new_colour k v t :
  k ∈ all_names -> all_in CDigitDot v -> v <> [] ->
  has_match replace_colour (re_sub1 (replace_num k) [Group1; Literal v] t) ->
  has_match replace_colour t.
Proof.
  intros Hk Hv Hvne Hh.
  destruct (search_cases (replace_num k) t) as [Hn|(A & G & V & R & Hf)]; [done| |].
  { by rewrite re_sub1_no_match in Hh. }
  rewrite (re_sub1_first _ _ _ _ _ _ _ Hf) in Hh. destruct Hf as (-> & Hm & _).
  apply num_shape_split in Hm as ((w1 & w2 & -> & H1 & H2) & HV & HVne & HR).
  by apply num_value_swap_colour with v.
Qed.

(** * The numeric rules *)

Lemma num_sub_keeps_self k v t :
  all_in CDigitDot v -> v <> [] ->
  has_match (replace_num k) t ->
  has_match (replace_num k) (re_sub1 (replace_num k) [Group1; Literal v] t).
Proof.
  intros Hv Hne Hh.
  apply has_match_first in Hh as (A & G & V & R & Hf); [|done].
  rewrite (re_sub1_first _ _ _ _ _ _ _ Hf). destruct Hf as (-> & Hm & _).
  apply num_shape_split in Hm as ((w1 & w2 & -> & H1 & H2) & _).
  destruct v as [|d v']; [done|]. inversion Hv as [|? ? Hd _]; subst.
  exists (length A). rewrite drop_app_length.
  apply num_starts_iff. exists w1, w2, d, (v' ++ R).
  split; [reassoc|]. done.
Qed.

Ltac name_in :=
  unfold num_names;
  repeat first [apply list_elem_of_here | apply list_elem_of_further].

Lemma replacements_split p :
  replacements p
  = map num_rule (num_values p)
    ++ [(replace_colour,
         [Group1; Literal (colour_text (colour_detection p) ++ [quote])])].
Proof. reflexivity. Qed.

Lemma num_values_good p : Forall good_value (num_values p).
Proof.
  unfold num_values.
  repeat (constructor;
          [split; [cbn [fst]; name_in
                  | split; [apply fixed_all | apply fixed_nonempty]]|]).
  constructor.
Qed.

Lemma stops_take k n (S : list N) : stops k S -> stops k (take n S).
Proof. destruct S, n; simpl; auto. Qed.

Lemma occurs_at_cut (mk P X : list N) j n :
  (j < length P)%nat -> (length mk <= S n)%nat ->
  occurs_at mk (P ++ X) j -> occurs_at mk (P ++ take n X) j.
Proof.
  intros Hj Hn Ho. pose proof Ho as Hl.
  apply occurs_at_take_drop in Hl as [Hl _]. rewrite length_app in Hl.
  rewrite <- (take_drop n X), app_assoc in Ho.
  apply (occurs_at_in_prefix _ _ _ []) in Ho.
  - by rewrite app_nil_r in Ho.
  - rewrite length_app, length_take. lia.
Qed.

Lemma occurs_at_uncut (mk P X : list N) j n :
  occurs_at mk (P ++ take n X) j -> occurs_at mk (P ++ X) j.
Proof.
  intros Ho. pose proof Ho as Hl. apply occurs_at_take_drop in Hl as [Hl _].
  rewrite <- (take_drop n X), app_assoc.
  rewrite <- (app_nil_r (P ++ take n X)) in Ho.
  by apply (occurs_at_in_prefix _ _ []).
Qed.

Lemma re_search_has_match p t :
  is_Some (re_search p t) -> has_match p t.
Proof.
  intros [m H]. apply search_from_Some in H as (i & n1 & n2 & n3 & _ & _ & Hm & _).
  by exists i, (n1, n2, n3).
Qed.

(** * The parameter rewrite is local to a header that covers the text *)

Lemma patterns_cases p :
  p ∈ patterns ->
  (exists j, j ∈ num_names /\ p = replace_num j) \/ p = replace_colour.
Proof.
  unfold patterns. rewrite elem_of_app, list_elem_of_singleton.
  intros [Hp| ->]; [left|by right].
  apply list_elem_of_In, in_map_iff in Hp as (j & <- & Hj).
  exists j. split; [by apply list_elem_of_In|done].
Qed.

Lemma replace_num_in_patterns k : k ∈ num_names -> replace_num k ∈ patterns.
Proof.
  intros Hk. apply elem_of_app. left.
  apply list_elem_of_In, in_map. by apply list_elem_of_In.
Qed.

Lemma replace_colour_in_patterns : replace_colour ∈ patterns.
Proof. apply elem_of_app. right. left. Qed.

Lemma has_match_dec p t : {has_match p t} + {no_match p t}.
Proof.
  destruct (re_search p t) eqn:E.
  - left. apply re_search_has_match. by rewrite E.
  - right. by apply re_search_None.
Qed.

Lemma no_match_not_has p t : no_match p t -> ~ has_match p t.
Proof. intros Hn (j & r & Hj). by rewrite Hn in Hj. Qed.

(** A match stays a match when the text is continued. *)
Lemma has_match_app p h rest :
  p ∈ patterns -> has_match p h -> has_match p (h ++ rest).
Proof.
  intros Hp (a & r & Ha).
  assert (exists r, match_at p (drop a h) = Some r) as Hs by eauto.
  assert (drop a h <> [] -> drop a (h ++ rest) = drop a h ++ rest) as Hd.
  { intros Hne. apply drop_app_le. destruct (le_lt_dec a (length h)); [done|].
    by rewrite drop_ge in Hne by lia. }
  apply patterns_cases in Hp as [(j & Hj & ->)| ->].
  - apply num_starts_iff in Hs as (w1 & w2 & d & s' & Es & H1 & H2 & Hdd).
    assert (exists r, match_at (replace_num j) (drop a (h ++ rest)) = Some r)
      as [r' Hr'].
    { apply num_starts_iff. exists w1, w2, d, (s' ++ rest). split; [|done].
      rewrite Hd by (by rewrite Es, self_head). rewrite Es. reassoc. }
    by exists a, r'.
  - apply colour_starts_iff in Hs as (w1 & w2 & s' & Es & H1 & H2 & Hq).
    assert (exists r, match_at replace_colour (drop a (h ++ rest)) = Some r)
      as [r' Hr'].
    { apply colour_starts_iff. exists w1, w2, (s' ++ rest).
      split; [|by rewrite elem_of_app; auto].
      rewrite Hd by (by rewrite Es, self_head). rewrite Es. reassoc. }
    by exists a, r'.
Qed.

(** The rewrite of a numeric parameter keeps the matches of every pattern
    and brings about none. *)
Lemma num_sub_keeps k v p t :
  k ∈ num_names -> all_in CDigitDot v -> v <> [] -> p ∈ patterns ->
  has_match p t ->
  has_match p (re_sub1 (replace_num k) [Group1; Literal v] t).
Proof.
  intros Hk Hv Hne Hp Hh. apply patterns_cases in Hp as [(j & Hj & ->)| ->].
  - destruct (decide (j = k)) as [->|Hjk].
    + by apply num_sub_keeps_self.
    + apply num_sub_keeps_num; auto using num_in_all.
  - apply num_sub_keeps_colour; auto using num_in_all.
Qed.

Lemma num_sub_no_new k v p t :
  k ∈ num_names -> all_in CDigitDot v -> v <> [] -> p ∈ patterns ->
  has_match p (re_sub1 (replace_num k) [Group1; Literal v] t) ->
  has_match p t.
Proof.
  intros Hk Hv Hne Hp Hh. apply patterns_cases in Hp as [(j & Hj & ->)| ->].
  - destruct (decide (j = k)) as [->|Hjk].
    + destruct (has_match_dec (replace_num k) t) as [|Hn]; [done|].
      by rewrite re_sub1_no_match in Hh.
    + apply (num_sub_no_new_num k j v); auto using num_in_all.
  - apply (num_sub_no_new_colour k v); auto using num_in_all.
Qed.

Lemma covered_no_match p h S :
  covered h S -> p ∈ patterns -> no_match p h -> no_match p (h ++ S).
Proof.
  intros Hc Hp Hn.
  destruct (has_match_dec p (h ++ S)) as [Hm|]; [|done].
  apply Hc in Hm; [|done]. by apply no_match_not_has in Hn.
Qed.

Lemma re_sub1_num_covered k v h S :
  k ∈ num_names -> all_in CDigitDot v -> v <> [] ->
  covered h S -> stops CDigitDot S ->
  re_sub1 (replace_num k) [Group1; Literal v] (h ++ S)
  = re_sub1 (replace_num k) [Group1; Literal v] h ++ S
  /\ covered (re_sub1 (replace_num k) [Group1; Literal v] h) S.
Proof.
  intros Hk Hv Hne Hc HS.
  destruct (has_match_dec (replace_num k) h) as [Hh|Hn].
  - assert (re_sub1 (replace_num k) [Group1; Literal v] (h ++ S)
            = re_sub1 (replace_num k) [Group1; Literal v] h ++ S) as E
      by (apply re_sub1_num_local; auto using num_in_all).
    split; [done|]. intros p Hp Hm. rewrite <- E in Hm.
    apply num_sub_keeps; auto. apply Hc; [done|].
    by apply num_sub_no_new in Hm.
  - pose proof (covered_no_match _ _ _ Hc (replace_num_in_patterns _ Hk) Hn).
    by rewrite !re_sub1_no_match by done.
Qed.

Lemma substitute_nums_covered (kvs : list (string * list N)) h S :
  Forall good_value kvs -> covered h S -> stops CDigitDot S ->
  substitute (map num_rule kvs) (h ++ S) = substitute (map num_rule kvs) h ++ S
  /\ covered (substitute (map num_rule kvs) h) S.
Proof.
  intros Hk. revert h. induction Hk as [|[k v] kvs (Hn & Hv & Hne) _ IH];
    intros h Hh HS; [done|].
  unfold substitute in *. cbn [map fold_left num_rule fst snd] in *.
  destruct (re_sub1_num_covered k v h S) as [E Hc]; auto.
  rewrite E. by apply IH.
Qed.

(** The parameter rewrite of [h ++ S] is the parameter rewrite of [h],
    followed by [S], when [h] covers the text. *)
Lemma substitute_covered p h S :
  covered h S -> stops CDigitDot S ->
  substitute (replacements p) (h ++ S) = substitute (replacements p) h ++ S.
Proof.
  intros Hh HS. rewrite replacements_split. unfold substitute.
  rewrite !fold_left_app.
  destruct (substitute_nums_covered _ h S (num_values_good p) Hh HS) as [E Hc].
  unfold substitute in E, Hc. rewrite E. cbn [fold_left fst snd].
  destruct (has_match_dec replace_colour
              (fold_left (fun c r => re_sub1 r.1 r.2 c)
                         (map num_rule (num_values p)) h)) as [Hm|Hn].
  - by apply re_sub1_colour_local.
  - pose proof (covered_no_match _ _ _ Hc replace_colour_in_patterns Hn).
    by rewrite !re_sub1_no_match by done.
Qed.

Lemma covered_take h S n : covered h S -> covered h (take n S).
Proof.
  intros Hc p Hp Hm. apply Hc; [done|].
  rewrite <- (take_drop n S), app_assoc. by apply has_match_app.
Qed.

Lemma covered_intro h S : covered_b h S = true -> covered h S.
Proof.
  unfold covered_b. rewrite forallb_forall. intros H p Hp Hm.
  apply list_elem_of_In, H in Hp.
  destruct (re_search p (h ++ S)) eqn:E.
  - rewrite bool_decide_eq_true_2 in Hp by eauto. simpl in Hp.
    apply re_search_has_match. by apply bool_decide_eq_true in Hp.
  - apply re_search_None in E. by apply no_match_not_has in E.
Qed.

(** The parameter rewrite moves a marker found at or after the end of a
    covering header by the change of the header's length. *)
Lemma find_substitute_shift_covered mk p H S k :
  marker_like mk -> mk <> [] -> covered H S -> stops CDigitDot S ->
  find mk (H ++ S) = Some (length H + k)%nat ->
  find mk (substitute (replacements p) (H ++ S))
  = Some (length (substitute (replacements p) H) + k)%nat.
Proof.
  intros Hmk Hne Ha HS Hf. rewrite substitute_covered by done.
  apply find_Some in Hf as [Ho Hmin]. apply find_Some. split.
  - apply occurs_at_take_drop in Ho as [Hl E].
    rewrite length_app in Hl. rewrite drop_app_ge in E by lia.
    apply occurs_at_take_drop. rewrite length_app. split; [lia|].
    rewrite drop_app_ge by lia.
    replace (length H + k - length H)%nat with k in E by lia.
    by replace (length (substitute (replacements p) H) + k
                - length (substitute (replacements p) H))%nat with k by lia.
  - intros j Hj Hoj.
    destruct (le_lt_dec (length (substitute (replacements p) H)) j) as [Hge|Hlt].
    + apply (Hmin (length H + (j - length (substitute (replacements p) H)))%nat);
        [lia|].
      apply occurs_at_take_drop in Hoj as [Hl E].
      rewrite length_app in Hl. rewrite drop_app_ge in E by lia.
      apply occurs_at_take_drop. rewrite length_app. split; [lia|].
      rewrite drop_app_ge by lia.
      by replace (length H + (j - length (substitute (replacements p) H))
                  - length H)%nat
        with (j - length (substitute (replacements p) H))%nat by lia.
    + apply (occurs_at_cut _ _ _ _ (length mk - 1)) in Hoj; [|done|lia].
      rewrite <- substitute_covered in Hoj
        by (by try apply stops_take; try apply covered_take).
      assert (occurs mk (H ++ take (length mk - 1) S)) as [j' Hj'].
      { apply (substitute_no_new _ p); [done|]. by exists j. }
      pose proof Hj' as Hl. apply occurs_at_take_drop in Hl as [Hl _].
      rewrite length_app, length_take in Hl.
      assert (length mk <> 0)%nat by (by destruct mk).
      apply occurs_at_uncut in Hj'. apply (Hmin j'); [lia|done].
Qed.

Lemma marker_start_stops (X : list N) : stops CDigitDot (marker_start ++ X).
Proof. reflexivity. Qed.

Lemma splice_at (lg : option (list N)) (H L T : list N) :
  find marker_start (H ++ marker_start ++ L ++ marker_end ++ T)
  = Some (length H) ->
  find marker_end (H ++ marker_start ++ L ++ marker_end ++ T)
  = Some (length (H ++ marker_start ++ L)) ->
  splice lg (H ++ marker_start ++ L ++ marker_end ++ T)
  = H ++ marker_start
    ++ match lg with Some X => X ++ [nl] | None => L end
    ++ marker_end ++ T.
Proof.
  intros Hs He. unfold splice. rewrite Hs, He. destruct lg as [X|]; [|done].
  replace (H ++ marker_start ++ L ++ marker_end ++ T)
    with ((H ++ marker_start) ++ L ++ marker_end ++ T) at 1 by reassoc.
  rewrite <- (length_app H marker_start), take_app_length.
  replace (H ++ marker_start ++ L ++ marker_end ++ T)
    with ((H ++ marker_start ++ L) ++ marker_end ++ T) by reassoc.
  rewrite drop_app_length. reassoc.
Qed.

Lemma write_params_present (s : App) code :
  disk s !! MOVEMENT_PY = Some code ->
  write_params_to_movement_py s
  = (Ret tt, set_disk (<[MOVEMENT_PY := substitute (replacements (spins s)) code]>
                         (disk s)) s).
Proof.
  intros H. unfold write_params_to_movement_py, mbind, M_bind, gets, modify.
  by rewrite H.
Qed.

(** C1, as stated, fails: with no assignment of [forward_speed] in the
    artifact's header the first match of its pattern lies in the logic
    region, and the parameter rewrite changes it there; the splice, finding
    no logic in the Simple View, leaves the file as rewritten. *)
Lemma reconcile_rewrites_headless_logic :
  forward_speed (spins headless_state) = 30
  /\ extract_simple_view_logic (simple_editor headless_state) = None
  /\ disk headless_state !! MOVEMENT_PY
     = Some (txt "# parameters removed" ++ [nl] ++ marker_start
             ++ txt "        self.forward_speed = 0.10" ++ [nl]
             ++ marker_end ++ [nl])
  /\ disk (snd (reconcile headless_state)) !! MOVEMENT_PY
     = Some (txt "# parameters removed" ++ [nl] ++ marker_start
             ++ txt "        self.forward_speed = 0.30" ++ [nl]
             ++ marker_end ++ [nl]).
Proof.
  split; [done|]. split; [by vm_compute|]. split; [done|].
  rewrite (reconcile_present _ headless_artifact) by done.
  unfold set_disk, headless_state. simpl. rewrite lookup_insert_eq.
  by vm_compute.
Qed.

(** C1, amended: for an artifact [H ++ start marker ++ L ++ end marker ++ T]
    whose markers are the first of their kind and in which every parameter
    assigned anywhere (its assignment pattern matching) is assigned in the
    header [H], the parameter rewrite changes the header only, and
    reconciliation leaves between the markers either [L] itself (the Simple
    View yields no logic) or the Simple View's logic followed by a
    newline. *)
Theorem reconcile_keeps_logic (s : App) (H L T : list N) :
  disk s !! MOVEMENT_PY = Some (H ++ marker_start ++ L ++ marker_end ++ T) ->
  covered H (marker_start ++ L ++ marker_end ++ T) ->
  find marker_start (H ++ marker_start ++ L ++ marker_end ++ T)
  = Some (length H) ->
  find marker_end (H ++ marker_start ++ L ++ marker_end ++ T)
  = Some (length (H ++ marker_start ++ L)) ->
  write_params_to_movement_py s
  = (Ret tt,
     set_disk (<[MOVEMENT_PY := substitute (replacements (spins s)) H
                                ++ marker_start ++ L ++ marker_end ++ T]>
                 (disk s)) s)
  /\ reconcile s
     = (Ret tt,
        set_disk (<[MOVEMENT_PY :=
                      substitute (replacements (spins s)) H ++ marker_start
                      ++ match extract_simple_view_logic (simple_editor s) with
                         | Some X => X ++ [nl]
                         | None => L
                         end
                      ++ marker_end ++ T]> (disk s)) s).
Proof.
  intros Hd Ha Hs He.
  pose proof (marker_start_stops (L ++ marker_end ++ T)) as Hst.
  pose proof (substitute_covered (spins s) H _ Ha Hst) as E.
  split.
  - rewrite (write_params_present _ _ Hd). by rewrite E.
  - rewrite (reconcile_present _ _ Hd). do 3 f_equal.
    unfold reconciled.
    rewrite <- (Nat.add_0_r (length H)) in Hs.
    apply (find_substitute_shift_covered _ (spins s)) in Hs;
      [|apply marker_start_like|done|done|done].
    replace (length (H ++ marker_start ++ L))
      with (length H + length (marker_start ++ L))%nat in He
      by (rewrite !length_app; lia).
    apply (find_substitute_shift_covered _ (spins s)) in He;
      [|apply marker_end_like|done|done|done].
    rewrite E in *. rewrite Nat.add_0_r in Hs. apply splice_at; [done|].
    rewrite He. f_equal. rewrite !length_app. lia.
Qed.

Lemma reconcile_keeps_logic_witness :
  write_params_to_movement_py lean_state
  = (Ret tt,
     set_disk (<[MOVEMENT_PY := substitute (replacements (spins lean_state))
                                           lean_header
                                ++ marker_start ++ sample_logic ++ marker_end
                                ++ [nl]]>
                 (disk lean_state)) lean_state)
  /\ reconcile lean_state
     = (Ret tt,
        set_disk (<[MOVEMENT_PY :=
                      substitute (replacements (spins lean_state)) lean_header
                      ++ marker_start
                      ++ match extract_simple_view_logic
                                 (simple_editor lean_state) with
                         | Some X => X ++ [nl]
                         | None => sample_logic
                         end
                      ++ marker_end ++ [nl]]> (disk lean_state)) lean_state).
Proof.
  apply (reconcile_keeps_logic lean_state lean_header sample_logic [nl]).
  - reflexivity.
  - apply covered_intro. by vm_compute.
  - by vm_compute.
  - by vm_compute.
Defined.

(** C2, a defect of the code: [_sync_simple_view_from_spinboxes] is meant
    to update the first occurrence of each parameter and to leave the logic
    section untouched, but the value part of its colour pattern runs to the
    next double quote, across lines.  In a text whose colour assignment
    lacks its closing quote, the first assignment of [forward_speed] is
    updated to 0.40, and the separator, the later assignment and the logic
    up to the next double quote are deleted. *)
Lemma in_place_substitution_swallows_later_assignment :
  forward_speed (spins unclosed_state) = 40
  /\ occurs_at (txt "self.forward_speed = 0.10") (simple_editor unclosed_state) 0
  /\ occurs_at (txt "self.forward_speed = 0.10") (simple_editor unclosed_state) 80
  /\ extract_simple_view_logic (simple_editor unclosed_state)
     = Some (txt "self.forward_speed = 0.10" ++ [nl]
             ++ txt "print(" ++ [quote] ++ txt "x" ++ [quote] ++ txt ")")
  /\ simple_editor (snd (sync_simple_view_from_spinboxes unclosed_state))
     = txt "self.forward_speed = 0.40" ++ [nl]
       ++ txt "self.colour_detection = " ++ [quote] ++ txt "Red" ++ [quote]
       ++ txt "x" ++ [quote] ++ txt ")" ++ [nl]
  /\ ~ occurs (txt "self.forward_speed = 0.10")
         (simple_editor (snd (sync_simple_view_from_spinboxes unclosed_state)))
  /\ extract_simple_view_logic
       (simple_editor (snd (sync_simple_view_from_spinboxes unclosed_state)))
     = None.
Proof.
  split; [done|].
  split; [apply occurs_at_take_drop; split; [vm_compute; lia | by vm_compute]|].
  split; [apply occurs_at_take_drop; split; [vm_compute; lia | by vm_compute]|].
  split; [by vm_compute|].
  split; [by vm_compute|].
  split; [apply find_None; by vm_compute|].
  by vm_compute.
Qed.

(** * Parsing a formatted number *)

Lemma digit_value_ascii k : k < 10 -> digit_value (48 + k) = Some k.
Proof.
  intros H. unfold digit_value, decimal_zeros. cbn [decimal_in].
  replace (48 <=? 48 + k) with true by (symmetry; apply N.leb_le; lia).
  replace (48 + k <? 48 + 10) with true by (symmetry; apply N.ltb_lt; lia).
  simpl. f_equal. lia.
Qed.

Lemma digits_val_snoc (X : list N) c acc :
  digits_val (X ++ [c]) acc
  = a ← digits_val X acc; v ← digit_value c; Some (10 * a + v).
Proof.
  revert acc. induction X as [|x X IH]; intros acc; simpl.
  - by destruct (digit_value c).
  - destruct (digit_value x); [apply IH|done].
Qed.

Lemma digits_val_digits_fuel fuel n :
  n < 10 ^ N.of_nat fuel -> digits_val (digits_fuel fuel n) 0 = Some n.
Proof.
  revert n. induction fuel as [|f IH]; intros n Hn.
  - simpl in *. f_equal. lia.
  - cbn [digits_fuel]. destruct (n <? 10) eqn:E.
    + apply N.ltb_lt in E. simpl. rewrite digit_value_ascii by done.
      simpl. f_equal; lia.
    + rewrite digits_val_snoc, IH.
      * simpl. rewrite digit_value_ascii by (apply N.mod_lt; lia). simpl.
        f_equal. pose proof (N.div_mod n 10). lia.
      * rewrite Nat2N.inj_succ, N.pow_succ_r' in Hn.
        apply N.Div0.div_lt_upper_bound. lia.
Qed.

Lemma pos_size_bound p : N.pos p < 2 ^ N.of_nat (Pos.size_nat p).
Proof.
  induction p as [p IH|p IH|]; cbn [Pos.size_nat];
    rewrite ?Nat2N.inj_succ, ?N.pow_succ_r'; lia.
Qed.

Lemma size_bound n : n < 10 ^ N.of_nat (S (N.size_nat n)).
Proof.
  destruct n as [|p]; [done|].
  pose proof (pos_size_bound p) as H. cbn [N.size_nat].
  eapply N.lt_le_trans; [exact H|].
  rewrite Nat2N.inj_succ, N.pow_succ_r'.
  etrans; [apply (N.pow_le_mono_l 2 10); lia|].
  assert (0 < 10 ^ N.of_nat (N.size_nat (N.pos p))); [|lia].
  apply N.neq_0_lt_0, N.pow_nonzero. lia.
Qed.

Lemma digits_val_decimal n : digits_val (decimal n) 0 = Some n.
Proof. apply digits_val_digits_fuel, size_bound. Qed.

Lemma digits_val_pad (X : list N) q d r :
  digits_val X 0 = Some q ->
  digits_val (X ++ pad d r) 0 = Some (q * 10 ^ N.of_nat d + r mod 10 ^ N.of_nat d).
Proof.
  intros HX. revert r. induction d as [|d IH]; intros r.
  - simpl. rewrite app_nil_r, HX. f_equal. rewrite N.mod_1_r. lia.
  - cbn [pad]. rewrite app_assoc, digits_val_snoc, IH. simpl.
    rewrite digit_value_ascii by (apply N.mod_lt; lia). simpl. f_equal.
    rewrite Nat2N.inj_succ, N.pow_succ_r'.
    rewrite (N.Div0.mod_mul_r r 10). lia.
Qed.

Lemma until_dot_app (X Y : list N) :
  Forall (fun c => c <> dot) X -> until_dot (X ++ dot :: Y) = (X, dot :: Y).
Proof.
  induction 1 as [|c X Hc _ IH]; simpl; [done|].
  destruct (c =? dot) eqn:E; [by apply N.eqb_eq in E|]. by rewrite IH.
Qed.

Lemma digits_fuel_no_dot fuel n : Forall (fun c => c <> dot) (digits_fuel fuel n).
Proof.
  revert n. induction fuel as [|f IH]; intros n; cbn [digits_fuel]; [constructor|].
  destruct (n <? 10); [constructor; [cbv beta; unfold dot; lia|constructor]|].
  apply Forall_app. split; [apply IH|].
  constructor; [cbv beta; unfold dot; generalize (n mod 10); lia|constructor].
Qed.

Lemma length_pad d r : length (pad d r) = d.
Proof.
  revert r. induction d as [|d IH]; intros r; simpl; [done|].
  rewrite length_app, IH. simpl. lia.
Qed.

Lemma decimal_nonempty n : decimal n <> [].
Proof.
  unfold decimal. simpl. destruct (n <? 10); [done|]. by intros [_ ?]%app_eq_nil.
Qed.

(** [float(f'{x:.df}')] is [x] again. *)
Lemma py_float_fixed d n : py_float (fixed d n) = Some (n, d).
Proof.
  unfold py_float, fixed. rewrite until_dot_app by apply digits_fuel_no_dot.
  destruct (decimal _ ++ pad _ _) as [|c r] eqn:E.
  { apply app_eq_nil in E as [E _]. by apply decimal_nonempty in E. }
  rewrite <- E. rewrite (digits_val_pad _ _ _ _ (digits_val_decimal _)).
  simpl. rewrite length_pad. do 2 f_equal.
  set (t := 10 ^ N.of_nat d).
  assert (t <> 0) as Ht by (apply N.pow_nonzero; lia).
  rewrite N.Div0.mod_mod. pose proof (N.div_mod n t Ht). lia.
Qed.

(** The model of [setValue] stores a value of the box's range and
    decimals as it is. *)
Lemma qt_setValue_exact c n : within c n -> qt_setValue c (n, decimals c) = n.
Proof.
  intros [H1 H2]. unfold qt_setValue.
  set (t := 10 ^ N.of_nat (decimals c)).
  assert (t <> 0) as Ht by (apply N.pow_nonzero; lia).
  replace ((2 * n * t + t) / (2 * t)) with n; [lia|].
  apply (N.div_unique _ _ _ t); lia.
Qed.

Lemma generate_simple_code_lines p :
  generate_simple_code p
  = preamble ++ line_forward_speed p ++ line_backward_speed p
    ++ line_turn_speed p ++ line_obstacle_distance p ++ line_turn_cw p
    ++ line_turn_acw p ++ line_colour_detection p ++ logic_template.
Proof.
  unfold generate_simple_code, line_forward_speed, line_backward_speed,
    line_turn_speed, line_obstacle_distance, line_turn_cw, line_turn_acw,
    line_colour_detection, param_line.
  rewrite <- !app_assoc. reflexivity.
Qed.

(** * Searching the generated text *)

Lemma clash_b_prefix (pat l rest : list N) :
  clash_b pat l = true -> is_prefix pat (l ++ rest) = false.
Proof.
  revert l. induction pat as [|a pat IH]; intros [|b l]; simpl; try done.
  destruct (a =? b); [apply IH|done].
Qed.

Lemma no_start_lit (pat L : list N) : never_starts pat L = true -> no_start pat L.
Proof.
  unfold never_starts. rewrite forallb_forall. intros H rest j Hj.
  rewrite drop_app_le by lia. apply clash_b_prefix, H, in_seq. lia.
Qed.

Lemma no_start_app (pat A B : list N) :
  no_start pat A -> no_start pat B -> no_start pat (A ++ B).
Proof.
  intros HA HB rest j Hj. rewrite <- app_assoc.
  destruct (le_lt_dec (length A) j) as [Hge|Hlt]; [|by apply HA].
  rewrite drop_app_ge by done. apply HB. rewrite length_app in Hj. lia.
Qed.

Lemma no_start_digits name (V : list N) :
  all_in CDigitDot V -> no_start (self_ name) V.
Proof.
  intros HV rest j Hj. rewrite drop_app_le by lia.
  destruct (drop j V) as [|c r] eqn:E; [by apply drop_nonempty in E|].
  apply head_in_drop in E. unfold all_in in HV. rewrite Forall_forall in HV.
  apply HV in E. rewrite self_head. cbn [is_prefix app].
  destruct (115 =? c) eqn:Ec; [|done]. apply N.eqb_eq in Ec as <-.
  by rewrite s_not_digdot in E.
Qed.

Lemma num_shape_prefix name s g e :
  num_shape name s g e -> is_prefix (self_ name) s = true.
Proof. intros (w1 & w2 & D & R & -> & _). apply is_prefix_app. Qed.

Lemma colour_shape_prefix s g e :
  colour_shape s g e -> is_prefix (self_ "colour_detection") s = true.
Proof. intros (w1 & w2 & C & R & -> & _). apply is_prefix_app. Qed.

Lemma group1_at (A G V R : list N) (a b : nat) :
  group1 (Mtch a (length A + length G)
               (length A + (length G + length V)) b)
         (A ++ G ++ V ++ R) = V.
Proof.
  unfold group1, slice. cbn [g_start g_end].
  replace (A ++ G ++ V ++ R) with ((A ++ G) ++ V ++ R) by reassoc.
  rewrite <- (length_app A G), drop_app_length.
  replace (length A + (length G + length V) - length (A ++ G))%nat
    with (length V) by (rewrite length_app; lia).
  by rewrite take_app_length.
Qed.

(** The search for a numeric parameter finds the assignment [A] stops
    before, and captures its value. *)
Lemma extract_num_search name (A V R : list N) :
  no_start (self_ name) A ->
  all_in CDigitDot V -> V <> [] -> stops CDigitDot R ->
  exists m,
    re_search (extract_num name) (A ++ (self_ name ++ txt " = ") ++ V ++ R) = Some m
    /\ group1 m (A ++ (self_ name ++ txt " = ") ++ V ++ R) = V.
Proof.
  intros HA HV Hne HR.
  set (G := self_ name ++ txt " = ").
  assert (match_at (extract_num name) (G ++ V ++ R)
          = Some (length G, (length G + length V)%nat, (length G + length V)%nat))
    as Hm.
  { apply extract_num_iff. split; [|done].
    exists [32], [32], V, R. subst G.
    split; [reassoc|]. split; [by repeat constructor|].
    split; [by repeat constructor|]. split; [done|]. split; [done|].
    split; [done|]. split; [|done]. reflexivity. }
  eexists. split.
  - apply (re_search_intro _ _ (length A)).
    + rewrite drop_app_length. exact Hm.
    + rewrite length_app. lia.
    + intros j Hj.
      destruct (match_at (extract_num name) (drop j _)) as [[[a b] c]|] eqn:E;
        [|done].
      apply extract_num_iff in E as [E _]. apply num_shape_prefix in E.
      by rewrite HA in E.
  - apply group1_at.
Qed.

Lemma extract_colour_search (A C R : list N) :
  no_start (self_ "colour_detection") A ->
  all_in CNotQuote C -> C <> [] ->
  exists m,
    re_search extract_colour
      (A ++ (self_ "colour_detection" ++ txt " = " ++ [quote]) ++ C ++ quote :: R)
    = Some m
    /\ group1 m (A ++ (self_ "colour_detection" ++ txt " = " ++ [quote])
                   ++ C ++ quote :: R) = C.
Proof.
  intros HA HC Hne.
  set (G := self_ "colour_detection" ++ txt " = " ++ [quote]).
  assert (match_at extract_colour (G ++ C ++ quote :: R)
          = Some (length G, (length G + length C)%nat,
                  S (length G + length C)))
    as Hm.
  { apply extract_colour_iff. split; [|split; [done|]].
    - exists [32], [32], C, R. subst G.
      split; [reassoc|]. split; [by repeat constructor|].
      split; [by repeat constructor|]. split; [done|]. split; [|done].
      rewrite !length_app. simpl. lia.
    - destruct C; [done|]. simpl. lia. }
  eexists. split.
  - apply (re_search_intro _ _ (length A)).
    + rewrite drop_app_length. exact Hm.
    + rewrite length_app. lia.
    + intros j Hj.
      destruct (match_at extract_colour (drop j _)) as [[[a b] c]|] eqn:E;
        [|done].
      apply extract_colour_iff in E as [E _]. apply colour_shape_prefix in E.
      by rewrite HA in E.
  - apply group1_at.
Qed.

(** * Extraction from the generated text *)

Ltac no_start_tac :=
  lazymatch goal with
  | |- no_start _ (_ ++ _) => apply no_start_app; no_start_tac
  | |- no_start _ (fixed _ _) => apply no_start_digits, fixed_all
  | |- no_start _ (colour_text ?c) =>
      destruct c; apply no_start_lit; vm_compute; reflexivity
  | |- no_start _ _ => apply no_start_lit; vm_compute; reflexivity
  end.

Ltac unfold_lines :=
  unfold line_forward_speed, line_backward_speed, line_turn_speed,
    line_obstacle_distance, line_turn_cw, line_turn_acw, line_colour_detection,
    param_line, line_end.

Ltac found_num A R :=
  rewrite generate_simple_code_lines;
  match goal with
  | |- exists m, re_search (extract_num ?name) ?t = Some m /\ group1 m _ = ?V =>
      replace t with (A ++ (self_ name ++ txt " = ") ++ V ++ R)
        by (unfold_lines; rewrite <- !app_assoc; reflexivity);
      apply extract_num_search;
      [ unfold_lines; no_start_tac
      | apply fixed_all | apply fixed_nonempty | reflexivity ]
  end.

Lemma found_forward_speed p :
  exists m,
    re_search (extract_num "forward_speed") (generate_simple_code p) = Some m
    /\ group1 m (generate_simple_code p) = fixed 2 (forward_speed p).
Proof.
  found_num (preamble ++ indent)
            (line_end (txt "       # m/s  ") ++ line_backward_speed p
             ++ line_turn_speed p ++ line_obstacle_distance p ++ line_turn_cw p
             ++ line_turn_acw p ++ line_colour_detection p ++ logic_template).
Qed.

Lemma found_backward_speed p :
  exists m,
    re_search (extract_num "backward_speed") (generate_simple_code p) = Some m
    /\ group1 m (generate_simple_code p) = fixed 2 (backward_speed p).
Proof.
  found_num (preamble ++ line_forward_speed p ++ indent)
            (line_end (txt "      # m/s  ")
             ++ line_turn_speed p ++ line_obstacle_distance p ++ line_turn_cw p
             ++ line_turn_acw p ++ line_colour_detection p ++ logic_template).
Qed.

Lemma found_turn_speed p :
  exists m,
    re_search (extract_num "turn_speed") (generate_simple_code p) = Some m
    /\ group1 m (generate_simple_code p) = fixed 2 (turn_speed p).
Proof.
  found_num (preamble ++ line_forward_speed p ++ line_backward_speed p ++ indent)
            (line_end (txt "          # rad/s  ")
             ++ line_obstacle_distance p ++ line_turn_cw p
             ++ line_turn_acw p ++ line_colour_detection p ++ logic_template).
Qed.

Lemma found_obstacle_distance p :
  exists m,
    re_search (extract_num "obstacle_distance") (generate_simple_code p) = Some m
    /\ group1 m (generate_simple_code p) = fixed 2 (obstacle_distance p).
Proof.
  found_num (preamble ++ line_forward_speed p ++ line_backward_speed p
             ++ line_turn_speed p ++ indent)
            (line_end (txt "   # metres  ") ++ line_turn_cw p
             ++ line_turn_acw p ++ line_colour_detection p ++ logic_template).
Qed.

Lemma found_turn_cw p :
  exists m,
    re_search (extract_num "turn_cw_deg") (generate_simple_code p) = Some m
    /\ group1 m (generate_simple_code p) = fixed 1 (turn_cw p).
Proof.
  found_num (preamble ++ line_forward_speed p ++ line_backward_speed p
             ++ line_turn_speed p ++ line_obstacle_distance p ++ indent)
            (line_end (txt "         # degrees CW  ")
             ++ line_turn_acw p ++ line_colour_detection p ++ logic_template).
Qed.

Lemma found_turn_acw p :
  exists m,
    re_search (extract_num "turn_acw_deg") (generate_simple_code p) = Some m
    /\ group1 m (generate_simple_code p) = fixed 1 (turn_acw p).
Proof.
  found_num (preamble ++ line_forward_speed p ++ line_backward_speed p
             ++ line_turn_speed p ++ line_obstacle_distance p
             ++ line_turn_cw p ++ indent)
            (line_end (txt "        # degrees ACW  ")
             ++ line_colour_detection p ++ logic_template).
Qed.

Lemma colour_text_notquote c :
  all_in CNotQuote (colour_text c) /\ colour_text c <> [].
Proof. destruct c; split; try done; by repeat constructor. Qed.

Lemma found_colour_detection p :
  exists m,
    re_search extract_colour (generate_simple_code p) = Some m
    /\ group1 m (generate_simple_code p) = colour_text (colour_detection p).
Proof.
  rewrite generate_simple_code_lines.
  replace (preamble ++ _)
    with ((preamble ++ line_forward_speed p ++ line_backward_speed p
           ++ line_turn_speed p ++ line_obstacle_distance p
           ++ line_turn_cw p ++ line_turn_acw p ++ indent)
          ++ (self_ "colour_detection" ++ txt " = " ++ [quote])
          ++ colour_text (colour_detection p)
          ++ quote :: line_end (txt "   # Red|Blue|Yellow|Green  ")
          ++ logic_template)
    by (unfold_lines; rewrite <- !app_assoc; reflexivity).
  apply extract_colour_search; [|apply colour_text_notquote..].
  unfold_lines. no_start_tac.
Qed.

Lemma colour_of_text_colour_text c : colour_of_text (colour_text c) = Some c.
Proof. by destruct c. Qed.

(** The extraction on a text in which every pattern matches a parseable
    value. *)
Lemma extraction_with_matches setValue (s : App)
      (m1 m2 m3 m4 m5 m6 m7 : mtch) (x1 x2 x3 x4 x5 x6 : N * nat) (c : colour) :
  syncing s = false ->
  re_search (extract_num "forward_speed") (simple_editor s) = Some m1 ->
  py_float (group1 m1 (simple_editor s)) = Some x1 ->
  re_search (extract_num "backward_speed") (simple_editor s) = Some m2 ->
  py_float (group1 m2 (simple_editor s)) = Some x2 ->
  re_search (extract_num "turn_speed") (simple_editor s) = Some m3 ->
  py_float (group1 m3 (simple_editor s)) = Some x3 ->
  re_search (extract_num "obstacle_distance") (simple_editor s) = Some m4 ->
  py_float (group1 m4 (simple_editor s)) = Some x4 ->
  re_search (extract_num "turn_cw_deg") (simple_editor s) = Some m5 ->
  py_float (group1 m5 (simple_editor s)) = Some x5 ->
  re_search (extract_num "turn_acw_deg") (simple_editor s) = Some m6 ->
  py_float (group1 m6 (simple_editor s)) = Some x6 ->
  re_search extract_colour (simple_editor s) = Some m7 ->
  colour_of_text (group1 m7 (simple_editor s)) = Some c ->
  on_simple_code_changed setValue s
  = (Ret tt,
     set_spins (MkParams (setValue forward_speed_cfg x1)
                         (setValue backward_speed_cfg x2)
                         (setValue turn_speed_cfg x3)
                         (setValue obstacle_distance_cfg x4)
                         (setValue turn_cw_cfg x5)
                         (setValue turn_acw_cfg x6) c) s).
Proof.
  intros H H1 F1 H2 F2 H3 F3 H4 F4 H5 F5 H6 F6 H7 F7.
  destruct s as [b p v fe i f d]. simpl in *. subst b.
  unfold on_simple_code_changed, mbind, M_bind, gets, modify, try_finally,
    if_match, set_from_group.
  simpl. rewrite H1, H2, H3, H4, H5, H6, H7. simpl.
  rewrite F1. simpl. rewrite F2. simpl. rewrite F3. simpl. rewrite F4. simpl.
  rewrite F5. simpl. rewrite F6. simpl. rewrite F7. reflexivity.
Qed.

(** C4: for every parameter set [P] in the widgets' ranges, extracting from
    the render of [P] (whatever the widgets held before) leaves the widgets
    holding [P], so that rendering them again gives the first render,
    character for character. *)
Theorem render_extract_render setValue (P : params) (s : App) :
  stores_exact setValue -> in_range P ->
  syncing s = false -> simple_editor s = generate_simple_code P ->
  on_simple_code_changed setValue s = (Ret tt, set_spins P s)
  /\ generate_simple_code (spins (snd (on_simple_code_changed setValue s)))
     = generate_simple_code P.
Proof.
  intros Hset (R1 & R2 & R3 & R4 & R5 & R6) Hs Hv.
  assert (on_simple_code_changed setValue s = (Ret tt, set_spins P s)) as E.
  { destruct (found_forward_speed P) as (m1 & S1 & G1).
    destruct (found_backward_speed P) as (m2 & S2 & G2).
    destruct (found_turn_speed P) as (m3 & S3 & G3).
    destruct (found_obstacle_distance P) as (m4 & S4 & G4).
    destruct (found_turn_cw P) as (m5 & S5 & G5).
    destruct (found_turn_acw P) as (m6 & S6 & G6).
    destruct (found_colour_detection P) as (m7 & S7 & G7).
    rewrite <- Hv in *.
    rewrite (extraction_with_matches setValue s m1 m2 m3 m4 m5 m6 m7
               (forward_speed P, 2%nat) (backward_speed P, 2%nat)
               (turn_speed P, 2%nat) (obstacle_distance P, 2%nat)
               (turn_cw P, 1%nat) (turn_acw P, 1%nat) (colour_detection P));
      try done;
      try (match goal with H : group1 _ _ = _ |- _ => rewrite H end;
           first [apply py_float_fixed | apply colour_of_text_colour_text]).
    rewrite (Hset forward_speed_cfg), (Hset backward_speed_cfg),
      (Hset turn_speed_cfg), (Hset obstacle_distance_cfg), (Hset turn_cw_cfg),
      (Hset turn_acw_cfg) by done.
    by destruct P. }
  split; [done|]. rewrite E. by destruct s.
Qed.

Lemma render_extract_render_witness :
  on_simple_code_changed qt_setValue stale_state
  = (Ret tt, set_spins example_params stale_state)
  /\ generate_simple_code
       (spins (snd (on_simple_code_changed qt_setValue stale_state)))
     = generate_simple_code example_params.
Proof.
  apply (render_extract_render qt_setValue example_params stale_state).
  - exact qt_setValue_exact.
  - repeat split; by vm_compute.
  - reflexivity.
  - reflexivity.
Defined.

(** * Lines *)

Lemma split_nl_nonempty (s : list N) : split_nl s <> [].
Proof.
  destruct s as [|c s]; simpl; [done|].
  destruct (c =? nl); [done|]. by destruct (split_nl s).
Qed.

Lemma split_nl_line (l rest : list N) :
  nl_free l -> split_nl (l ++ nl :: rest) = l :: split_nl rest.
Proof.
  unfold nl_free. induction l as [|c l IH]; intros Hl; simpl.
  - done.
  - apply not_elem_of_cons in Hl as [Hc Hl].
    destruct (c =? nl) eqn:E; [apply N.eqb_eq in E; congruence|].
    by rewrite IH.
Qed.

Lemma split_nl_single (l : list N) : nl_free l -> split_nl l = [l].
Proof.
  unfold nl_free. induction l as [|c l IH]; intros Hl; simpl; [done|].
  apply not_elem_of_cons in Hl as [Hc Hl].
  destruct (c =? nl) eqn:E; [apply N.eqb_eq in E; congruence|].
  by rewrite IH.
Qed.

Lemma split_nl_free (s : list N) : Forall nl_free (split_nl s).
Proof.
  induction s as [|c s IH]; simpl.
  - repeat constructor. unfold nl_free. by apply not_elem_of_nil.
  - destruct (c =? nl) eqn:E.
    + constructor; [|done]. unfold nl_free. by apply not_elem_of_nil.
    + destruct (split_nl s) as [|l ls].
      * repeat constructor. unfold nl_free. apply not_elem_of_cons.
        split; [|by apply not_elem_of_nil]. intros <-. by rewrite N.eqb_refl in E.
      * inversion IH as [|? ? Hl Hls]; subst. constructor; [|done].
        unfold nl_free in *. apply not_elem_of_cons. split; [|done].
        intros <-. by rewrite N.eqb_refl in E.
Qed.

Lemma split_nl_join (ls : list (list N)) :
  ls <> [] -> Forall nl_free ls -> split_nl (join_nl ls) = ls.
Proof.
  induction ls as [|l ls IH]; [done|]. intros _ H.
  inversion H as [|? ? Hl Hls]; subst.
  destruct ls as [|l2 ls].
  - simpl. by apply split_nl_single.
  - change (join_nl (l :: l2 :: ls)) with (l ++ nl :: join_nl (l2 :: ls)).
    rewrite split_nl_line by done. f_equal. by apply IH.
Qed.

Lemma join_nl_cons (l : list N) (ls : list (list N)) :
  ls <> [] -> join_nl (l :: ls) = l ++ nl :: join_nl ls.
Proof. by destruct ls. Qed.

Lemma join_nl_app (A B : list (list N)) :
  A <> [] -> B <> [] -> join_nl (A ++ B) = join_nl A ++ nl :: join_nl B.
Proof.
  intros HA HB. induction A as [|a A IH]; [done|].
  destruct A as [|a2 A].
  - simpl. by destruct B.
  - change ((a :: a2 :: A) ++ B) with (a :: (a2 :: A) ++ B).
    rewrite join_nl_cons by done. rewrite IH by done.
    rewrite (join_nl_cons a (a2 :: A)) by done. by rewrite <- app_assoc.
Qed.

Lemma join_nl_snoc_join (A B : list (list N)) :
  B <> [] -> join_nl (A ++ [join_nl B]) = join_nl (A ++ B).
Proof.
  intros HB. destruct A as [|a A]; [done|].
  by rewrite !join_nl_app.
Qed.

Lemma join_nl_newline (A : list (list N)) :
  A <> [] -> join_nl A ++ [nl] = join_nl (A ++ [[]]).
Proof. intros HA. by rewrite join_nl_app. Qed.

(** * The logic of the Simple View *)

Lemma drop_blank_suffix (R : list (list N)) :
  exists pre, R = pre ++ drop_blank R.
Proof.
  induction R as [|l R [pre IH]]; simpl; [by exists []|].
  destruct (blank l); [|by exists []].
  exists (l :: pre). simpl. by f_equal.
Qed.

Lemma drop_blank_head (R : list (list N)) h t :
  drop_blank R = h :: t -> blank h = false.
Proof.
  induction R as [|l R IH]; simpl; [done|].
  destruct (blank l) eqn:E; [done|]. by intros [= <- <-].
Qed.

Lemma drop_blank_stop h (t : list (list N)) :
  blank h = false -> drop_blank (h :: t) = h :: t.
Proof. intros H. simpl. by rewrite H. Qed.

(** What [_extract_simple_view_logic] returns is a non-empty list of lines
    joined by newlines, the last of them not blank. *)
Lemma extract_logic_shape (view X : list N) :
  extract_simple_view_logic view = Some X ->
  exists front last,
    X = join_nl (front ++ [last])
    /\ Forall nl_free (front ++ [last]) /\ blank last = false.
Proof.
  unfold extract_simple_view_logic.
  destruct (first_line_with separator (split_nl view) 0) as [i|]; [|done].
  set (D := drop (S i) (split_nl view)).
  destruct (drop_blank (rev D)) as [|h t] eqn:E; [done|].
  change (rev (h :: t)) with (rev t ++ [h]).
  destruct (rev t ++ [h]) as [|x xs] eqn:E2; [by destruct (rev t)|].
  intros HX. assert (X = join_nl (x :: xs)) as -> by congruence.
  rewrite <- E2. exists (rev t), h. split; [done|].
  split; [|by eapply drop_blank_head].
  destruct (drop_blank_suffix (rev D)) as [pre Hpre]. rewrite E in Hpre.
  assert (Forall nl_free (rev D)) as HD.
  { apply Forall_rev. subst D. apply Forall_drop, split_nl_free. }
  rewrite Hpre in HD. apply Forall_app in HD as [_ HD].
  change (rev t ++ [h]) with (rev (h :: t)). by apply Forall_rev.
Qed.

Lemma last_char_not_nl (front : list (list N)) (last : list N) :
  Forall nl_free (front ++ [last]) -> blank last = false ->
  exists Y c, join_nl (front ++ [last]) = Y ++ [c] /\ c <> nl.
Proof.
  intros HF Hb. apply Forall_app in HF as [_ HF].
  inversion HF as [|? ? Hl _]; subst.
  destruct (rev last) as [|c r] eqn:E.
  { apply (f_equal (@rev N)) in E. rewrite rev_involutive in E. by subst. }
  apply (f_equal (@rev N)) in E. rewrite rev_involutive in E. simpl in E.
  assert (c <> nl) as Hc.
  { intros ->. apply Hl. rewrite E. apply elem_of_app. right. left. }
  destruct front as [|f front].
  - exists (rev r), c. by rewrite E.
  - rewrite join_nl_app by done. simpl (join_nl [last]). rewrite E.
    exists (join_nl (f :: front) ++ nl :: rev r), c. split; [reassoc|done].
Qed.

Lemma rstrip_nl_newline (Y : list N) c :
  c <> nl -> rstrip_nl ((Y ++ [c]) ++ [nl]) = Y ++ [c].
Proof.
  intros Hc. unfold rstrip_nl. rewrite !rev_app_distr. simpl.
  destruct (c =? nl) eqn:E; [by apply N.eqb_eq in E|].
  simpl. by rewrite rev_involutive.
Qed.

(** * The lines of the generated text *)

Lemma generate_simple_code_join p :
  generate_simple_code p = join_nl (header_lines p ++ template_lines).
Proof.
  unfold generate_simple_code, header_lines, template_lines, param_text.
  cbn [join_nl app]. reassoc.
Qed.

Lemma nl_free_app (A B : list N) : nl_free A -> nl_free B -> nl_free (A ++ B).
Proof. unfold nl_free. rewrite elem_of_app. tauto. Qed.

Lemma nl_free_lit (l : list N) :
  forallb (fun c => negb (c =? nl)) l = true -> nl_free l.
Proof.
  rewrite forallb_forall. intros H Hin. apply list_elem_of_In, H in Hin.
  by rewrite N.eqb_refl in Hin.
Qed.

Lemma nl_free_digits (V : list N) : all_in CDigitDot V -> nl_free V.
Proof.
  intros HV Hin. unfold all_in in HV. rewrite Forall_forall in HV.
  by apply HV in Hin.
Qed.

Ltac nl_free_tac :=
  lazymatch goal with
  | |- nl_free (_ ++ _) => apply nl_free_app; nl_free_tac
  | |- nl_free (fixed _ _) => apply nl_free_digits, fixed_all
  | |- nl_free (colour_text ?c) =>
      destruct c; apply nl_free_lit; vm_compute; reflexivity
  | |- nl_free _ => apply nl_free_lit; vm_compute; reflexivity
  end.

Lemma header_lines_free p : Forall nl_free (header_lines p).
Proof.
  unfold header_lines, param_text.
  repeat (constructor; [nl_free_tac|]). constructor.
Qed.

Lemma template_lines_free : Forall nl_free template_lines.
Proof.
  unfold template_lines. repeat (constructor; [nl_free_tac|]). constructor.
Qed.

Lemma split_generate_simple_code p :
  split_nl (generate_simple_code p) = header_lines p ++ template_lines.
Proof.
  rewrite generate_simple_code_join. apply split_nl_join; [done|].
  apply Forall_app. split; [apply header_lines_free | apply template_lines_free].
Qed.

Lemma no_start_digits_separator (V : list N) :
  all_in CDigitDot V -> no_start separator V.
Proof.
  intros HV rest j Hj. rewrite drop_app_le by lia.
  destruct (drop j V) as [|c r] eqn:E; [by apply drop_nonempty in E|].
  apply head_in_drop in E. unfold all_in in HV. rewrite Forall_forall in HV.
  apply HV in E. change separator with (35 :: txt " === Movement Logic ===").
  cbn [is_prefix app].
  destruct (35 =? c) eqn:Ec; [|done]. apply N.eqb_eq in Ec as <-. done.
Qed.

Lemma contains_no_start (pat l : list N) :
  pat <> [] -> no_start pat l -> contains pat l = false.
Proof.
  intros Hne H. unfold contains.
  destruct (find pat l) as [j|] eqn:E; [|done]. exfalso.
  apply find_Some in E as [E _]. pose proof E as Hl.
  apply occurs_at_take_drop in Hl as [Hl _].
  apply occurs_at_is_prefix in E.
  assert (length pat <> 0)%nat by (by destruct pat).
  specialize (H [] j ltac:(lia)). rewrite app_nil_r in H. congruence.
Qed.

Ltac no_separator_tac :=
  lazymatch goal with
  | |- no_start _ (_ ++ _) => apply no_start_app; no_separator_tac
  | |- no_start _ (fixed _ _) => apply no_start_digits_separator, fixed_all
  | |- no_start _ (colour_text ?c) =>
      destruct c; apply no_start_lit; vm_compute; reflexivity
  | |- no_start _ _ => apply no_start_lit; vm_compute; reflexivity
  end.

Lemma first_line_with_skip (sub l : list N) ls i :
  contains sub l = false ->
  first_line_with sub (l :: ls) i = first_line_with sub ls (S i).
Proof. intros H. simpl. by rewrite H. Qed.

(** The separator line is the last of the header lines and the first to
    contain the separator, whatever lines follow. *)
Lemma first_line_with_header p (more : list (list N)) :
  first_line_with separator (header_lines p ++ more) 0 = Some 17%nat.
Proof.
  unfold header_lines. rewrite <- !(@app_comm_cons (list N)). unfold param_text.
  do 17 (rewrite first_line_with_skip;
         [|apply contains_no_start; [done|no_separator_tac]]).
  cbn [first_line_with].
  by replace (contains separator (txt "        # === Movement Logic ===")) with true
    by (by vm_compute).
Qed.

(** * Texts that pass through an editor *)

Lemma re_sub1_editor_text p v t :
  re_pre p = [] -> editor_text t -> editor_text v ->
  editor_text (re_sub1 p [Group1; Literal v] t).
Proof.
  intros Hp Ht Hv. destruct (search_cases p t Hp) as [Hn|(A & G & V & R & Hf)].
  - by rewrite re_sub1_no_match.
  - rewrite (re_sub1_first _ _ _ _ _ _ _ Hf). destruct Hf as (-> & _).
    unfold editor_text in *. rewrite !Forall_app in *. tauto.
Qed.

(** The parameter rewrite puts none of the characters an editor replaces
    into a text. *)
Lemma substitute_editor_text p t :
  editor_text t -> editor_text (substitute (replacements p) t).
Proof.
  intros Ht. unfold substitute, replacements. cbn [fold_left fst snd].
  repeat (apply re_sub1_editor_text; [done| |editor_text_tac]). done.
Qed.

Lemma split_nl_Forall (P : N -> Prop) (s : list N) :
  Forall P s -> Forall (Forall P) (split_nl s).
Proof.
  induction 1 as [|c s Hc _ IH]; cbn [split_nl]; [repeat constructor|].
  destruct (c =? nl); [by constructor|].
  destruct (split_nl s) as [|l ls]; [by repeat constructor|].
  inversion IH; subst. constructor; [by constructor|done].
Qed.

Lemma join_nl_Forall (P : N -> Prop) (ls : list (list N)) :
  P nl -> Forall (Forall P) ls -> Forall P (join_nl ls).
Proof.
  intros Hn. induction 1 as [|l ls Hl Hls IH]; [constructor|].
  destruct ls as [|l' ls']; [done|].
  change (join_nl (l :: l' :: ls')) with (l ++ nl :: join_nl (l' :: ls')).
  apply Forall_app. split; [done|]. by constructor.
Qed.

(** The logic extracted from an editor's text is made of that text's
    characters. *)
Lemma extract_logic_editor_text (view X : list N) :
  editor_text view -> extract_simple_view_logic view = Some X -> editor_text X.
Proof.
  intros Hv. unfold extract_simple_view_logic.
  destruct (first_line_with separator (split_nl view) 0) as [i|]; [|done].
  set (D := drop (S i) (split_nl view)).
  assert (Forall editor_text (rev D)) as HD.
  { apply Forall_rev. subst D. apply Forall_drop. by apply split_nl_Forall. }
  destruct (drop_blank_suffix (rev D)) as [pre Hpre].
  rewrite Hpre in HD. apply Forall_app in HD as [_ HD].
  destruct (rev (drop_blank (rev D))) as [|x xs] eqn:E; [done|].
  intros HX. assert (X = join_nl (x :: xs)) as -> by congruence.
  rewrite <- E. apply join_nl_Forall; [done|]. by apply Forall_rev.
Qed.

Lemma header_lines_editor_text p : Forall editor_text (header_lines p).
Proof.
  unfold header_lines, param_text.
  repeat (constructor; [editor_text_tac|]). constructor.
Qed.

Lemma marker_start_editor_text : editor_text marker_start.
Proof. apply editor_text_lit. by vm_compute. Qed.

Lemma marker_end_editor_text : editor_text marker_end.
Proof. apply editor_text_lit. by vm_compute. Qed.

(** An editor returns a text with markers as it was set up to the text
    after the end marker, when the header and the logic are texts of an
    editor. *)
Lemma toPlainText_markers (H X T : list N) :
  editor_text H -> editor_text X ->
  toPlainText (H ++ marker_start ++ (X ++ [nl]) ++ marker_end ++ T)
  = H ++ marker_start ++ (X ++ [nl]) ++ marker_end ++ toPlainText T.
Proof.
  intros HH HX.
  assert (editor_text (X ++ [nl])) as HXn
    by (apply editor_text_app; [done|by apply editor_text_lit]).
  rewrite (toPlainText_app H) by done.
  rewrite (toPlainText_app marker_start) by apply marker_start_editor_text.
  rewrite (toPlainText_app (X ++ [nl])) by done.
  by rewrite (toPlainText_app marker_end) by apply marker_end_editor_text.
Qed.

Lemma blank_with_marker (A B : list N) : blank (A ++ marker_start ++ B) = false.
Proof.
  destruct (blank _) eqn:E; [|done]. apply blank_spec in E.
  unfold blank_line in E. rewrite !Forall_app in E. destruct E as (_ & E & _).
  rewrite Forall_forall in E. specialize (E 35).
  assert (35 ∈ marker_start) as Hin
    by (apply list_elem_of_In; vm_compute; do 8 right; by left).
  by apply E in Hin.
Qed.

(** * Running the operations *)

Lemma bind_run {A B} (m : M A) (f : A -> M B) (s s1 : App) a :
  m s = (Ret a, s1) -> (m ≫= f) s = f a s1.
Proof. intros H. unfold mbind, M_bind. by rewrite H. Qed.

Lemma bind_assoc {A B C} (m : M A) (f : A -> M B) (g : B -> M C) (s : App) :
  (m ≫= (fun a => f a ≫= g)) s = ((m ≫= f) ≫= g) s.
Proof.
  unfold mbind, M_bind. destruct (m s) as [[a|e] s1]; [|done].
  by destruct (f a s1) as [[b|e] s2].
Qed.

Lemma sync_simple_view_to_full_view_run (s : App) code :
  disk s !! MOVEMENT_PY = Some code ->
  sync_simple_view_to_full_view s
  = (Ret tt,
     let D := reconciled (spins s) (simple_editor s) code in
     let s' := set_disk (<[MOVEMENT_PY := D]> (disk s)) s in
     if bool_decide (full_view_current_file s = Some MOVEMENT_PY)
     then set_full_editor (toPlainText D) s' else s').
Proof.
  intros Hd. unfold sync_simple_view_to_full_view. rewrite bind_assoc.
  erewrite bind_run; [|by apply (reconcile_present _ code)].
  destruct s as [b p v fe i f d]. unfold mbind, M_bind, gets, modify, mret, M_ret.
  app_proj. case_bool_decide; [|done]. app_proj. by rewrite lookup_insert_eq.
Qed.

Lemma sync_full_view_from_spinboxes_run (s : App) :
  blank (full_editor s) = false -> editor_text (full_editor s) ->
  sync_full_view_from_spinboxes s
  = (Ret tt, set_full_editor (substitute (replacements (spins s)) (full_editor s)) s).
Proof.
  intros Hb Ht. destruct s as [b p v fe i f d]. simpl in Hb, Ht.
  unfold sync_full_view_from_spinboxes, mbind, M_bind, gets, modify, mret, M_ret.
  app_proj. rewrite Hb. case_bool_decide as Hc.
  - by rewrite toPlainText_id by (by apply substitute_editor_text).
  - by destruct (decide (substitute (replacements p) fe = fe)) as [->|].
Qed.

Lemma show_full_view_run (s : App) code :
  editor_stack s = 0%nat ->
  disk s !! MOVEMENT_PY = Some code ->
  (full_view_current_file s = Some MOVEMENT_PY ->
   blank (toPlainText (reconciled (spins s) (simple_editor s) code)) = false) ->
  show_full_view s
  = (Ret tt,
     let D := reconciled (spins s) (simple_editor s) code in
     MkApp (syncing s) (spins s) (simple_editor s)
           (if bool_decide (full_view_current_file s = Some MOVEMENT_PY)
            then substitute (replacements (spins s)) (toPlainText D)
            else full_editor s)
           1 (full_view_current_file s) (<[MOVEMENT_PY := D]> (disk s))).
Proof.
  intros Hi Hd Hb. unfold show_full_view.
  erewrite bind_run; [|reflexivity]. rewrite Hi. rewrite bool_decide_eq_true_2 by done.
  erewrite bind_run; [|by apply sync_simple_view_to_full_view_run].
  erewrite bind_run; [|reflexivity].
  erewrite bind_run; [|reflexivity].
  destruct s as [b p v fe i f d]. simpl in *. app_proj.
  destruct (decide (f = Some MOVEMENT_PY)) as [Hf|Hf].
  - rewrite !(bool_decide_eq_true_2 (f = Some MOVEMENT_PY)) by done. app_proj.
    rewrite ?(bool_decide_eq_true_2 (f = Some MOVEMENT_PY)) by done.
    rewrite sync_full_view_from_spinboxes_run;
      [done|by apply Hb|apply toPlainText_editor_text].
  - rewrite !(bool_decide_eq_false_2 (f = Some MOVEMENT_PY)) by done. app_proj.
    by rewrite ?(bool_decide_eq_false_2 (f = Some MOVEMENT_PY)) by done.
Qed.

Lemma save_full_view_file_run (s : App) :
  save_full_view_file s
  = (Ret tt,
     match full_view_current_file s with
     | Some path =>
         if bool_decide (path = ""%string) then s
         else set_disk (<[path := full_editor s]> (disk s)) s
     | None => s
     end).
Proof.
  destruct s as [b p v fe i f d].
  unfold save_full_view_file, mbind, M_bind, gets, modify, mret, M_ret.
  app_proj. destruct f as [path|]; [|done]. by case_bool_decide.
Qed.

Lemma show_simple_view_run (s : App) :
  editor_stack s = 1%nat ->
  show_simple_view s
  = load_simple_view_from_movement_py
      (set_editor_stack 0 (snd (save_full_view_file s))).
Proof.
  intros Hi. unfold show_simple_view.
  erewrite bind_run; [|reflexivity]. rewrite Hi.
  rewrite bool_decide_eq_true_2 by done.
  erewrite bind_run; [|apply save_full_view_file_run].
  erewrite bind_run; [|reflexivity].
  by rewrite save_full_view_file_run.
Qed.

(** * Loading an artifact with markers *)

Lemma load_markers (s : App) (Hd X T : list N) :
  disk s !! MOVEMENT_PY
  = Some (Hd ++ marker_start ++ (X ++ [nl]) ++ marker_end ++ T) ->
  find marker_start (Hd ++ marker_start ++ (X ++ [nl]) ++ marker_end ++ T)
  = Some (length Hd) ->
  find marker_end ((X ++ [nl]) ++ marker_end ++ T) = Some (length (X ++ [nl])) ->
  load_simple_view_from_movement_py s
  = (Ret tt,
     set_syncing false
       (set_simple_editor
          (toPlainText
             (join_nl (header_lines (spins s) ++ [rstrip_nl (X ++ [nl])])
              ++ [nl]))
          s)).
Proof.
  intros Hdisk Hs He.
  assert (re_search markers_re
            (Hd ++ marker_start ++ (X ++ [nl]) ++ marker_end ++ T)
          = Some (Mtch (length Hd) (length Hd + length marker_start)
                       (length Hd + (length marker_start + length (X ++ [nl])))
                       (length Hd + (length marker_start + length (X ++ [nl])
                                     + length marker_end)))) as Hm.
  { apply re_search_markers; [done|].
    rewrite app_assoc, <- length_app, drop_app_length. done. }
  destruct s as [b p v fe i f d]. cbn [disk] in Hdisk.
  unfold load_simple_view_from_movement_py, mbind, M_bind, gets, modify,
    try_finally, mret, M_ret.
  app_proj. rewrite Hdisk. cbv beta iota. rewrite Hm. cbv beta iota.
  rewrite group1_at.
  rewrite split_generate_simple_code, first_line_with_header.
  by rewrite (take_app_length' (header_lines p)).
Qed.

(** The Simple View as rebuilt around a saved logic has that logic. *)
Lemma rebuilt_view_logic p (front : list (list N)) (last : list N) :
  Forall nl_free (front ++ [last]) -> blank last = false ->
  split_nl (join_nl (header_lines p ++ [join_nl (front ++ [last])]) ++ [nl])
  = header_lines p ++ (front ++ [last]) ++ [[]]
  /\ extract_simple_view_logic
       (join_nl (header_lines p ++ [join_nl (front ++ [last])]) ++ [nl])
     = Some (join_nl (front ++ [last])).
Proof.
  intros HF Hb.
  assert (split_nl (join_nl (header_lines p ++ [join_nl (front ++ [last])])
                    ++ [nl])
          = header_lines p ++ (front ++ [last]) ++ [[]]) as E.
  { rewrite join_nl_snoc_join by (by destruct front).
    rewrite join_nl_newline by done. rewrite <- app_assoc.
    apply split_nl_join; [done|].
    apply Forall_app. split; [apply header_lines_free|].
    apply Forall_app. split; [done|]. repeat constructor.
    unfold nl_free. apply not_elem_of_nil. }
  split; [done|].
  unfold extract_simple_view_logic. rewrite E, first_line_with_header.
  rewrite (drop_app_length' (header_lines p)) by done.
  rewrite !rev_app_distr. simpl (rev [[]]). simpl (rev [last]).
  cbn [app]. change (drop_blank ([] :: last :: rev front))
    with (drop_blank (last :: rev front)).
  rewrite drop_blank_stop by done.
  change (rev (last :: rev front)) with (rev (rev front) ++ [last]).
  rewrite rev_involutive. by destruct (front ++ [last]) eqn:E2; [destruct front|].
Qed.

Lemma find_marker_end_after (X T : list N) :
  find marker_end (X ++ [nl] ++ marker_end) = Some (S (length X)) ->
  find marker_end ((X ++ [nl]) ++ marker_end ++ T) = Some (length (X ++ [nl])).
Proof.
  intros H. rewrite length_app. cbn [length]. rewrite Nat.add_1_r.
  replace ((X ++ [nl]) ++ marker_end ++ T)
    with ((X ++ [nl] ++ marker_end) ++ T) by reassoc.
  apply (find_common_prefix _ _ []); [|by rewrite app_nil_r].
  rewrite !length_app. cbn [length]. lia.
Qed.

(** C6, as stated, fails: with the artifact open in the Full View and no
    assignment of [forward_speed] in its header, the switch to the Full View
    persists the logic unchanged and then applies the parameter values to
    the Full View's text, where the first match of the pattern is the
    assignment in the logic; the switch back saves that text, and the Simple
    View's logic reads 0.30 where the user wrote 0.10. *)
Lemma round_trip_rewrites_logic :
  forward_speed (spins clobber_state) = 30
  /\ extract_simple_view_logic (simple_editor clobber_state) = Some custom_logic
  /\ find marker_start headless_artifact = Some 21%nat
  /\ find marker_end headless_artifact = Some 95%nat
  /\ disk (snd (show_full_view clobber_state)) !! MOVEMENT_PY
     = Some (txt "# parameters removed" ++ [nl] ++ marker_start
             ++ custom_logic ++ [nl] ++ marker_end ++ [nl])
  /\ extract_simple_view_logic
       (simple_editor (snd (show_simple_view (snd (show_full_view clobber_state)))))
     = Some (txt "        self.forward_speed = 0.30" ++ [nl]
             ++ txt "        self.stop()").
Proof. repeat split; by vm_compute. Qed.

(** The text saved from the Full View is the text the editor returns.  A
    header line that differs from the start marker by a U+00A0 comes back
    from the Full View as a start marker, and the Simple View then loads the
    header below it as logic. *)
Lemma round_trip_through_editor_moves_marker :
  editor_text_b nbsp_header = false
  /\ find marker_start nbsp_artifact = Some (length nbsp_header)
  /\ covered_b (substitute (replacements example_params) nbsp_header)
               (marker_start ++ (custom_logic ++ [nl]) ++ marker_end ++ [nl])
     = true
  /\ extract_simple_view_logic (simple_editor nbsp_state) = Some custom_logic
  /\ extract_simple_view_logic
       (simple_editor (snd (show_simple_view (snd (show_full_view nbsp_state)))))
     = Some (txt "        pass" ++ [nl]
             ++ txt "        self.forward_speed = 0.30" ++ [nl]
             ++ marker_start ++ custom_logic).
Proof. repeat split; by vm_compute. Qed.

(** C6, amended: start in the Simple View, its text one the editor returns,
    with logic [X] below the separator ([X] holding no end marker), over an
    artifact that reads [H ++ start marker ++ L ++ end marker ++ T] once the
    widgets' values are written into it, the markers being the first of
    their kind.  If the artifact is the file open in the Full View, let [H]
    hold none of the characters an editor replaces, and let every parameter
    assigned anywhere in the text the Full View then shows be assigned in
    [H].  Then the switch to the Full View persists [X] between the
    markers, and after the switch back the Simple View's logic is [X], its
    seventh line assigns the widget's value to [forward_speed], and the
    widgets are unchanged. *)
Theorem round_trip_keeps_logic (s : App) (code X H L T : list N) :
  editor_stack s = 0%nat ->
  editor_text (simple_editor s) ->
  extract_simple_view_logic (simple_editor s) = Some X ->
  disk s !! MOVEMENT_PY = Some code ->
  substitute (replacements (spins s)) code
  = H ++ marker_start ++ L ++ marker_end ++ T ->
  find marker_start (H ++ marker_start ++ L ++ marker_end ++ T)
  = Some (length H) ->
  find marker_end (H ++ marker_start ++ L ++ marker_end ++ T)
  = Some (length (H ++ marker_start ++ L)) ->
  find marker_end (X ++ [nl] ++ marker_end) = Some (S (length X)) ->
  (full_view_current_file s = Some MOVEMENT_PY ->
   editor_text H
   /\ covered H (marker_start ++ (X ++ [nl]) ++ marker_end ++ toPlainText T)) ->
  exists s1 s2,
    show_full_view s = (Ret tt, s1)
    /\ disk s1 !! MOVEMENT_PY
       = Some (H ++ marker_start ++ (X ++ [nl]) ++ marker_end ++ T)
    /\ show_simple_view s1 = (Ret tt, s2)
    /\ extract_simple_view_logic (simple_editor s2) = Some X
    /\ split_nl (simple_editor s2) !! 6%nat
       = Some (txt "        self.forward_speed = "
               ++ fixed 2 (forward_speed (spins s))
               ++ txt "       # m/s  " ++ [arrow] ++ txt " edit")
    /\ spins s2 = spins s.
Proof.
  intros Hi Het HX Hd Hsub Hs He HXe Hfv.
  destruct (extract_logic_shape _ _ HX) as (front & last & EX & HF & Hb).
  destruct (last_char_not_nl _ _ HF Hb) as (Y & c & EY & Hc).
  pose proof (extract_logic_editor_text _ _ Het HX) as HXt.
  assert (reconciled (spins s) (simple_editor s) code
          = H ++ marker_start ++ (X ++ [nl]) ++ marker_end ++ T) as ED.
  { unfold reconciled. rewrite Hsub, HX. by apply (splice_at (Some X)). }
  assert (forall T2, find marker_start
                       (H ++ marker_start ++ (X ++ [nl]) ++ marker_end ++ T2)
                     = Some (length H)) as HsD.
  { intros T2. rewrite app_assoc. rewrite app_assoc in Hs.
    eapply find_common_prefix; [|exact Hs]. rewrite length_app. lia. }
  rewrite (show_full_view_run s _ Hi Hd).
  2:{ intros Hf. rewrite ED. destruct (Hfv Hf) as [HH _].
      rewrite toPlainText_markers by done. apply blank_with_marker. }
  cbv zeta. rewrite ED.
  destruct s as [b p v fe i f d]. cbn [disk spins simple_editor syncing
    full_editor editor_stack full_view_current_file] in *.
  match goal with |- exists s1 s2, (Ret tt, ?S) = _ /\ _ => exists S end.
  assert (forall fe' d' H2 T2,
            d' !! MOVEMENT_PY
            = Some (H2 ++ marker_start ++ (X ++ [nl]) ++ marker_end ++ T2) ->
            find marker_start (H2 ++ marker_start ++ (X ++ [nl])
                               ++ marker_end ++ T2)
            = Some (length H2) ->
            exists s2,
              load_simple_view_from_movement_py (MkApp b p v fe' 0 f d')
              = (Ret tt, s2)
              /\ extract_simple_view_logic (simple_editor s2) = Some X
              /\ split_nl (simple_editor s2) !! 6%nat
                 = Some (txt "        self.forward_speed = "
                         ++ fixed 2 (forward_speed p)
                         ++ txt "       # m/s  " ++ [arrow] ++ txt " edit")
              /\ spins s2 = p) as Hload.
  { intros fe' d' H2 T2 Hd2 Hs2.
    eexists. split.
    { apply (load_markers _ H2 X T2);
        [exact Hd2|exact Hs2|by apply find_marker_end_after]. }
    cbn [simple_editor set_syncing set_simple_editor spins].
    assert (editor_text (join_nl (header_lines p ++ [X]) ++ [nl])) as Hview.
    { apply editor_text_app; [|by apply editor_text_lit].
      apply join_nl_Forall; [done|]. apply Forall_app.
      split; [apply header_lines_editor_text|by repeat constructor]. }
    rewrite EX in Hview.
    rewrite EX, EY, rstrip_nl_newline, <- EY by done.
    rewrite toPlainText_id by done.
    destruct (rebuilt_view_logic p front last HF Hb) as [Esp Eex].
    split; [done|]. split; [|done].
    rewrite Esp. rewrite lookup_app_l by (simpl; lia).
    unfold header_lines, param_text. simpl (_ !! _). f_equal. }
  set (D := H ++ marker_start ++ (X ++ [nl]) ++ marker_end ++ T) in *.
  assert (forall s1,
            disk s1 !! MOVEMENT_PY = Some D ->
            (exists s2,
               show_simple_view s1 = (Ret tt, s2)
               /\ extract_simple_view_logic (simple_editor s2) = Some X
               /\ split_nl (simple_editor s2) !! 6%nat
                  = Some (txt "        self.forward_speed = "
                          ++ fixed 2 (forward_speed p)
                          ++ txt "       # m/s  " ++ [arrow] ++ txt " edit")
               /\ spins s2 = p) ->
            exists s2,
              (Ret tt, s1) = (Ret (A:=unit) tt, s1)
              /\ disk s1 !! MOVEMENT_PY = Some D
              /\ show_simple_view s1 = (Ret tt, s2)
              /\ extract_simple_view_logic (simple_editor s2) = Some X
              /\ split_nl (simple_editor s2) !! 6%nat
                 = Some (txt "        self.forward_speed = "
                         ++ fixed 2 (forward_speed p)
                         ++ txt "       # m/s  " ++ [arrow] ++ txt " edit")
              /\ spins s2 = p) as Hpack.
  { intros s1 Hd1 (s2 & E). exists s2. done. }
  apply Hpack; [apply lookup_insert_eq|].
  rewrite show_simple_view_run by done.
  rewrite save_full_view_file_run.
  unfold set_editor_stack.
  cbn [disk spins simple_editor syncing full_editor editor_stack
       full_view_current_file snd].
  destruct f as [path|].
  - destruct (decide (path = ""%string)) as [->|Hne].
    { rewrite bool_decide_eq_true_2 by done.
      cbn [disk spins simple_editor syncing full_editor editor_stack
           full_view_current_file snd].
      apply (Hload _ _ H T); [apply lookup_insert_eq|apply HsD]. }
    rewrite bool_decide_eq_false_2 by done.
    unfold set_disk.
    cbn [disk spins simple_editor syncing full_editor editor_stack
         full_view_current_file snd].
    destruct (decide (path = MOVEMENT_PY)) as [->|Hmp].
    + rewrite bool_decide_eq_true_2 by done.
      destruct (Hfv eq_refl) as [HH Hcov].
      pose proof (marker_start_stops
                    ((X ++ [nl]) ++ marker_end ++ toPlainText T)) as Hst.
      apply (Hload _ _ (substitute (replacements p) H) (toPlainText T)).
      * rewrite lookup_insert_eq. subst D.
        rewrite toPlainText_markers by done.
        by rewrite (substitute_covered p H _ Hcov Hst).
      * rewrite <- (substitute_covered p H _ Hcov Hst).
        rewrite <- (Nat.add_0_r (length (substitute (replacements p) H))).
        apply find_substitute_shift_covered;
          [apply marker_start_like|done|done|done|].
        rewrite Nat.add_0_r. apply HsD.
    + rewrite bool_decide_eq_false_2 by congruence.
      apply (Hload _ _ H T); [|apply HsD].
      rewrite lookup_insert_ne by done. apply lookup_insert_eq.
  - cbn [disk spins simple_editor syncing full_editor editor_stack
         full_view_current_file snd].
    apply (Hload _ _ H T); [apply lookup_insert_eq|apply HsD].
Qed.

Lemma round_trip_keeps_logic_witness :
  exists s1 s2,
    show_full_view lean_round_trip_state = (Ret tt, s1)
    /\ disk s1 !! MOVEMENT_PY
       = Some (substitute (replacements example_params) lean_header
               ++ marker_start ++ (custom_logic ++ [nl]) ++ marker_end ++ [nl])
    /\ show_simple_view s1 = (Ret tt, s2)
    /\ extract_simple_view_logic (simple_editor s2) = Some custom_logic
    /\ split_nl (simple_editor s2) !! 6%nat
       = Some (txt "        self.forward_speed = "
               ++ fixed 2 (forward_speed (spins lean_round_trip_state))
               ++ txt "       # m/s  " ++ [arrow] ++ txt " edit")
    /\ spins s2 = spins lean_round_trip_state.
Proof.
  apply (round_trip_keeps_logic lean_round_trip_state lean_artifact custom_logic
           (substitute (replacements example_params) lean_header)
           sample_logic [nl]).
  - reflexivity.
  - apply editor_text_lit. by vm_compute.
  - by vm_compute.
  - reflexivity.
  - by vm_compute.
  - by vm_compute.
  - by vm_compute.
  - by vm_compute.
  - intros _. split; [apply editor_text_lit|apply covered_intro]; by vm_compute.
Defined.

(** * Documents with a generated header *)

Lemma generate_simple_code_header p :
  generate_simple_code p = header_text p ++ logic_template.
Proof.
  rewrite generate_simple_code_lines. unfold header_text. by rewrite <- !app_assoc.
Qed.

Ltac found_num_in A R :=
  match goal with
  | |- exists m, re_search (extract_num ?name) ?t = Some m /\ group1 m _ = ?V =>
      replace t with (A ++ (self_ name ++ txt " = ") ++ V ++ R)
        by (unfold header_text; unfold_lines; rewrite <- !app_assoc;
            reflexivity);
      apply extract_num_search;
      [ unfold_lines; no_start_tac
      | apply fixed_all | apply fixed_nonempty | reflexivity ]
  end.

Lemma found_forward_speed_in p tail :
  exists m,
    re_search (extract_num "forward_speed") (header_text p ++ tail) = Some m
    /\ group1 m (header_text p ++ tail) = fixed 2 (forward_speed p).
Proof.
  found_num_in (preamble ++ indent)
    (line_end (txt "       # m/s  ") ++ line_backward_speed p
     ++ line_turn_speed p ++ line_obstacle_distance p ++ line_turn_cw p
     ++ line_turn_acw p ++ line_colour_detection p ++ tail).
Qed.

Lemma found_backward_speed_in p tail :
  exists m,
    re_search (extract_num "backward_speed") (header_text p ++ tail) = Some m
    /\ group1 m (header_text p ++ tail) = fixed 2 (backward_speed p).
Proof.
  found_num_in (preamble ++ line_forward_speed p ++ indent)
    (line_end (txt "      # m/s  ")
     ++ line_turn_speed p ++ line_obstacle_distance p ++ line_turn_cw p
     ++ line_turn_acw p ++ line_colour_detection p ++ tail).
Qed.

Lemma found_turn_speed_in p tail :
  exists m,
    re_search (extract_num "turn_speed") (header_text p ++ tail) = Some m
    /\ group1 m (header_text p ++ tail) = fixed 2 (turn_speed p).
Proof.
  found_num_in (preamble ++ line_forward_speed p ++ line_backward_speed p ++ indent)
    (line_end (txt "          # rad/s  ")
     ++ line_obstacle_distance p ++ line_turn_cw p
     ++ line_turn_acw p ++ line_colour_detection p ++ tail).
Qed.

Lemma found_obstacle_distance_in p tail :
  exists m,
    re_search (extract_num "obstacle_distance") (header_text p ++ tail) = Some m
    /\ group1 m (header_text p ++ tail) = fixed 2 (obstacle_distance p).
Proof.
  found_num_in (preamble ++ line_forward_speed p ++ line_backward_speed p
                ++ line_turn_speed p ++ indent)
    (line_end (txt "   # metres  ") ++ line_turn_cw p
     ++ line_turn_acw p ++ line_colour_detection p ++ tail).
Qed.

Lemma found_turn_cw_in p tail :
  exists m,
    re_search (extract_num "turn_cw_deg") (header_text p ++ tail) = Some m
    /\ group1 m (header_text p ++ tail) = fixed 1 (turn_cw p).
Proof.
  found_num_in (preamble ++ line_forward_speed p ++ line_backward_speed p
                ++ line_turn_speed p ++ line_obstacle_distance p ++ indent)
    (line_end (txt "         # degrees CW  ")
     ++ line_turn_acw p ++ line_colour_detection p ++ tail).
Qed.

Lemma found_turn_acw_in p tail :
  exists m,
    re_search (extract_num "turn_acw_deg") (header_text p ++ tail) = Some m
    /\ group1 m (header_text p ++ tail) = fixed 1 (turn_acw p).
Proof.
  found_num_in (preamble ++ line_forward_speed p ++ line_backward_speed p
                ++ line_turn_speed p ++ line_obstacle_distance p
                ++ line_turn_cw p ++ indent)
    (line_end (txt "        # degrees ACW  ")
     ++ line_colour_detection p ++ tail).
Qed.

Lemma found_colour_detection_in p tail :
  exists m,
    re_search extract_colour (header_text p ++ tail) = Some m
    /\ group1 m (header_text p ++ tail) = colour_text (colour_detection p).
Proof.
  replace (header_text p ++ tail)
    with ((preamble ++ line_forward_speed p ++ line_backward_speed p
           ++ line_turn_speed p ++ line_obstacle_distance p
           ++ line_turn_cw p ++ line_turn_acw p ++ indent)
          ++ (self_ "colour_detection" ++ txt " = " ++ [quote])
          ++ colour_text (colour_detection p)
          ++ quote :: line_end (txt "   # Red|Blue|Yellow|Green  ") ++ tail)
    by (unfold header_text; unfold_lines; rewrite <- !app_assoc; reflexivity).
  apply extract_colour_search; [|apply colour_text_notquote..].
  unfold_lines. no_start_tac.
Qed.

Lemma extraction_reads_header_aux setValue (P : params) (tail : list N) (s : App) :
  stores_exact setValue -> in_range P ->
  syncing s = false -> simple_editor s = header_text P ++ tail ->
  on_simple_code_changed setValue s = (Ret tt, set_spins P s).
Proof.
  intros Hset (R1 & R2 & R3 & R4 & R5 & R6) Hs Hv.
  destruct (found_forward_speed_in P tail) as (m1 & S1 & G1).
  destruct (found_backward_speed_in P tail) as (m2 & S2 & G2).
  destruct (found_turn_speed_in P tail) as (m3 & S3 & G3).
  destruct (found_obstacle_distance_in P tail) as (m4 & S4 & G4).
  destruct (found_turn_cw_in P tail) as (m5 & S5 & G5).
  destruct (found_turn_acw_in P tail) as (m6 & S6 & G6).
  destruct (found_colour_detection_in P tail) as (m7 & S7 & G7).
  rewrite <- Hv in *.
  rewrite (extraction_with_matches setValue s m1 m2 m3 m4 m5 m6 m7
             (forward_speed P, 2%nat) (backward_speed P, 2%nat)
             (turn_speed P, 2%nat) (obstacle_distance P, 2%nat)
             (turn_cw P, 1%nat) (turn_acw P, 1%nat) (colour_detection P));
    try done;
    try (match goal with H : group1 _ _ = _ |- _ => rewrite H end;
         first [apply py_float_fixed | apply colour_of_text_colour_text]).
  rewrite (Hset forward_speed_cfg), (Hset backward_speed_cfg),
    (Hset turn_speed_cfg), (Hset obstacle_distance_cfg), (Hset turn_cw_cfg),
    (Hset turn_acw_cfg) by done.
  by destruct P.
Qed.


(** X1: the extraction reads the generated header, whatever text follows it
    and whatever the widgets held: assignments in the logic below the header
    never reach the widgets, and the text and the flag are as before. *)
Theorem extraction_reads_header setValue (P : params) (tail : list N) (s : App) :
  stores_exact setValue -> in_range P ->
  syncing s = false -> simple_editor s = header_text P ++ tail ->
  on_simple_code_changed setValue s = (Ret tt, set_spins P s)
  /\ simple_editor (snd (on_simple_code_changed setValue s)) = header_text P ++ tail
  /\ syncing (snd (on_simple_code_changed setValue s)) = false.
Proof.
  intros Hset Hr Hs Hv.
  rewrite (extraction_reads_header_aux setValue P tail s Hset Hr Hs Hv).
  destruct s as [b p v fe i f d]. cbn [syncing simple_editor] in *.
  by subst.
Qed.

Lemma extraction_reads_header_witness :
  on_simple_code_changed qt_setValue reassigning_state
  = (Ret tt, set_spins example_params reassigning_state)
  /\ simple_editor (snd (on_simple_code_changed qt_setValue reassigning_state))
     = header_text example_params ++ reassigning_tail
  /\ syncing (snd (on_simple_code_changed qt_setValue reassigning_state)) = false.
Proof.
  apply (extraction_reads_header qt_setValue example_params reassigning_tail
           reassigning_state).
  - exact qt_setValue_exact.
  - repeat split; by vm_compute.
  - reflexivity.
  - reflexivity.
Defined.

(** * The in-place substitution on a generated header *)

Lemma re_sub1_num_at name (A V R v : list N) :
  no_start (self_ name) A ->
  all_in CDigitDot V -> V <> [] -> stops CDigitDot R ->
  re_sub1 (replace_num name) [Group1; Literal v]
          (A ++ (self_ name ++ txt " = ") ++ V ++ R)
  = A ++ (self_ name ++ txt " = ") ++ v ++ R.
Proof.
  intros HA HV Hne HR. apply (re_sub1_first _ _ _ _ _ V). split; [done|]. split.
  - apply replace_num_iff. split; [done|].
    exists [32], [32], V, R.
    split; [reassoc|]. split; [by repeat constructor|].
    split; [by repeat constructor|]. split; [done|]. split; [done|].
    split; [done|]. split; [reflexivity|]. by rewrite length_app.
  - intros j Hj.
    destruct (match_at (replace_num name) (drop j _)) as [[[a b] c]|] eqn:E;
      [|done].
    apply replace_num_iff in E as [_ E]. apply num_shape_prefix in E.
    by rewrite HA in E.
Qed.

Lemma re_sub1_colour_at (A C R v : list N) :
  no_start (self_ "colour_detection") A ->
  all_in CNotQuote C ->
  re_sub1 replace_colour [Group1; Literal v]
          (A ++ (self_ "colour_detection" ++ txt " = " ++ [quote])
             ++ (C ++ [quote]) ++ R)
  = A ++ (self_ "colour_detection" ++ txt " = " ++ [quote]) ++ v ++ R.
Proof.
  intros HA HC. apply (re_sub1_first _ _ _ _ _ (C ++ [quote])).
  split; [done|]. split.
  - apply replace_colour_iff. split; [done|].
    exists [32], [32], C, R.
    split; [reassoc|]. split; [by repeat constructor|].
    split; [by repeat constructor|]. split; [done|].
    split; [rewrite !length_app; simpl; lia|].
    rewrite !length_app. simpl. lia.
  - intros j Hj.
    destruct (match_at replace_colour (drop j _)) as [[[a b] c]|] eqn:E;
      [|done].
    apply replace_colour_iff in E as [_ E]. apply colour_shape_prefix in E.
    by rewrite HA in E.
Qed.

Ltac header_eq :=
  unfold header_text, set_forward_speed, set_backward_speed, set_turn_speed,
    set_obstacle_distance, set_turn_cw, set_turn_acw, set_colour_detection;
  unfold_lines;
  cbn [forward_speed backward_speed turn_speed obstacle_distance turn_cw
       turn_acw colour_detection];
  rewrite <- !app_assoc; reflexivity.

Ltac sub_num_in A V R :=
  match goal with
  | |- re_sub1 (replace_num ?name) _ ?t = _ =>
      replace t with (A ++ (self_ name ++ txt " = ") ++ V ++ R) by header_eq;
      rewrite re_sub1_num_at;
      [ header_eq
      | unfold_lines; no_start_tac
      | apply fixed_all | apply fixed_nonempty | reflexivity ]
  end.

Lemma sub_forward_speed_in q x tail :
  re_sub1 (replace_num "forward_speed") [Group1; Literal (fixed 2 x)]
          (header_text q ++ tail)
  = header_text (set_forward_speed x q) ++ tail.
Proof.
  destruct q as [a b c d e f g].
  sub_num_in (preamble ++ indent) (fixed 2 a)
    (line_end (txt "       # m/s  ")
     ++ line_backward_speed (MkParams a b c d e f g)
     ++ line_turn_speed (MkParams a b c d e f g)
     ++ line_obstacle_distance (MkParams a b c d e f g)
     ++ line_turn_cw (MkParams a b c d e f g)
     ++ line_turn_acw (MkParams a b c d e f g)
     ++ line_colour_detection (MkParams a b c d e f g) ++ tail).
Qed.

Lemma sub_backward_speed_in q x tail :
  re_sub1 (replace_num "backward_speed") [Group1; Literal (fixed 2 x)]
          (header_text q ++ tail)
  = header_text (set_backward_speed x q) ++ tail.
Proof.
  destruct q as [a b c d e f g].
  sub_num_in (preamble ++ line_forward_speed (MkParams a b c d e f g) ++ indent)
    (fixed 2 b)
    (line_end (txt "      # m/s  ")
     ++ line_turn_speed (MkParams a b c d e f g)
     ++ line_obstacle_distance (MkParams a b c d e f g)
     ++ line_turn_cw (MkParams a b c d e f g)
     ++ line_turn_acw (MkParams a b c d e f g)
     ++ line_colour_detection (MkParams a b c d e f g) ++ tail).
Qed.

Lemma sub_turn_speed_in q x tail :
  re_sub1 (replace_num "turn_speed") [Group1; Literal (fixed 2 x)]
          (header_text q ++ tail)
  = header_text (set_turn_speed x q) ++ tail.
Proof.
  destruct q as [a b c d e f g].
  sub_num_in (preamble ++ line_forward_speed (MkParams a b c d e f g)
              ++ line_backward_speed (MkParams a b c d e f g) ++ indent)
    (fixed 2 c)
    (line_end (txt "          # rad/s  ")
     ++ line_obstacle_distance (MkParams a b c d e f g)
     ++ line_turn_cw (MkParams a b c d e f g)
     ++ line_turn_acw (MkParams a b c d e f g)
     ++ line_colour_detection (MkParams a b c d e f g) ++ tail).
Qed.

Lemma sub_obstacle_distance_in q x tail :
  re_sub1 (replace_num "obstacle_distance") [Group1; Literal (fixed 2 x)]
          (header_text q ++ tail)
  = header_text (set_obstacle_distance x q) ++ tail.
Proof.
  destruct q as [a b c d e f g].
  sub_num_in (preamble ++ line_forward_speed (MkParams a b c d e f g)
              ++ line_backward_speed (MkParams a b c d e f g)
              ++ line_turn_speed (MkParams a b c d e f g) ++ indent)
    (fixed 2 d)
    (line_end (txt "   # metres  ")
     ++ line_turn_cw (MkParams a b c d e f g)
     ++ line_turn_acw (MkParams a b c d e f g)
     ++ line_colour_detection (MkParams a b c d e f g) ++ tail).
Qed.

Lemma sub_turn_cw_in q x tail :
  re_sub1 (replace_num "turn_cw_deg") [Group1; Literal (fixed 1 x)]
          (header_text q ++ tail)
  = header_text (set_turn_cw x q) ++ tail.
Proof.
  destruct q as [a b c d e f g].
  sub_num_in (preamble ++ line_forward_speed (MkParams a b c d e f g)
              ++ line_backward_speed (MkParams a b c d e f g)
              ++ line_turn_speed (MkParams a b c d e f g)
              ++ line_obstacle_distance (MkParams a b c d e f g) ++ indent)
    (fixed 1 e)
    (line_end (txt "         # degrees CW  ")
     ++ line_turn_acw (MkParams a b c d e f g)
     ++ line_colour_detection (MkParams a b c d e f g) ++ tail).
Qed.

Lemma sub_turn_acw_in q x tail :
  re_sub1 (replace_num "turn_acw_deg") [Group1; Literal (fixed 1 x)]
          (header_text q ++ tail)
  = header_text (set_turn_acw x q) ++ tail.
Proof.
  destruct q as [a b c d e f g].
  sub_num_in (preamble ++ line_forward_speed (MkParams a b c d e f g)
              ++ line_backward_speed (MkParams a b c d e f g)
              ++ line_turn_speed (MkParams a b c d e f g)
              ++ line_obstacle_distance (MkParams a b c d e f g)
              ++ line_turn_cw (MkParams a b c d e f g) ++ indent)
    (fixed 1 f)
    (line_end (txt "        # degrees ACW  ")
     ++ line_colour_detection (MkParams a b c d e f g) ++ tail).
Qed.

Lemma sub_colour_detection_in q x tail :
  re_sub1 replace_colour [Group1; Literal (colour_text x ++ [quote])]
          (header_text q ++ tail)
  = header_text (set_colour_detection x q) ++ tail.
Proof.
  destruct q as [a b c d e f g].
  replace (header_text (MkParams a b c d e f g) ++ tail)
    with ((preamble ++ line_forward_speed (MkParams a b c d e f g)
           ++ line_backward_speed (MkParams a b c d e f g)
           ++ line_turn_speed (MkParams a b c d e f g)
           ++ line_obstacle_distance (MkParams a b c d e f g)
           ++ line_turn_cw (MkParams a b c d e f g)
           ++ line_turn_acw (MkParams a b c d e f g) ++ indent)
          ++ (self_ "colour_detection" ++ txt " = " ++ [quote])
          ++ (colour_text g ++ [quote])
          ++ line_end (txt "   # Red|Blue|Yellow|Green  ") ++ tail)
    by header_eq.
  rewrite re_sub1_colour_at;
    [header_eq | unfold_lines; no_start_tac | apply colour_text_notquote].
Qed.

(** On a text that opens with a generated header, the in-place substitution
    is a fresh render of the header: each parameter line shows the new
    value and the text after the header is untouched. *)
Lemma substitute_header p p' tail :
  substitute (replacements p') (header_text p ++ tail) = header_text p' ++ tail.
Proof.
  unfold substitute, replacements. cbn [fold_left fst snd].
  rewrite sub_forward_speed_in, sub_backward_speed_in, sub_turn_speed_in,
    sub_obstacle_distance_in, sub_turn_cw_in, sub_turn_acw_in,
    sub_colour_detection_in.
  by destruct p, p'.
Qed.

Lemma sync_simple_view_from_spinboxes_run (s : App) :
  syncing s = false -> blank (simple_editor s) = false ->
  editor_text (simple_editor s) ->
  sync_simple_view_from_spinboxes s
  = (Ret tt,
     set_simple_editor (substitute (replacements (spins s)) (simple_editor s)) s).
Proof.
  intros Hs Hb Ht. destruct s as [b p v fe i f d].
  cbn [syncing simple_editor] in *. subst b.
  unfold sync_simple_view_from_spinboxes, try_finally, mbind, M_bind, gets,
    modify, mret, M_ret.
  app_proj. rewrite Hb. app_proj.
  case_bool_decide as Hc; app_proj.
  - by rewrite toPlainText_id by (by apply substitute_editor_text).
  - by destruct (decide (substitute (replacements p) v = v)) as [->|].
Qed.

(** Nothing is set when the substitution finds the widgets' values in the
    text. *)
Lemma sync_simple_view_from_spinboxes_same (s : App) :
  syncing s = false -> blank (simple_editor s) = false ->
  substitute (replacements (spins s)) (simple_editor s) = simple_editor s ->
  sync_simple_view_from_spinboxes s = (Ret tt, s).
Proof.
  intros Hs Hb He. destruct s as [b p v fe i f d].
  cbn [syncing simple_editor spins] in *. subst b.
  unfold sync_simple_view_from_spinboxes, try_finally, mbind, M_bind, gets,
    modify, mret, M_ret.
  app_proj. rewrite Hb. app_proj.
  by rewrite bool_decide_eq_false_2 by (by intros []).
Qed.

Lemma header_text_editor_text p : editor_text (header_text p).
Proof. unfold header_text. unfold_lines. editor_text_tac. Qed.

Lemma header_text_not_blank p tail : blank (header_text p ++ tail) = false.
Proof.
  destruct (blank (header_text p ++ tail)) eqn:E; [|done].
  apply blank_spec in E. unfold blank_line, header_text, preamble in E.
  rewrite <- !app_assoc in E. by inversion E.
Qed.

Lemma in_place_rerender (s : App) (p : params) (tail : list N) :
  syncing s = false -> simple_editor s = header_text p ++ tail ->
  editor_text tail ->
  sync_simple_view_from_spinboxes s
  = (Ret tt, set_simple_editor (header_text (spins s) ++ tail) s).
Proof.
  intros Hs Hv Ht. rewrite sync_simple_view_from_spinboxes_run; [|done| |].
  - by rewrite Hv, substitute_header.
  - rewrite Hv. apply header_text_not_blank.
  - rewrite Hv. apply editor_text_app; [apply header_text_editor_text|done].
Qed.

(** X2: when a widget changes, the in-place substitution turns a view that
    opens with a generated header (of whatever values) into the same view
    with the header re-rendered from the widgets; the text below the header,
    a text of the editor, and all else stays. *)
Theorem in_place_substitution_rerenders_header (s : App) (p : params)
        (tail : list N) :
  syncing s = false -> simple_editor s = header_text p ++ tail ->
  editor_text tail ->
  sync_simple_view_from_spinboxes s
  = (Ret tt, set_simple_editor (header_text (spins s) ++ tail) s)
  /\ substitute (replacements (spins s)) (header_text (spins s) ++ tail)
     = header_text (spins s) ++ tail.
Proof.
  intros Hs Hv Ht. split; [|apply substitute_header].
  by apply in_place_rerender with p.
Qed.

Lemma in_place_substitution_rerenders_header_witness :
  sync_simple_view_from_spinboxes outdated_view_state
  = (Ret tt,
     set_simple_editor (header_text (spins outdated_view_state)
                        ++ reassigning_tail) outdated_view_state)
  /\ substitute (replacements (spins outdated_view_state))
                (header_text (spins outdated_view_state) ++ reassigning_tail)
     = header_text (spins outdated_view_state) ++ reassigning_tail.
Proof.
  apply (in_place_substitution_rerenders_header outdated_view_state
           example_params reassigning_tail).
  - reflexivity.
  - reflexivity.
  - apply editor_text_lit. by vm_compute.
Defined.

(** X3: widgets to text to widgets: after the in-place substitution, the
    text-changed extraction finds the widgets' own values and changes
    nothing; the two handlers settle after one step. *)
Theorem extraction_after_substitution_is_stable setValue (s : App)
        (p : params) (tail : list N) :
  stores_exact setValue -> in_range (spins s) ->
  syncing s = false -> simple_editor s = header_text p ++ tail ->
  editor_text tail ->
  on_simple_code_changed setValue (snd (sync_simple_view_from_spinboxes s))
  = (Ret tt, snd (sync_simple_view_from_spinboxes s)).
Proof.
  intros Hset Hr Hs Hv Ht.
  rewrite (in_place_rerender s p tail) by done. cbn [snd].
  rewrite (extraction_reads_header_aux setValue (spins s) tail);
    try done; by destruct s.
Qed.

Lemma extraction_after_substitution_is_stable_witness :
  on_simple_code_changed qt_setValue
    (snd (sync_simple_view_from_spinboxes outdated_view_state))
  = (Ret tt, snd (sync_simple_view_from_spinboxes outdated_view_state)).
Proof.
  apply (extraction_after_substitution_is_stable qt_setValue
           outdated_view_state example_params reassigning_tail).
  - exact qt_setValue_exact.
  - repeat split; by vm_compute.
  - reflexivity.
  - reflexivity.
  - apply editor_text_lit. by vm_compute.
Defined.

(** X4: text to widgets to text: after the extraction from a view that opens
    with a generated header, the in-place substitution finds nothing to
    change: the view's text, with the user's logic, is left as typed. *)
Theorem substitution_after_extraction_keeps_text setValue (s : App)
        (P : params) (tail : list N) :
  stores_exact setValue -> in_range P ->
  syncing s = false -> simple_editor s = header_text P ++ tail ->
  sync_simple_view_from_spinboxes (snd (on_simple_code_changed setValue s))
  = (Ret tt, snd (on_simple_code_changed setValue s))
  /\ simple_editor (snd (on_simple_code_changed setValue s)) = simple_editor s.
Proof.
  intros Hset Hr Hs Hv.
  rewrite (extraction_reads_header_aux setValue P tail s Hset Hr Hs Hv).
  cbn [snd]. split; [|by destruct s].
  destruct s as [b p v fe i f d]. cbn [simple_editor syncing] in *. subst v b.
  apply sync_simple_view_from_spinboxes_same; [done|..];
    unfold set_spins; cbn [simple_editor spins].
  - apply header_text_not_blank.
  - apply substitute_header.
Qed.

Lemma substitution_after_extraction_keeps_text_witness :
  sync_simple_view_from_spinboxes
    (snd (on_simple_code_changed qt_setValue reassigning_state))
  = (Ret tt, snd (on_simple_code_changed qt_setValue reassigning_state))
  /\ simple_editor (snd (on_simple_code_changed qt_setValue reassigning_state))
     = simple_editor reassigning_state.
Proof.
  apply (substitution_after_extraction_keeps_text qt_setValue reassigning_state
           example_params reassigning_tail).
  - exact qt_setValue_exact.
  - repeat split; by vm_compute.
  - reflexivity.
  - reflexivity.
Defined.

(** * Loading *)

Lemma rebuilt_view_join p (x : list N) :
  join_nl (header_lines p ++ [x]) ++ [nl] = rebuilt_view p x.
Proof.
  unfold rebuilt_view, header_text, separator_lines, header_lines, param_text.
  unfold_lines. cbn [join_nl app]. reassoc.
Qed.

Lemma load_found (s : App) (code : list N) (m : mtch) :
  disk s !! MOVEMENT_PY = Some code ->
  re_search markers_re code = Some m ->
  load_simple_view_from_movement_py s
  = (Ret tt,
     set_syncing false
       (set_simple_editor
          (toPlainText (rebuilt_view (spins s) (rstrip_nl (group1 m code)))) s)).
Proof.
  intros Hdisk Hm. rewrite <- rebuilt_view_join.
  destruct s as [b p v fe i f d]. cbn [disk] in Hdisk.
  unfold load_simple_view_from_movement_py, mbind, M_bind, gets, modify,
    try_finally, mret, M_ret.
  app_proj. rewrite Hdisk. cbv beta iota. rewrite Hm. cbv beta iota.
  rewrite split_generate_simple_code, first_line_with_header.
  by rewrite (take_app_length' (header_lines p)).
Qed.

Lemma load_present (s : App) (code : list N) :
  disk s !! MOVEMENT_PY = Some code ->
  exists rest,
    load_simple_view_from_movement_py s
    = (Ret tt,
       set_syncing false (set_simple_editor (header_text (spins s) ++ rest) s)).
Proof.
  intros Hd. destruct (re_search markers_re code) as [m|] eqn:E.
  - eexists. rewrite (load_found _ _ _ Hd E). unfold rebuilt_view.
    rewrite toPlainText_app by apply header_text_editor_text. reflexivity.
  - exists logic_template. rewrite (load_default _ _ Hd E).
    by rewrite generate_simple_code_header.
Qed.

(** X5: loading an existing [movement.py], whatever it holds, rebuilds the
    Simple View on the header rendered from the widgets and touches nothing
    else; the text-changed extraction run on the loaded view finds the
    widgets' own values, so a load never moves a widget. *)
Theorem load_keeps_widgets setValue (s : App) (code : list N) :
  stores_exact setValue -> in_range (spins s) ->
  disk s !! MOVEMENT_PY = Some code ->
  (exists rest,
     load_simple_view_from_movement_py s
     = (Ret tt,
        set_syncing false (set_simple_editor (header_text (spins s) ++ rest) s)))
  /\ on_simple_code_changed setValue (snd (load_simple_view_from_movement_py s))
     = (Ret tt, snd (load_simple_view_from_movement_py s)).
Proof.
  intros Hset Hr Hd. destruct (load_present s code Hd) as [rest E].
  split; [by exists rest|]. rewrite E. cbn [snd].
  rewrite (extraction_reads_header_aux setValue (spins s) rest);
    try done; by destruct s.
Qed.

Lemma load_keeps_widgets_witness :
  (exists rest,
     load_simple_view_from_movement_py sample_state
     = (Ret tt,
        set_syncing false
          (set_simple_editor (header_text (spins sample_state) ++ rest)
                             sample_state)))
  /\ on_simple_code_changed qt_setValue
       (snd (load_simple_view_from_movement_py sample_state))
     = (Ret tt, snd (load_simple_view_from_movement_py sample_state)).
Proof.
  apply (load_keeps_widgets qt_setValue sample_state sample_artifact).
  - exact qt_setValue_exact.
  - repeat split; by vm_compute.
  - reflexivity.
Defined.

(** X6: without a [movement.py] nothing is written: reconciliation and the
    timed save in the Simple View leave the whole state as it is (no file
    appears), and a load only fills an empty Simple View with the default
    render, leaving a text of the user's alone. *)
Theorem missing_artifact (s : App) :
  disk s !! MOVEMENT_PY = None ->
  reconcile s = (Ret tt, s)
  /\ (editor_stack s = 0%nat -> autosave s = (Ret tt, s))
  /\ load_simple_view_from_movement_py s
     = (Ret tt,
        if blank (simple_editor s)
        then set_syncing false
               (set_simple_editor (generate_simple_code (spins s)) s)
        else s)
  /\ disk (snd (load_simple_view_from_movement_py s)) = disk s.
Proof.
  intros Hd. pose proof (reconcile_absent s Hd) as Hrec.
  split; [done|]. split.
  { intros Hi. unfold autosave. erewrite bind_run; [|reflexivity].
    rewrite Hi, bool_decide_eq_true_2 by done. exact Hrec. }
  destruct s as [b p v fe i f d]. cbn [disk simple_editor] in *.
  unfold load_simple_view_from_movement_py, mbind, M_bind, gets, modify,
    try_finally, mret, M_ret.
  app_proj. rewrite Hd. app_proj.
  destruct (blank v); [|done]. cbn [spins]. by rewrite toPlainText_generate.
Qed.

Lemma missing_artifact_witness :
  reconcile unsaved_state = (Ret tt, unsaved_state)
  /\ (editor_stack unsaved_state = 0%nat ->
      autosave unsaved_state = (Ret tt, unsaved_state))
  /\ load_simple_view_from_movement_py unsaved_state
     = (Ret tt,
        if blank (simple_editor unsaved_state)
        then set_syncing false
               (set_simple_editor (generate_simple_code (spins unsaved_state))
                                  unsaved_state)
        else unsaved_state)
  /\ disk (snd (load_simple_view_from_movement_py unsaved_state))
     = disk unsaved_state.
Proof. apply (missing_artifact unsaved_state). reflexivity. Defined.

(** * From the Full View to the Simple View *)

Lemma lstrip_nl_newlines k (Y : list N) :
  lstrip_nl (replicate k nl ++ Y) = lstrip_nl Y.
Proof. induction k as [|k IH]; [done|]. simpl. exact IH. Qed.

Lemma rev_replicate {A} k (x : A) : rev (replicate k x) = replicate k x.
Proof.
  induction k as [|k IH]; [done|]. simpl. rewrite IH.
  clear IH. induction k as [|k IH]; [done|]. simpl. by rewrite IH.
Qed.

(** [rstrip] drops the trailing newlines, however many. *)
Lemma rstrip_nl_newlines (X : list N) k :
  last X <> Some nl -> rstrip_nl (X ++ replicate k nl) = X.
Proof.
  intros HX. unfold rstrip_nl.
  rewrite rev_app_distr, rev_replicate, lstrip_nl_newlines.
  destruct (rev X) as [|c r] eqn:E.
  { apply (f_equal (@rev N)) in E. rewrite rev_involutive in E. by subst. }
  assert (X = rev r ++ [c]) as ->.
  { by rewrite <- (rev_involutive X), E. }
  rewrite last_snoc in HX. simpl.
  destruct (c =? nl) eqn:Ec; [apply N.eqb_eq in Ec; congruence|done].
Qed.

Lemma rebuilt_view_editor_text p (X : list N) :
  editor_text X -> editor_text (rebuilt_view p X).
Proof.
  intros HX. unfold rebuilt_view.
  apply editor_text_app; [apply header_text_editor_text|].
  apply editor_text_app; [by apply editor_text_lit|].
  constructor; [done|]. apply editor_text_app; [done|by apply editor_text_lit].
Qed.

(** X7: switching from the Full View with [movement.py] open: the editor's
    text is saved to the file, and the Simple View is rebuilt from the
    widgets and the text between the first start marker and the next end
    marker, its trailing newlines (however many) dropped; the Full View's
    header values are not read. *)
Theorem full_view_edits_reach_simple_view (s : App) (Hd X T : list N) (k : nat) :
  editor_stack s = 1%nat ->
  full_view_current_file s = Some MOVEMENT_PY ->
  editor_text (full_editor s) ->
  full_editor s
  = Hd ++ marker_start ++ (X ++ replicate k nl) ++ marker_end ++ T ->
  find marker_start (full_editor s) = Some (length Hd) ->
  find marker_end ((X ++ replicate k nl) ++ marker_end ++ T)
  = Some (length (X ++ replicate k nl)) ->
  last X <> Some nl ->
  show_simple_view s
  = (Ret tt,
     MkApp false (spins s) (rebuilt_view (spins s) X) (full_editor s) 0
           (Some MOVEMENT_PY) (<[MOVEMENT_PY := full_editor s]> (disk s))).
Proof.
  intros Hi Hf Het Hfe Hs He HX.
  assert (editor_text X) as HXt.
  { rewrite Hfe in Het. unfold editor_text in Het.
    rewrite !Forall_app in Het. tauto. }
  rewrite show_simple_view_run by done. rewrite save_full_view_file_run, Hf.
  rewrite bool_decide_eq_false_2 by done. cbn [snd].
  set (G := X ++ replicate k nl) in *.
  assert (re_search markers_re (full_editor s)
          = Some (Mtch (length Hd) (length Hd + length marker_start)
                       (length Hd + (length marker_start + length G))
                       (length Hd + (length marker_start + length G
                                     + length marker_end)))) as Hm.
  { apply re_search_markers; [done|]. rewrite Hfe.
    rewrite app_assoc, <- length_app, drop_app_length. done. }
  assert (group1 (Mtch (length Hd) (length Hd + length marker_start)
                       (length Hd + (length marker_start + length G))
                       (length Hd + (length marker_start + length G
                                     + length marker_end)))
                 (full_editor s) = G) as HG.
  { rewrite Hfe. apply group1_at. }
  erewrite load_found; [| |exact Hm].
  2:{ destruct s; app_proj. apply lookup_insert_eq. }
  rewrite HG. subst G.
  rewrite rstrip_nl_newlines by done.
  rewrite toPlainText_id by (by apply rebuilt_view_editor_text).
  destruct s as [b p v fe i f d]. cbn in Hf. by subst f.
Qed.

Lemma full_view_edits_reach_simple_view_witness :
  show_simple_view full_view_state
  = (Ret tt,
     MkApp false (spins full_view_state)
           (rebuilt_view (spins full_view_state) custom_logic)
           (full_editor full_view_state) 0
           (Some MOVEMENT_PY)
           (<[MOVEMENT_PY := full_editor full_view_state]> (disk full_view_state))).
Proof.
  apply (full_view_edits_reach_simple_view full_view_state sample_header
           custom_logic [nl] 3).
  - reflexivity.
  - reflexivity.
  - apply editor_text_lit. by vm_compute.
  - reflexivity.
  - by vm_compute.
  - by vm_compute.
  - by vm_compute.
Defined.

(** * Writing the logic twice *)









(** * The timed save *)


(** * Lines of a text with a generated header *)

Lemma join_nl_split (s : list N) : join_nl (split_nl s) = s.
Proof.
  induction s as [|c s IH]; [done|]. simpl.
  destruct (c =? nl) eqn:E.
  - apply N.eqb_eq in E as ->.
    rewrite join_nl_cons by apply split_nl_nonempty. by rewrite IH.
  - destruct (split_nl s) as [|l ls] eqn:E2; [by apply split_nl_nonempty in E2|].
    rewrite <- IH. by destruct ls.
Qed.

Lemma split_nl_lines_then (ls : list (list N)) (tail : list N) :
  ls <> [] -> Forall nl_free ls ->
  split_nl (join_nl ls ++ nl :: tail) = ls ++ split_nl tail.
Proof.
  intros Hne HF. rewrite <- (join_nl_split tail) at 1.
  rewrite <- join_nl_app by (done || apply split_nl_nonempty).
  apply split_nl_join; [by destruct ls|].
  apply Forall_app. split; [done | apply split_nl_free].
Qed.

Lemma header_lines_join p :
  join_nl (header_lines p) = header_text p ++ separator_lines.
Proof.
  unfold header_text, separator_lines, header_lines, param_text.
  unfold_lines. cbn [join_nl app]. reassoc.
Qed.

Lemma split_nl_header p (tail : list N) :
  split_nl (header_text p ++ separator_lines ++ nl :: tail)
  = header_lines p ++ split_nl tail.
Proof.
  rewrite app_assoc, <- header_lines_join.
  apply split_nl_lines_then; [done | apply header_lines_free].
Qed.

Lemma no_start_digits_head (c : N) (pat V : list N) :
  in_class CDigitDot c = false -> all_in CDigitDot V -> no_start (c :: pat) V.
Proof.
  intros Hc HV rest j Hj. rewrite drop_app_le by lia.
  destruct (drop j V) as [|c' r] eqn:E; [by apply drop_nonempty in E|].
  apply head_in_drop in E. unfold all_in in HV. rewrite Forall_forall in HV.
  apply HV in E. cbn [is_prefix app].
  destruct (c =? c') eqn:Ec; [|done]. apply N.eqb_eq in Ec as <-. congruence.
Qed.

Lemma param_text_grouped name (value comment : list N) :
  param_text name value comment
  = (indent ++ self_ name ++ txt " = ") ++ value
    ++ (comment ++ [arrow] ++ txt " edit").
Proof. unfold param_text. reassoc. Qed.

Ltac no_sentinel_tac :=
  first
    [ apply no_start_lit; vm_compute; reflexivity
    | lazymatch goal with
      | |- no_start _ (fixed _ _) =>
          apply (no_start_digits_head 100 (txt "ef control_loop"));
          [reflexivity | apply fixed_all]
      | |- no_start _ (_ ++ _) => apply no_start_app; no_sentinel_tac
      end ].

(** The line of [def control_loop] is line 16 of the header lines and the
    first to contain the sentinel, whatever lines follow. *)
Lemma first_sentinel_line p (more : list (list N)) :
  first_line_with sentinel (header_lines p ++ more) 0 = Some 16%nat.
Proof.
  unfold header_lines. rewrite <- !(@app_comm_cons (list N)).
  rewrite !param_text_grouped.
  destruct p as [a b c d e f g].
  cbn [forward_speed backward_speed turn_speed obstacle_distance turn_cw
       turn_acw colour_detection].
  destruct g;
    do 16 (rewrite first_line_with_skip;
           [|apply contains_no_start; [done|no_sentinel_tac]]);
    cbn [first_line_with];
    by replace (contains sentinel (txt "    def control_loop(self):")) with true
      by (by vm_compute).
Qed.

(** X10: in a Simple View that opens with the generated header up to the
    separator line, whatever the parameter values and whatever text follows,
    the boundary is line 16: a drop is handed on exactly on the lines after
    it, and the hover feedback refuses exactly where the drop would be
    ignored. *)
Theorem drop_guard_on_generated_header (p : params) (tail : list N) (t : nat) :
  logic_start_line (header_text p ++ separator_lines ++ nl :: tail)
  = Some 16%nat
  /\ dropEvent (header_text p ++ separator_lines ++ nl :: tail) t
     = bool_decide (16 < t)%nat
  /\ dragMoveEvent (header_text p ++ separator_lines ++ nl :: tail) t
     = dropEvent (header_text p ++ separator_lines ++ nl :: tail) t.
Proof.
  assert (logic_start_line (header_text p ++ separator_lines ++ nl :: tail)
          = Some 16%nat) as E.
  { unfold logic_start_line. rewrite split_nl_header. apply first_sentinel_line. }
  split; [done|]. unfold dragMoveEvent, dropEvent. rewrite E. split; [|done].
  repeat case_bool_decide; (done || lia).
Qed.

(** * The extracted logic *)

(** X11: What [_extract_simple_view_logic] returns is not empty and does not
    end with a newline, so the newline the splice appends is the only one the
    load strips; and the view the load rebuilds around it, for any widget
    values, yields the same logic again. *)
Theorem extracted_logic_survives_rebuild (view X : list N) (p : params) :
  extract_simple_view_logic view = Some X ->
  X <> [] /\ last X <> Some nl
  /\ rstrip_nl (X ++ [nl]) = X
  /\ extract_simple_view_logic (rebuilt_view p X) = Some X.
Proof.
  intros HX.
  destruct (extract_logic_shape _ _ HX) as (front & lst & EX & HF & Hb).
  destruct (last_char_not_nl _ _ HF Hb) as (Y & c & EY & Hc).
  rewrite <- EX in EY.
  split; [rewrite EY; by destruct Y|].
  split; [rewrite EY, last_snoc; congruence|].
  split; [rewrite EY; by apply rstrip_nl_newline|].
  rewrite <- rebuilt_view_join, EX.
  by apply rebuilt_view_logic.
Qed.

Lemma extracted_logic_survives_rebuild_witness :
  custom_logic <> [] /\ last custom_logic <> Some nl
  /\ rstrip_nl (custom_logic ++ [nl]) = custom_logic
  /\ extract_simple_view_logic (rebuilt_view example_params custom_logic)
     = Some custom_logic.
Proof.
  apply (extracted_logic_survives_rebuild (simple_editor round_trip_state)
           custom_logic example_params).
  by vm_compute.
Defined.

(** * Texts without parameter assignments *)









(** * The rewrite below a covering header *)



(** * The switch to the Full View without an artifact *)

(** X14: with no [movement.py] on disk, the switch to the Full View writes
    nothing; if [movement.py] is still named as the open file, reading it
    raises before the view is switched, otherwise the Full View is shown. *)
Theorem show_full_view_without_artifact (s : App) :
  editor_stack s = 0%nat -> disk s !! MOVEMENT_PY = None ->
  show_full_view s
  = if bool_decide (full_view_current_file s = Some MOVEMENT_PY)
    then (Raise FileNotFoundError, s)
    else (Ret tt, set_editor_stack 1 s).
Proof.
  intros Hi Hd.
  assert (sync_simple_view_to_full_view s
          = if bool_decide (full_view_current_file s = Some MOVEMENT_PY)
            then (Raise FileNotFoundError, s) else (Ret tt, s)) as E.
  { unfold sync_simple_view_to_full_view. rewrite bind_assoc.
    erewrite bind_run; [|by apply reconcile_absent].
    destruct s as [b p v fe i f d]. cbn [disk] in Hd.
    unfold mbind, M_bind, gets, raise, mret, M_ret. app_proj.
    case_bool_decide; [|done]. app_proj. by rewrite Hd. }
  unfold show_full_view. erewrite bind_run; [|reflexivity].
  rewrite Hi, bool_decide_eq_true_2 by done.
  unfold mbind at 1. unfold M_bind at 1. rewrite E.
  destruct s as [b p v fe i f d].
  unfold mbind, M_bind, gets, modify, mret, M_ret. app_proj.
  destruct (decide (f = Some MOVEMENT_PY)) as [Hf|Hf].
  - by rewrite !(bool_decide_eq_true_2 (f = Some MOVEMENT_PY)) by done.
  - by rewrite !(bool_decide_eq_false_2 (f = Some MOVEMENT_PY)) by done.
Qed.

Lemma show_full_view_without_artifact_witness :
  show_full_view orphan_state
  = if bool_decide (full_view_current_file orphan_state = Some MOVEMENT_PY)
    then (Raise FileNotFoundError, orphan_state)
    else (Ret tt, set_editor_stack 1 orphan_state).
Proof. apply show_full_view_without_artifact; reflexivity. Defined.

(** * Opening another file *)



(** * The editors hold texts an editor returns *)





























(** * What the round trip saves *)

Lemma load_keeps_disk (s : App) :
  disk (snd (load_simple_view_from_movement_py s)) = disk s.
Proof.
  destruct s as [b p v fe i f d].
  unfold load_simple_view_from_movement_py, mbind, M_bind, gets, modify,
    try_finally, mret, M_ret.
  app_proj. destruct (d !! MOVEMENT_PY) as [code|].
  - cbv zeta. destruct (re_search markers_re code); reflexivity.
  - app_proj. by destruct (blank v).
Qed.

(** X17: with [movement.py] open in the Full View, the switch to the Full
    View and back leaves in the file what the editor returns for the
    reconciled artifact, with the widgets' values written into it once more:
    the file passes through the editor, and the characters an editor replaces
    are gone from it. *)
Theorem round_trip_saves_editor_text (s : App) (code : list N) :
  editor_stack s = 0%nat ->
  full_view_current_file s = Some MOVEMENT_PY ->
  disk s !! MOVEMENT_PY = Some code ->
  blank (toPlainText (reconciled (spins s) (simple_editor s) code)) = false ->
  disk (snd (show_simple_view (snd (show_full_view s)))) !! MOVEMENT_PY
  = Some (substitute (replacements (spins s))
            (toPlainText (reconciled (spins s) (simple_editor s) code)))
  /\ editor_text (substitute (replacements (spins s))
                    (toPlainText (reconciled (spins s) (simple_editor s) code))).
Proof.
  intros Hi Hf Hd Hb. split.
  - rewrite (show_full_view_run s code Hi Hd) by done. cbv zeta. cbn [snd].
    rewrite show_simple_view_run by done. rewrite load_keeps_disk.
    rewrite save_full_view_file_run. cbn [full_view_current_file snd].
    rewrite Hf. rewrite bool_decide_eq_false_2 by done.
    rewrite bool_decide_eq_true_2 by done.
    unfold set_editor_stack, set_disk.
    cbn [disk full_editor]. apply lookup_insert_eq.
  - apply substitute_editor_text, toPlainText_editor_text.
Qed.

Lemma round_trip_saves_editor_text_witness :
  disk (snd (show_simple_view (snd (show_full_view nbsp_state)))) !! MOVEMENT_PY
  = Some (substitute (replacements (spins nbsp_state))
            (toPlainText (reconciled (spins nbsp_state)
                                     (simple_editor nbsp_state) nbsp_artifact)))
  /\ editor_text (substitute (replacements (spins nbsp_state))
                    (toPlainText (reconciled (spins nbsp_state)
                                             (simple_editor nbsp_state)
                                             nbsp_artifact))).
Proof.
  apply (round_trip_saves_editor_text nbsp_state nbsp_artifact).
  - reflexivity.
  - reflexivity.
  - reflexivity.
  - by vm_compute.
Defined.
